(** * Rate-limited parallel dispatcher of narrative-blueprint

    A shallow embedding of [models/model.py] (the quota tracker of
    [LanguageModel]), [models/openai_client.py] (the retry loop
    [_call_with_backoff] and the dispatcher [run_parallel_prompt_tasks]) and
    [narrative_blueprint/blueprint.py] (the dedup filter), with the
    properties of the specification stated over it.

    Conventions of the embedding:
    - Python [int] is [Z]; [len] results are [nat] (injected where compared).
    - [time.time()] readings and durations are exact rationals ([Q]); the
      literals [60.0], [1.0], [0.15], [0.05], [0.25] are the rationals they
      denote.  Rounding of binary floating point is not modelled.
    - [random.uniform(a, b)] is [a + (b - a) * u] for a sample [u] supplied
      by the environment; theorems that need it assume [0 <= u <= 1].
    - what the environment decides (clock, samples, the remote answer, the
      other threads' writes to the shared lists) is an explicit argument. *)

From Stdlib Require Import List Sorted ZArith QArith Qminmax Bool String Ascii Lia Lqa.
Import ListNotations.

Local Open Scope Z_scope.

(* ===================================================================== *)
(** ** Python primitives used by the code *)
(* ===================================================================== *)

Module Py.

(** [a < b] on floats. *)
Definition Qltb (a b : Q) : bool := negb (Qle_bool b a).

(** [max(a, b)] with two arguments: the first one unless the second is
    strictly larger. *)
Definition max (a b : Q) : Q := if Qltb a b then b else a.

(** [random.uniform(a, b)] for a sample [u] of [random.random()]. *)
Definition uniform (a b u : Q) : Q := (a + (b - a) * u)%Q.

(** [sum] of a list of ints. *)
Definition sum (l : list Z) : Z := fold_left Z.add l 0.

(** [int(x / n)] for ints [x] and [n]: true division, then truncation
    toward zero. *)
Definition int_div (x n : Z) : Z := Z.quot x n.

(** [list(range(lo, lo + n))]. *)
Fixpoint range (lo : Z) (n : nat) : list Z :=
  match n with
  | O => []
  | S n' => lo :: range (lo + 1) n'
  end.

(** [l[:k]] on a list, for any int [k]. *)
Definition slice_to {A} (l : list A) (k : Z) : list A :=
  if k <? 0 then firstn (Z.to_nat (Z.of_nat (List.length l) + k)) l
  else firstn (Z.to_nat k) l.

End Py.

(* ===================================================================== *)
(** ** QuotaTracker: [LanguageModel] in models/model.py *)
(* ===================================================================== *)

Module Quota.

(** An entry of [token_usage_log]: [(time, prompt_tokens, completion_tokens)]. *)
Definition usage : Type := Q * Z * Z.

Definition u_time (e : usage) : Q := fst (fst e).
Definition u_prompt (e : usage) : Z := snd (fst e).
Definition u_completion (e : usage) : Z := snd e.

(** The two shared lists of a model instance. *)
Record model_state : Type := {
  request_timestamps : list Q;
  token_usage_log : list usage
}.

(** [model_limits]: the ['rpm'] and ['tpm'] entries of the configuration. *)
Record model_limits : Type := {
  max_requests_per_min : Z;
  max_tokens_per_min : Z
}.

Definition AVERAGE_TOKEN_USAGE : Z := 1000.
Definition MAX_CONCURRENT_REQUESTS : nat := 10.
Definition DEFAULT_JITTER : Q := 15 # 100.

(** [_get_average_completion_tokens]. *)
Definition _get_average_completion_tokens (log : list usage) : Z :=
  match log with
  | [] => AVERAGE_TOKEN_USAGE
  | _ :: _ =>
      let completion_tokens := map u_completion log in
      Py.int_div (Py.sum completion_tokens) (Z.of_nat (List.length completion_tokens))
  end.

(** The two list comprehensions at the top of the critical section. *)
Definition recent (now t : Q) : bool := Py.Qltb (now - t) 60.

Definition prune_requests (now : Q) (ts : list Q) : list Q :=
  filter (fun t => recent now t) ts.

Definition prune_usage (now : Q) (log : list usage) : list usage :=
  filter (fun e => recent now (u_time e)) log.

Definition prune (now : Q) (st : model_state) : model_state :=
  {| request_timestamps := prune_requests now (request_timestamps st);
     token_usage_log := prune_usage now (token_usage_log st) |}.

(** [request_wait] of the branch [len(request_timestamps) >= rpm]. *)
Definition request_wait (now : Q) (ts : list Q) : Q :=
  match ts with
  | oldest_request_time :: _ => (60 - (now - oldest_request_time))%Q
  | [] => 1%Q
  end.

(** [tokens_used = sum(p + c for _, p, c in token_usage_log)]. *)
Definition tokens_used (log : list usage) : Z :=
  Py.sum (map (fun e => u_prompt e + u_completion e) log).

(** [agg_tokens]. *)
Definition agg_tokens (log : list usage) (estimated_tokens : Z) : Z :=
  tokens_used log + estimated_tokens + _get_average_completion_tokens log.

(** [token_wait] of the branch [agg_tokens > tpm]. *)
Definition token_wait (now : Q) (log : list usage) : Q :=
  match log with
  | e :: _ => (60 - (now - u_time e))%Q
  | [] => 1%Q
  end.

Definition rpm_at_risk (lim : model_limits) (ts : list Q) : bool :=
  max_requests_per_min lim <=? Z.of_nat (List.length ts).

Definition tpm_at_risk (lim : model_limits) (log : list usage)
    (estimated_tokens : Z) : bool :=
  max_tokens_per_min lim <? agg_tokens log estimated_tokens.

(** [wait_time] as the critical section leaves it, on the pruned lists. *)
Definition wait_time_of (lim : model_limits) (now : Q) (st : model_state)
    (estimated_tokens : Z) : Q :=
  let wait_time := 0%Q in
  let wait_time :=
    if rpm_at_risk lim (request_timestamps st)
    then Py.max wait_time (request_wait now (request_timestamps st))
    else wait_time in
  let wait_time :=
    if tpm_at_risk lim (token_usage_log st) estimated_tokens
    then Py.max wait_time (token_wait now (token_usage_log st))
    else wait_time in
  wait_time.

(** One wait decision: prune both lists, then compute [wait_time]. *)
Definition wait_decision (lim : model_limits) (now : Q) (st : model_state)
    (estimated_tokens : Z) : Q * model_state :=
  let st' := prune now st in
  (wait_time_of lim now st' estimated_tokens, st').

End Quota.

(* ===================================================================== *)
(** ** What one worker thread does, as a trace *)
(* ===================================================================== *)

Module Trace.
Import Quota.

(** The three [threading.Lock] objects of a model instance. *)
Inductive lock : Type := rate_limit_lock | token_lock | tqdm_lock.

(** The three places of the code that call [self.stop_flag.wait]. *)
Inductive wait_site : Type :=
| quota_wait       (* model.py, after the critical section *)
| proceed_jitter   (* model.py, branch [wait_time == 0] *)
| backoff_sleep.   (* openai_client.py, handler of RateLimitError *)

(** The progress-bar descriptions the code sets. *)
Inductive status : Type :=
| Running (request_id : Z)
| Waiting (jittered_wait : Q)
| Retry (retry_count request_id : Z)
| Error (request_id : Z)
| Failed (request_id : Z).

Inductive event : Type :=
| Acquire (l : lock)
| Release (l : lock)
| SemAcquire
| SemRelease
| StopFlagWait (site : wait_site) (timeout : Q)
| SetPostfix (tokens_used : Z)
| SetDescription (s : status)
| RemoteCall
| AppendUsage (e : usage)
| InsertOne (uuid : string)
| LogWrite (message : string).

(** [_update_tqdm_postfix] and [_update_tqdm_description]; [pbar] tells
    whether a progress bar was passed. *)
Definition _update_tqdm_postfix (pbar : bool) (tokens : Z) : list event :=
  if pbar then [Acquire tqdm_lock; SetPostfix tokens; Release tqdm_lock] else [].

Definition _update_tqdm_description (pbar : bool) (s : status) : list event :=
  if pbar then [Acquire tqdm_lock; SetDescription s; Release tqdm_lock] else [].

(** What the environment supplies to one iteration of the [while True] loop
    of [_enforce_rate_limits]. *)
Record tick : Type := {
  others : model_state -> model_state; (* other threads' writes so far *)
  now : Q;                              (* [time.time()] inside the lock *)
  now' : Q;                             (* [time.time()] of the proceed branch *)
  sample : Q                            (* sample behind [random.uniform] *)
}.

Definition record_request (t : Q) (st : model_state) : model_state :=
  {| request_timestamps := request_timestamps st ++ [t];
     token_usage_log := token_usage_log st |}.

(** [_enforce_rate_limits].  The loop runs one iteration per supplied tick;
    the boolean tells whether it reached [break]. *)
Fixpoint _enforce_rate_limits (lim : model_limits) (estimated_tokens : Z)
    (pbar : bool) (ticks : list tick) (st : model_state)
    : list event * model_state * bool :=
  match ticks with
  | [] => ([], st, false)
  | k :: ticks' =>
      let (wait_time, st1) :=
        wait_decision lim (now k) (others k st) estimated_tokens in
      let critical :=
        [Acquire rate_limit_lock; Acquire token_lock]
        ++ _update_tqdm_postfix pbar (tokens_used (token_usage_log st1)) in
      if Qeq_bool wait_time 0 then
        let jitter := (DEFAULT_JITTER + Py.uniform 0 (5 # 100) (sample k))%Q in
        (critical
         ++ [StopFlagWait proceed_jitter jitter;
             Release token_lock; Release rate_limit_lock],
         record_request (now' k) st1, true)
      else
        let jittered_wait :=
          (wait_time + Py.uniform (5 # 100) (25 # 100) (sample k))%Q in
        let '(rest, st', finished) :=
          _enforce_rate_limits lim estimated_tokens pbar ticks' st1 in
        (critical
         ++ [Release token_lock; Release rate_limit_lock]
         ++ _update_tqdm_description pbar (Waiting jittered_wait)
         ++ [StopFlagWait quota_wait jittered_wait]
         ++ rest,
         st', finished)
  end.

(** Exceptions: whether [isinstance(e, RateLimitError)], the class name and
    [str(e)].  Every exception of the model is an instance of [Exception]. *)
Record exn : Type := {
  is_rate_limit : bool;
  e_name : string;
  e_str : string
}.

(** How a [try] block ended; [tb_str] is the text [traceback.format_exc()]
    gives for the exception. *)
Inductive try_result : Type :=
| Completed
| Raised (e : exn) (tb_str : string)
| Unfinished.

Record try_run : Type := {
  tr_events : list event;
  tr_result : try_result
}.

(** A chat message: a list of [{'role': ..., 'content': ...}] dicts. *)
Definition message : Type := list (string * string).

Record response : Type := {
  prompt_tokens : Z;
  completion_tokens : Z;
  content : string
}.

(** What the environment supplies to one [try] block. *)
Record attempt_env : Type := {
  ticks : list tick;                   (* for the quota loop *)
  api : response + exn * string;       (* [client.chat.completions.create] *)
  usage_time : Q;                      (* [time.time()] in [_process_response] *)
  store_fault : option (exn * string); (* [json.loads] / [insert_one] raising *)
  local_tb : string                    (* traceback text of an indexing error *)
}.

Definition IndexError : exn :=
  {| is_rate_limit := false; e_name := "IndexError";
     e_str := "list index out of range" |}.

Definition nl : string := String (ascii_of_nat 10) EmptyString.

(** The body of the [try] of [_call_with_backoff]. *)
Definition try_block (lim : model_limits) (_estimate_tokens : string -> Z)
    (pbar : bool) (request_id : Z) (uuid : string) (msg : message)
    (env : attempt_env) (st : model_state) : try_run * model_state :=
  match nth_error msg 0, nth_error msg 1 with
  | Some (_, system_prompt), Some (_, user_prompt) =>
      let prompt := (system_prompt ++ nl ++ user_prompt)%string in
      let estimated_tokens := _estimate_tokens prompt in
      let ev1 := _update_tqdm_description pbar (Running request_id) in
      let '(ev2, st1, finished) :=
        _enforce_rate_limits lim estimated_tokens pbar (ticks env) st in
      if finished then
        match api env with
        | inr (e, tb) =>
            ({| tr_events := ev1 ++ ev2 ++ [RemoteCall];
                tr_result := Raised e tb |}, st1)
        | inl r =>
            let u := (usage_time env, prompt_tokens r, completion_tokens r) in
            let st2 := {| request_timestamps := request_timestamps st1;
                          token_usage_log := token_usage_log st1 ++ [u] |} in
            match store_fault env with
            | Some (e, tb) =>
                ({| tr_events := ev1 ++ ev2 ++ [RemoteCall; AppendUsage u];
                    tr_result := Raised e tb |}, st2)
            | None =>
                ({| tr_events :=
                      ev1 ++ ev2 ++ [RemoteCall; AppendUsage u; InsertOne uuid];
                    tr_result := Completed |}, st2)
            end
        end
      else ({| tr_events := ev1 ++ ev2; tr_result := Unfinished |}, st1)
  | _, _ =>
      ({| tr_events := []; tr_result := Raised IndexError (local_tb env) |}, st)
  end.

End Trace.

(* ===================================================================== *)
(** ** RetryPolicy: [_call_with_backoff] in models/openai_client.py *)
(* ===================================================================== *)

Module Worker.
Import Quota Trace.

(** The steps of one call of [_call_with_backoff], in order.  [Try r evs]
    is a run of the [try] block entered with [retry_count = r]. *)
Inductive step : Type :=
| SemEnter
| SemExit
| Try (retry_count : Z) (events : list event)
| Describe (s : status)
| Backoff (sleep_time : Q)
| Log (message : string).

(** How the call ends. *)
Inductive exit : Type :=
| ReturnSuccess            (* [return] after [_process_response] *)
| ReturnError              (* [return] of the [except Exception] handler *)
| ReturnExhausted          (* [return] after the exceeded-retries log write *)
| ReturnNone               (* the loop ended with [retry_count <= max_retries] *)
| Propagate (e : exn)      (* an exception leaves the function *)
| Hang                     (* a [try] block that never finished *)
| OutOfFuel.

(** The local variables that outlive one loop iteration. *)
Record locals : Type := {
  retry_count : Z;
  e_rate_limit : option exn
}.

(** What the environment supplies to one call. *)
Record worker_env : Type := {
  is_set : Z -> bool;        (* [stop_flag.is_set()] at the guard, by [retry_count] *)
  attempt : Z -> try_run;    (* the [try] block entered with [retry_count] *)
  jitter_sample : Z -> Q     (* sample behind [random.uniform(0, DEFAULT_JITTER)] *)
}.

Definition error_message (uuid : string) (e : exn) (tb_str : string) : string :=
  ("[ERROR] prompt #" ++ uuid ++ " error: " ++ e_name e ++ " - " ++ e_str e
   ++ nl ++ "Traceback:" ++ nl ++ tb_str)%string.

Definition failed_message (uuid : string) (e : exn) : string :=
  ("[FAILED] prompt #" ++ uuid ++ " exceeded retries - " ++ e_str e)%string.

Definition UnboundLocalError : exn :=
  {| is_rate_limit := false; e_name := "UnboundLocalError";
     e_str := ("cannot access local variable 'e_rate_limit' "
               ++ "where it is not associated with a value")%string |}.

(** [sleep_time] of the RateLimitError handler, from the incremented count. *)
Definition sleep_time_of (retry_count : Z) (u : Q) : Q :=
  (inject_Z (2 ^ retry_count) + Py.uniform 0 DEFAULT_JITTER u)%Q.

(** The [try] block entered with [retry_count = r] ends in a
    RateLimitError. *)
Definition throttled_at (env : worker_env) (r : Z) : Prop :=
  exists e tb_str,
    tr_result (attempt env r) = Raised e tb_str /\ is_rate_limit e = true.

Inductive loop_end : Type :=
| LoopExit (loc : locals)   (* the [while] condition is false *)
| LoopReturn (x : exit).    (* a [return] inside the loop, or no progress *)

(** The [while] loop.  [except RateLimitError as e_rate_limit] binds the
    name on entry of the handler and deletes it when the handler ends. *)
Fixpoint backoff_loop (fuel : nat) (env : worker_env) (request_id : Z)
    (uuid : string) (max_retries : Z) (loc : locals) : list step * loop_end :=
  if negb (is_set env (retry_count loc)) && (retry_count loc <=? max_retries)
  then
    match fuel with
    | O => ([], LoopReturn OutOfFuel)
    | S fuel' =>
        let run := attempt env (retry_count loc) in
        let entered := [SemEnter; Try (retry_count loc) (tr_events run)] in
        match tr_result run with
        | Completed => (entered ++ [SemExit], LoopReturn ReturnSuccess)
        | Unfinished => (entered, LoopReturn Hang)
        | Raised e tb_str =>
            if is_rate_limit e then
              let loc := {| retry_count := retry_count loc;
                            e_rate_limit := Some e |} in
              let d := Describe (Retry (retry_count loc) request_id) in
              let loc := {| retry_count := retry_count loc + 1;
                            e_rate_limit := e_rate_limit loc |} in
              let sleep_time :=
                sleep_time_of (retry_count loc)
                  (jitter_sample env (retry_count loc)) in
              let loc := {| retry_count := retry_count loc;
                            e_rate_limit := None |} in
              let (rest, r) :=
                backoff_loop fuel' env request_id uuid max_retries loc in
              (entered ++ [d; Backoff sleep_time; SemExit] ++ rest, r)
            else
              (entered ++ [Describe (Error request_id);
                           Log (error_message uuid e tb_str); SemExit],
               LoopReturn ReturnError)
        end
    end
  else ([], LoopExit loc).

(** The code after the loop. *)
Definition after_loop (request_id : Z) (uuid : string) (max_retries : Z)
    (loc : locals) : list step * exit :=
  if max_retries <? retry_count loc then
    match e_rate_limit loc with
    | Some e =>
        ([Describe (Failed request_id); Log (failed_message uuid e)],
         ReturnExhausted)
    | None => ([Describe (Failed request_id)], Propagate UnboundLocalError)
    end
  else ([], ReturnNone).

(** [_call_with_backoff]. *)
Definition _call_with_backoff (env : worker_env) (request_id : Z)
    (uuid : string) (max_retries : Z) : list step * exit :=
  let loc := {| retry_count := 0; e_rate_limit := None |} in
  match backoff_loop (Z.to_nat (max_retries + 1)) env request_id uuid
          max_retries loc with
  | (steps, LoopReturn x) => (steps, x)
  | (steps, LoopExit loc') =>
      let (tail, x) := after_loop request_id uuid max_retries loc' in
      (steps ++ tail, x)
  end.

(** The events of a call: each step expanded to what the thread does. *)
Definition events_of_step (pbar : bool) (s : step) : list event :=
  match s with
  | SemEnter => [SemAcquire]
  | SemExit => [SemRelease]
  | Try _ evs => evs
  | Describe d => _update_tqdm_description pbar d
  | Backoff t => [StopFlagWait backoff_sleep t]
  | Log m => [LogWrite m]
  end.

Definition events_of (pbar : bool) (steps : list step) : list event :=
  flat_map (events_of_step pbar) steps.

(** Projections of a run used by the statements. *)
Definition attempts (steps : list step) : list Z :=
  flat_map (fun s => match s with Try r _ => [r] | _ => [] end) steps.

Definition bodies (steps : list step) : list (list event) :=
  flat_map (fun s => match s with Try _ evs => [evs] | _ => [] end) steps.

Definition backoffs (steps : list step) : list Q :=
  flat_map (fun s => match s with Backoff t => [t] | _ => [] end) steps.

Definition logged (steps : list step) : list string :=
  flat_map (fun s => match s with Log m => [m] | _ => [] end) steps.

End Worker.

(* ===================================================================== *)
(** ** Dispatcher: [run_parallel_prompt_tasks] in models/openai_client.py *)
(* ===================================================================== *)

Module Dispatcher.
Import Trace.

(** [max_workers] of the [ThreadPoolExecutor]. *)
Definition max_workers : nat := 30.

(** [enumerate(xs)]. *)
Definition enumerate {A} (xs : list A) : list (nat * A) :=
  combine (seq 0 (List.length xs)) xs.

(** [zip(uuids, messages)]. *)
Definition zip {A B} (xs : list A) (ys : list B) : list (A * B) := combine xs ys.

(** One submitted call of [_call_with_backoff]: [(i, (uuid, message))]. *)
Definition task : Type := nat * (string * message).

(** The futures the dict comprehension submits, in submission order. *)
Definition submit_all (uuids : list string) (messages : list message)
    : list task :=
  enumerate (zip uuids messages).

(** [future.result()]: the exception the call ended with, if any. *)
Definition result (x : Worker.exit) : option exn :=
  match x with
  | Worker.Propagate e => Some e
  | _ => None
  end.

(** [try: future.result() except Exception as e: pass]: the exception that
    gets past the handler.  Every exception of the model is an
    [Exception], so the handler catches whatever [result] raises. *)
Definition collect (x : Worker.exit) : option exn :=
  match result x with
  | Some _ => None
  | None => None
  end.

(** The [while futures] loop over the finished futures, in completion
    order: the exception that aborts it if any, and the calls of
    [pbar.update(1)] made. *)
Fixpoint drain (finished : list Worker.exit) (updates : nat)
    : option exn * nat :=
  match finished with
  | [] => (None, updates)
  | x :: rest =>
      match collect x with
      | Some e => (Some e, updates)
      | None => drain rest (S updates)
      end
  end.

Record dispatch : Type := {
  total_tasks : nat;           (* [total] of the progress bar *)
  submitted : list task;       (* the futures *)
}.

Definition run_parallel_prompt_tasks (uuids : list string)
    (messages : list message) : dispatch :=
  {| total_tasks := List.length messages;
     submitted := submit_all uuids messages |}.

End Dispatcher.

(* ===================================================================== *)
(** ** The semaphore and the thread pool, as a transition system *)
(* ===================================================================== *)

Module Pool.

(** Where a submitted call of [_call_with_backoff] is. *)
Inductive phase : Type :=
| Queued        (* submitted, no pool thread yet *)
| AtGuard       (* on a pool thread, at the [while] condition *)
| WaitingSlot   (* past the guard, blocked in [with self.semaphore] *)
| InAttempt     (* inside [with self.semaphore] *)
| Finished.

Definition phase_eqb (a b : phase) : bool :=
  match a, b with
  | Queued, Queued | AtGuard, AtGuard | WaitingSlot, WaitingSlot
  | InAttempt, InAttempt | Finished, Finished => true
  | _, _ => false
  end.

Record pool : Type := {
  permits : nat;        (* value of the semaphore *)
  stop_flag : bool;     (* the [threading.Event] *)
  phases : list phase;  (* one entry per submitted call *)
  entered : nat         (* loop iterations entered so far *)
}.

Definition count (p : phase) (l : list phase) : nat :=
  List.length (filter (phase_eqb p) l).

(** Calls that occupy a pool thread. *)
Definition on_thread (l : list phase) : nat :=
  count AtGuard l + count WaitingSlot l + count InAttempt l.

Fixpoint set_nth {A} (i : nat) (x : A) (l : list A) : list A :=
  match l, i with
  | [], _ => []
  | _ :: t, O => x :: t
  | h :: t, S j => h :: set_nth j x t
  end.

Inductive action : Type :=
| Start (i : nat)        (* a free pool thread takes call [i] *)
| PassGuard (i : nat)    (* the [while] condition holds *)
| LeaveLoop (i : nat)    (* the [while] condition fails; the call ends *)
| AcquireSlot (i : nat)  (* [semaphore.acquire()] succeeds *)
| ReleaseSlot (i : nat)  (* the [with] block ends, back to the guard *)
| ReturnInside (i : nat) (* [return] inside the [with] block *)
| SetFlag.               (* [_signal_handler] *)

Definition move (s : pool) (i : nat) (from to : phase) (ok : bool)
    (permits' entered' : nat) : option pool :=
  match nth_error (phases s) i with
  | Some p =>
      if phase_eqb p from && ok then
        Some {| permits := permits'; stop_flag := stop_flag s;
                phases := set_nth i to (phases s); entered := entered' |}
      else None
  | None => None
  end.

(** One atomic step; [None] when the action is not enabled. *)
Definition step (capacity : nat) (s : pool) (a : action) : option pool :=
  match a with
  | Start i =>
      move s i Queued AtGuard (on_thread (phases s) <? capacity)%nat
        (permits s) (entered s)
  | PassGuard i =>
      move s i AtGuard WaitingSlot (negb (stop_flag s))
        (permits s) (S (entered s))
  | LeaveLoop i => move s i AtGuard Finished true (permits s) (entered s)
  | AcquireSlot i =>
      move s i WaitingSlot InAttempt (0 <? permits s)%nat
        (pred (permits s)) (entered s)
  | ReleaseSlot i =>
      move s i InAttempt AtGuard true (S (permits s)) (entered s)
  | ReturnInside i =>
      move s i InAttempt Finished true (S (permits s)) (entered s)
  | SetFlag =>
      Some {| permits := permits s; stop_flag := true;
              phases := phases s; entered := entered s |}
  end.

Fixpoint run (capacity : nat) (s : pool) (acts : list action) : option pool :=
  match acts with
  | [] => Some s
  | a :: rest =>
      match step capacity s a with
      | Some s' => run capacity s' rest
      | None => None
      end
  end.

(** The state [__init__] and the submission leave: the semaphore at
    [MAX_CONCURRENT_REQUESTS], the flag clear, [n] calls queued. *)
Definition init (n : nat) : pool :=
  {| permits := Quota.MAX_CONCURRENT_REQUESTS; stop_flag := false;
     phases := repeat Queued n; entered := 0 |}.

Definition reachable (n : nat) (s : pool) : Prop :=
  exists acts, run Dispatcher.max_workers (init n) acts = Some s.

End Pool.

(* ===================================================================== *)
(** ** Source filter: narrative_blueprint/blueprint.py *)
(* ===================================================================== *)

Module Blueprint.
Import Trace.

(** A row of the narratives data frame (columns [uuid] and [narrative]). *)
Record row : Type := {
  uuid : string;
  narrative : string
}.

(** [Series.isin(values)] on one cell. *)
Definition isin (x : string) (values : list string) : bool :=
  existsb (String.eqb x) values.

(** [_compose_blueprint_messages], given the system prompt, the message
    template and the uuids [get_collected_uuids] returned. *)
Definition _compose_blueprint_messages (system_prompt : string)
    (_load_message_prompt : string -> string) (uuids : list string)
    (narratives : list row) : list string * list message :=
  let narratives :=
    filter (fun r => negb (isin (uuid r) uuids)) narratives in
  let messages_list :=
    map (fun r => [("system", system_prompt);
                   ("user", _load_message_prompt (narrative r))]%string)
        narratives in
  (map uuid narratives, messages_list).

(** The lists [run_blueprint_analysis] passes on; [sample_size] is the
    command-line option, [None] by default. *)
Definition run_blueprint_analysis (system_prompt : string)
    (_load_message_prompt : string -> string) (collected : list string)
    (narratives : list row) (sample_size : option Z)
    : list string * list message :=
  let (uuids, messages_list) :=
    _compose_blueprint_messages system_prompt _load_message_prompt
      collected narratives in
  match sample_size with
  | Some k =>
      if k =? 0 then (uuids, messages_list)
      else (Py.slice_to uuids k, Py.slice_to messages_list k)
  | None => (uuids, messages_list)
  end.

End Blueprint.

(* ===================================================================== *)
(** ** The quota wait as the specification words it *)
(* ===================================================================== *)

Module Claimed.
Import Quota.

(** The buffer in the specification's words: the mean of the completion
    tokens observed so far, or the fixed default before any usage data
    exists. *)
Definition claimed_buffer (observed : list usage) : Q :=
  match observed with
  | [] => inject_Z AVERAGE_TOKEN_USAGE
  | _ :: _ =>
      (inject_Z (Py.sum (map u_completion observed))
       / inject_Z (Z.of_nat (List.length observed)))%Q
  end.

(** The aggregate in the specification's words: the tokens in the window,
    the estimate and the buffer. *)
Definition claimed_agg_tokens (window observed : list usage)
    (estimated_tokens : Z) : Q :=
  (inject_Z (tokens_used window + estimated_tokens)
   + claimed_buffer observed)%Q.

(** The enforced wait in the specification's words; the usage events
    observed so far are those of the log the decision starts from. *)
Definition claimed_wait (lim : model_limits) (now : Q) (st : model_state)
    (estimated_tokens : Z) : Q :=
  let st' := prune now st in
  let request_part :=
    if rpm_at_risk lim (request_timestamps st')
    then request_wait now (request_timestamps st') else 0%Q in
  let token_part :=
    if Py.Qltb (inject_Z (max_tokens_per_min lim))
         (claimed_agg_tokens (token_usage_log st') (token_usage_log st)
            estimated_tokens)
    then token_wait now (token_usage_log st') else 0%Q in
  Qmax request_part token_part.

End Claimed.

(* ===================================================================== *)
(** ** Locks held along a trace *)
(* ===================================================================== *)

Module Locks.
Import Trace.

Definition lock_eqb (a b : lock) : bool :=
  match a, b with
  | rate_limit_lock, rate_limit_lock | token_lock, token_lock
  | tqdm_lock, tqdm_lock => true
  | _, _ => false
  end.

Fixpoint release (l : lock) (held : list lock) : list lock :=
  match held with
  | [] => []
  | h :: t => if lock_eqb l h then t else h :: release l t
  end.

(** The locks the thread holds after an event, most recent first. *)
Definition held_after (held : list lock) (e : event) : list lock :=
  match e with
  | Acquire l => l :: held
  | Release l => release l held
  | _ => held
  end.

Definition no_lock (held : list lock) : bool :=
  match held with [] => true | _ :: _ => false end.

(** A policy tells which events may happen under which held locks. *)
Definition policy : Type := list lock -> event -> bool.

(** No lock is held across a wait or a network call. *)
Definition lock_free : policy := fun held e =>
  match e with
  | StopFlagWait _ _ | RemoteCall => no_lock held
  | _ => true
  end.

(** As [lock_free], except for the proceed jitter, which is waited for
    inside [with self.rate_limit_lock, self.token_lock]. *)
Definition jitter_inside : policy := fun held e =>
  match e with
  | StopFlagWait proceed_jitter _ =>
      match held with
      | [token_lock; rate_limit_lock] => true
      | _ => false
      end
  | StopFlagWait _ _ | RemoteCall => no_lock held
  | _ => true
  end.

(** Runs a trace under a policy: the locks held at the end, or [None] as
    soon as an event is not allowed. *)
Fixpoint check (ok : policy) (held : list lock) (tr : list event)
    : option (list lock) :=
  match tr with
  | [] => Some held
  | e :: rest =>
      if ok held e then check ok (held_after held e) rest else None
  end.

End Locks.

(* ===================================================================== *)
(** ** [threading.Event.wait] against a clock *)
(* ===================================================================== *)

Module StopFlag.

(** When [stop_flag.wait(timeout)], entered at time [start], returns, for a
    flag set at time [set_at] ([None]: never set): at once if the flag is
    already set, else when it is set or when the timeout expires, whichever
    comes first. *)
Definition wait_returns (set_at : option Q) (start timeout : Q) : Q :=
  let deadline := (start + Qmax 0 timeout)%Q in
  match set_at with
  | Some c => Qmax start (Qmin c deadline)
  | None => deadline
  end.

Definition elapsed (set_at : option Q) (start timeout : Q) : Q :=
  (wait_returns set_at start timeout - start)%Q.

End StopFlag.

(* ===================================================================== *)
(** ** A worker thread on the concrete [try] block *)
(* ===================================================================== *)

Module Thread.
Import Quota Trace Worker.

(** The environment of one call of [_call_with_backoff] whose [try] blocks
    are runs of [try_block]: [aenv r] and [seen r] are the environment and
    the shared lists the block finds when entered with [retry_count = r]. *)
Definition thread_env (lim : model_limits) (_estimate_tokens : string -> Z)
    (pbar : bool) (request_id : Z) (uuid : string) (msg : message)
    (flag : Z -> bool) (aenv : Z -> attempt_env) (seen : Z -> model_state)
    (jitter : Z -> Q) : worker_env :=
  {| is_set := flag;
     attempt := fun r =>
       fst (try_block lim _estimate_tokens pbar request_id uuid msg
              (aenv r) (seen r));
     jitter_sample := jitter |}.

(** The waits of a trace: site and timeout. *)
Definition waits (tr : list event) : list (wait_site * Q) :=
  flat_map (fun e => match e with
                     | StopFlagWait site d => [(site, d)]
                     | _ => []
                     end) tr.

Definition stored (tr : list event) : list string :=
  flat_map (fun e => match e with InsertOne u => [u] | _ => [] end) tr.

(** [sub] occurs in [s]. *)
Definition contains (s sub : string) : Prop :=
  exists pre post, s = (pre ++ sub ++ post)%string.

End Thread.

(* ===================================================================== *)
(** ** Concrete inputs *)
(* ===================================================================== *)

Module Inputs.
Import Quota Trace Worker.

(** Two usage events with completion tokens 1 and 2. *)
Definition two_events : model_state :=
  {| request_timestamps := [];
     token_usage_log := [(0%Q, 0, 1); (0%Q, 0, 2)] |}.

Definition tight_limits : model_limits :=
  {| max_requests_per_min := 100; max_tokens_per_min := 4 |}.

(** One usage event recorded at time 0, with 50 completion tokens. *)
Definition one_old_event : model_state :=
  {| request_timestamps := [];
     token_usage_log := [(0%Q, 10, 50)] |}.

Definition thousand_limits : model_limits :=
  {| max_requests_per_min := 100; max_tokens_per_min := 1000 |}.

(** RPM = 2 and two requests recorded at times 0 and 10. *)
Definition two_per_minute : model_limits :=
  {| max_requests_per_min := 2; max_tokens_per_min := 100000 |}.

Definition two_requests : model_state :=
  {| request_timestamps := [0; 10]%Q; token_usage_log := [] |}.

(** One call, past the guard before the flag is set. *)
Definition flag_then_acquire : list Pool.action :=
  [Pool.Start 0; Pool.PassGuard 0; Pool.SetFlag; Pool.AcquireSlot 0].

Definition wide_limits : model_limits :=
  {| max_requests_per_min := 500; max_tokens_per_min := 200000 |}.

Definition empty_state : model_state :=
  {| request_timestamps := []; token_usage_log := [] |}.

(** A limit of 4 tokens per minute and two iterations of the quota loop. *)
Definition two_quiet_ticks : list tick :=
  [ {| others := fun st => st; now := 0; now' := 0; sample := 1 # 2 |};
    {| others := fun st => st; now := 2; now' := 2; sample := 1 # 2 |} ].

Definition quiet_tick : tick :=
  {| others := fun st => st; now := 0; now' := 0; sample := 1 # 2 |}.

Definition throttled : exn :=
  {| is_rate_limit := true; e_name := "RateLimitError";
     e_str := "Error code: 429" |}.

Definition bad_request : exn :=
  {| is_rate_limit := false; e_name := "BadRequestError";
     e_str := "Error code: 400" |}.

Definition chat : message :=
  [("system", "Extract the blueprint."); ("user", "A narrative.")]%string.

(** The remote call raises [e]. *)
Definition failing_with (e : exn) : attempt_env :=
  {| ticks := [quiet_tick]; api := inr (e, "Traceback (most recent call last)"%string);
     usage_time := 1; store_fault := None; local_tb := EmptyString |}.

(** A call whose remote call is always throttled, never cancelled. *)
Definition always_throttled : worker_env :=
  Thread.thread_env wide_limits (fun p => Z.of_nat (String.length p)) true 7
    "u-7" chat (fun _ => false) (fun _ => failing_with throttled)
    (fun _ => empty_state) (fun _ => 1 # 2).

(** A call whose first remote call fails with a non-throttling error. *)
Definition always_rejected : worker_env :=
  Thread.thread_env wide_limits (fun p => Z.of_nat (String.length p)) true 7
    "u-7" chat (fun _ => false) (fun _ => failing_with bad_request)
    (fun _ => empty_state) (fun _ => 1 # 2).

(** Eleven submitted calls: all started and past the guard, ten of them
    inside the semaphore. *)
Definition eleven_ready : list Pool.action :=
  map Pool.Start (seq 0 11) ++ map Pool.PassGuard (seq 0 11)
  ++ map Pool.AcquireSlot (seq 0 10).

Definition three_rows : list Blueprint.row :=
  [ {| Blueprint.uuid := "a"; Blueprint.narrative := "first" |};
    {| Blueprint.uuid := "b"; Blueprint.narrative := "second" |};
    {| Blueprint.uuid := "c"; Blueprint.narrative := "third" |} ]%string.

End Inputs.

(* ===================================================================== *)
(** ** The semaphore slot along a trace, and sums of waits *)
(* ===================================================================== *)

Module Slots.
Import Trace.

(** Whether the thread holds a slot of the semaphore after a trace,
    starting from [held]; [None] when the trace acquires a second slot,
    releases a slot it does not hold, or makes the network call or a
    backoff wait without holding one. *)
Fixpoint check (held : bool) (tr : list event) : option bool :=
  match tr with
  | [] => Some held
  | SemAcquire :: rest => if held then None else check true rest
  | SemRelease :: rest => if held then check false rest else None
  | RemoteCall :: rest => if held then check held rest else None
  | StopFlagWait backoff_sleep _ :: rest =>
      if held then check held rest else None
  | _ :: rest => check held rest
  end.

(** [sum] of a list of floats. *)
Definition qsum (l : list Q) : Q := fold_right Qplus 0%Q l.

End Slots.

(* ===================================================================== *)
(** ** What a call leaves behind *)
(* ===================================================================== *)

Module Outcome.
Import Trace Worker Thread.

(** What a call has stored and logged, by the way it ends: a result under
    the task's uuid for a successful return, one error entry for a return
    from the [except Exception] handler, nothing otherwise. *)
Definition outcome_of (pbar : bool) (uuid : string) (x : exit)
    (steps : list step) : Prop :=
  match x with
  | ReturnSuccess =>
      stored (events_of pbar steps) = [uuid] /\ logged steps = []
  | ReturnError =>
      stored (events_of pbar steps) = [] /\
      exists e tb_str,
        is_rate_limit e = false /\ logged steps = [error_message uuid e tb_str]
  | _ => stored (events_of pbar steps) = [] /\ logged steps = []
  end.

End Outcome.

(* ===================================================================== *)
(** ** The result store: databases/mongo.py and [_process_response] *)
(* ===================================================================== *)

Module Store.
Import Quota Trace.

(** Values of a parsed JSON text and of a stored document. *)
#[warnings="-register-all"] Inductive json : Type :=
| JNull
| JBool (b : bool)
| JInt (n : Z)
| JFloat (q : Q)
| JStr (s : string)
| JList (items : list json)
| JObject (fields : list (string * json))
| JObjectId (n : nat).   (* an [_id] generated on insertion *)

(** A Python dict with string keys, in insertion order, each key once. *)
Definition dict : Type := list (string * json).

(** [d.get(k)]; [d[k]] raises KeyError where this is [None]. *)
Fixpoint dict_get (k : string) (d : dict) : option json :=
  match d with
  | [] => None
  | (k', v) :: rest => if String.eqb k k' then Some v else dict_get k rest
  end.

(** [d[k] = v]. *)
Fixpoint dict_set (k : string) (v : json) (d : dict) : dict :=
  match d with
  | [] => [(k, v)]
  | (k', v') :: rest =>
      if String.eqb k k' then (k, v) :: rest
      else (k', v') :: dict_set k v rest
  end.

(** [del d[k]] when the key is there. *)
Fixpoint dict_remove (k : string) (d : dict) : dict :=
  match d with
  | [] => []
  | (k', v') :: rest =>
      if String.eqb k k' then rest else (k', v') :: dict_remove k rest
  end.

(** A collection: its documents in insertion order, and the number of
    [_id]s generated so far. *)
Record collection : Type := {
  docs : list dict;
  generated : nat
}.

(** A server: database name to collection name to collection.  A database
    or a collection exists once a document was inserted into it. *)
Definition database : Type := list (string * collection).
Definition server : Type := list (string * database).

Fixpoint lookup {V} (k : string) (m : list (string * V)) : option V :=
  match m with
  | [] => None
  | (k', v) :: rest => if String.eqb k k' then Some v else lookup k rest
  end.

Fixpoint store {V} (k : string) (v : V) (m : list (string * V))
    : list (string * V) :=
  match m with
  | [] => [(k, v)]
  | (k', v') :: rest =>
      if String.eqb k k' then (k, v) :: rest else (k', v') :: store k v rest
  end.

(** [client[db_name]]: a database that does not exist yet is empty. *)
Definition database_of (srv : server) (db_name : string) : database :=
  match lookup db_name srv with Some db => db | None => [] end.

(** [get_collection]: [client[db_name][collection_name]]. *)
Definition get_collection (srv : server) (db_name collection_name : string)
    : collection :=
  match lookup collection_name (database_of srv db_name) with
  | Some c => c
  | None => {| docs := []; generated := 0 |}
  end.

Definition put_collection (srv : server) (db_name collection_name : string)
    (c : collection) : server :=
  store db_name (store collection_name c (database_of srv db_name)) srv.

(** [test_access_to_db_and_collection]:
    [collection_name in db.list_collection_names()]. *)
Definition test_access_to_db_and_collection (srv : server)
    (db_name collection_name : string) : bool :=
  existsb (fun kv => String.eqb collection_name (fst kv))
    (database_of srv db_name).

Definition KeyError (key : string) : exn :=
  {| is_rate_limit := false; e_name := "KeyError";
     e_str := ("'" ++ key ++ "'")%string |}.

(** [collection.find({}, {'uuid': 1, '_id': 0})] on one document. *)
Definition project_uuid (d : dict) : dict :=
  match dict_get "uuid" d with
  | Some v => [("uuid"%string, v)]
  | None => []
  end.

(** The list comprehension [[doc['uuid'] for doc in cursor]]. *)
Fixpoint uuid_fields (cursor : list dict) : exn + list json :=
  match cursor with
  | [] => inr []
  | doc :: rest =>
      match dict_get "uuid" doc with
      | None => inl (KeyError "uuid")
      | Some v =>
          match uuid_fields rest with
          | inl e => inl e
          | inr vs => inr (v :: vs)
          end
      end
  end.

(** [get_collected_uuids]. *)
Definition get_collected_uuids (srv : server) (db_name collection_name : string)
    : exn + list json :=
  uuid_fields (map project_uuid (docs (get_collection srv db_name collection_name))).

(** [get_documents]: [[doc for doc in collection.find({})]]. *)
Definition get_documents (srv : server) (db_name collection_name : string)
    : list dict :=
  docs (get_collection srv db_name collection_name).

Definition DuplicateKeyError : exn :=
  {| is_rate_limit := false; e_name := "DuplicateKeyError";
     e_str := "E11000 duplicate key error" |}.

(** [collection.insert_one(doc)]: a document without [_id] gets a
    generated one; a document with an [_id] some stored document already
    has (as the server compares, [same_id]) is refused.  A stored document
    has its [_id] as first field. *)
Definition insert_one (same_id : json -> json -> bool) (doc : dict)
    (c : collection) : exn + collection :=
  match dict_get "_id" doc with
  | None =>
      inr {| docs := docs c ++ [("_id"%string, JObjectId (generated c)) :: doc];
             generated := S (generated c) |}
  | Some id =>
      if existsb (fun d => match dict_get "_id" d with
                           | Some id' => same_id id id'
                           | None => false
                           end) (docs c)
      then inl DuplicateKeyError
      else inr {| docs := docs c ++ [("_id"%string, id) :: dict_remove "_id" doc];
                  generated := generated c |}
  end.

(** [upload_test_case]: [collection.insert_one(test_case)]. *)
Definition upload_test_case (same_id : json -> json -> bool)
    (test_case : dict) (srv : server) (db_name collection_name : string)
    : exn + server :=
  match insert_one same_id test_case
          (get_collection srv db_name collection_name) with
  | inl e => inl e
  | inr c => inr (put_collection srv db_name collection_name c)
  end.

Definition TypeError (msg : string) : exn :=
  {| is_rate_limit := false; e_name := "TypeError"; e_str := msg |}.

(** [response_content['uuid'] = uuid] on what [json.loads] returned. *)
Definition set_uuid (uuid : string) (v : json) : exn + dict :=
  let no_item_assignment (ty : string) :=
    TypeError ("'" ++ ty ++ "' object does not support item assignment")%string in
  match v with
  | JObject fields => inr (dict_set "uuid" (JStr uuid) fields)
  | JList _ =>
      inl (TypeError "list indices must be integers or slices, not str")
  | JStr _ => inl (no_item_assignment "str"%string)
  | JInt _ => inl (no_item_assignment "int"%string)
  | JFloat _ => inl (no_item_assignment "float"%string)
  | JBool _ => inl (no_item_assignment "bool"%string)
  | JNull => inl (no_item_assignment "NoneType"%string)
  | JObjectId _ => inl (no_item_assignment "ObjectId"%string)
  end.

(** [_process_response]: the token log and the server it leaves, and the
    exception it ends with if any.  [json_loads] is [json.loads], [now] the
    reading of [time.time()]. *)
Definition _process_response (json_loads : string -> exn + json)
    (same_id : json -> json -> bool) (uuid : string) (r : response)
    (now : Q) (mongo_db_name mongo_collection_name : string)
    (st : model_state) (srv : server) : option exn * model_state * server :=
  let st1 :=
    {| request_timestamps := request_timestamps st;
       token_usage_log :=
         token_usage_log st
         ++ [(now, prompt_tokens r, completion_tokens r)] |} in
  match json_loads (content r) with
  | inl e => (Some e, st1, srv)
  | inr v =>
      match set_uuid uuid v with
      | inl e => (Some e, st1, srv)
      | inr doc =>
          match insert_one same_id doc
                  (get_collection srv mongo_db_name mongo_collection_name) with
          | inl e => (Some e, st1, srv)
          | inr c =>
              (None, st1,
               put_collection srv mongo_db_name mongo_collection_name c)
          end
      end
  end.

(** The values of a uuid column of strings that [isin] can match. *)
Definition strings_of (vs : list json) : list string :=
  flat_map (fun v => match v with JStr s => [s] | _ => [] end) vs.

Definition ConnectionFailure (db_name collection_name : string) : exn :=
  {| is_rate_limit := false; e_name := "ConnectionFailure";
     e_str := ("MongoDB access to database failed for <<" ++ db_name
               ++ ">> and <<" ++ collection_name ++ ">>")%string |}.

(** [run_blueprint_analysis] against a server: the access test, the
    composition of the messages from the stored uuids, the sample, and the
    submission. *)
Definition run_blueprint_analysis (srv : server)
    (mongo_db_name mongo_collection_name : string) (system_prompt : string)
    (_load_message_prompt : string -> string)
    (narratives : list Blueprint.row) (sample_size : option Z)
    : exn + Dispatcher.dispatch :=
  if test_access_to_db_and_collection srv mongo_db_name mongo_collection_name
  then
    match get_collected_uuids srv mongo_db_name mongo_collection_name with
    | inl e => inl e
    | inr collected =>
        let (uuids, messages_list) :=
          Blueprint.run_blueprint_analysis system_prompt _load_message_prompt
            (strings_of collected) narratives sample_size in
        inr (Dispatcher.run_parallel_prompt_tasks uuids messages_list)
    end
  else inl (ConnectionFailure mongo_db_name mongo_collection_name).

End Store.

(* ===================================================================== *)
(** ** Construction of a model: [LanguageModel.__init__] *)
(* ===================================================================== *)

Module Config.
Import Quota Trace.

(** The content of [config/model_limits.json] as [json.load] returns it:
    provider, then model name, then the limits by name. *)
Definition limits_config : Type :=
  list (string * list (string * list (string * Z))).

(** What [__init__] sets on the instance. *)
Record instance : Type := {
  limits : model_limits;
  request_interval : Q;
  lists : model_state;       (* [request_timestamps], [token_usage_log] *)
  semaphore : nat;           (* value of [threading.Semaphore] *)
  stop_flag : bool           (* [threading.Event] *)
}.

Definition ZeroDivisionError : exn :=
  {| is_rate_limit := false; e_name := "ZeroDivisionError";
     e_str := "float division by zero" |}.

(** [d[k]] on a dict with string keys. *)
Definition item {V} (k : string) (d : list (string * V)) : exn + V :=
  match Store.lookup k d with
  | Some v => inr v
  | None => inl (Store.KeyError k)
  end.

(** [LanguageModel.__init__], given what [get_model_limits] returned. *)
Definition __init__ (model_limits_config : limits_config)
    (provider model_name : string) : exn + instance :=
  match item provider model_limits_config with
  | inl e => inl e
  | inr models =>
      match item model_name models with
      | inl e => inl e
      | inr model_limits =>
          match item "rpm" model_limits with
          | inl e => inl e
          | inr rpm =>
              match item "tpm" model_limits with
              | inl e => inl e
              | inr tpm =>
                  if rpm =? 0 then inl ZeroDivisionError
                  else
                    inr {| limits := {| max_requests_per_min := rpm;
                                        max_tokens_per_min := tpm |};
                           request_interval := (60 / inject_Z rpm)%Q;
                           lists := {| request_timestamps := [];
                                       token_usage_log := [] |};
                           semaphore := MAX_CONCURRENT_REQUESTS;
                           stop_flag := false |}
              end
          end
      end
  end.

End Config.

(* ===================================================================== *)
(** ** Loading the narratives: narrative_blueprint/blueprint.py *)
(* ===================================================================== *)

Module Loader.
Import Trace.

(** [p.rfind(c)], scanning from the left with the running index [i] and the
    last index found so far, -1 at the start. *)
Fixpoint rfind_from (c : ascii) (p : list ascii) (i best : Z) : Z :=
  match p with
  | [] => best
  | x :: rest => rfind_from c rest (i + 1) (if Ascii.eqb x c then i else best)
  end.

Definition rfind (c : ascii) (p : list ascii) : Z := rfind_from c p 0 (-1).

(** The [while] loop of [genericpath._splitext]: leading dots of the file
    name do not start an extension. *)
Fixpoint skip_leading_dots (p : list ascii) (filenameIndex : nat)
    (remaining : nat) (dotIndex : nat) : list ascii * list ascii :=
  match remaining with
  | O => (p, [])
  | S remaining' =>
      match nth_error p filenameIndex with
      | Some x =>
          if Ascii.eqb x "." then
            skip_leading_dots p (S filenameIndex) remaining' dotIndex
          else (firstn dotIndex p, skipn dotIndex p)
      | None => (p, [])
      end
  end.

(** [os.path.splitext] of [posixpath], on the characters of the path. *)
Definition splitext_chars (p : list ascii) : list ascii * list ascii :=
  let sepIndex := rfind "/" p in
  let dotIndex := rfind "." p in
  if sepIndex <? dotIndex then
    skip_leading_dots p (Z.to_nat (sepIndex + 1))
      (Z.to_nat (dotIndex - (sepIndex + 1))) (Z.to_nat dotIndex)
  else (p, []).

Definition splitext (p : string) : string * string :=
  let (root, ext) := splitext_chars (list_ascii_of_string p) in
  (string_of_list_ascii root, string_of_list_ascii ext).

(** [str.lower] on the letters A to Z. *)
Definition lower_char (c : ascii) : ascii :=
  let n := nat_of_ascii c in
  if ((65 <=? n) && (n <=? 90))%nat then ascii_of_nat (n + 32) else c.

Definition lower (s : string) : string :=
  string_of_list_ascii (map lower_char (list_ascii_of_string s)).

Definition ValueError (msg : string) : exn :=
  {| is_rate_limit := false; e_name := "ValueError"; e_str := msg |}.

Section Frames.

(** The data frames of pandas, their readers and their constructor. *)
Variable frame : Type.
Variable read_csv : string -> exn + frame.
Variable read_excel : string -> exn + frame.
Variable json_load : string -> exn + Store.json.  (* [open] and [json.load] *)
Variable DataFrame : list Store.json -> exn + frame.
Variable columns : frame -> list string.

(** The body of the [try] of [_load_narratives]. *)
Definition load_by_extension (path : string) : exn + frame :=
  let file_extension := lower (snd (splitext path)) in
  if String.eqb file_extension ".csv" then read_csv path
  else if existsb (String.eqb file_extension) [".xlsx"; ".xls"]%string
  then read_excel path
  else if String.eqb file_extension ".json" then
    match json_load path with
    | inl e => inl e
    | inr data =>
        match data with
        | Store.JList items => DataFrame items
        | Store.JObject _ => DataFrame [data]
        | _ => inl (ValueError ("Unsupported JSON structure in " ++ path))
        end
    end
  else
    inl (ValueError
           ("Unsupported file format: " ++ file_extension
            ++ ". Supported formats: .csv, .xlsx, .xls, .json")).

(** [_load_narratives]: every exception is raised again as a ValueError. *)
Definition _load_narratives (path : string) : exn + frame :=
  match load_by_extension path with
  | inr f => inr f
  | inl e =>
      inl (ValueError
             ("Error loading narratives from " ++ path ++ ": " ++ e_str e))
  end.

(** [repr] of a list of plain strings. *)
Fixpoint repr_items (l : list string) : string :=
  match l with
  | [] => ""
  | [x] => "'" ++ x ++ "'"
  | x :: rest => "'" ++ x ++ "', " ++ repr_items rest
  end.

Definition repr_list (l : list string) : string :=
  ("[" ++ repr_items l ++ "]")%string.

(** The arguments [NarrativeBlueprint] reads from [args]. *)
Record arguments : Type := {
  narrative_path : option string;
  mongo_db_name : option string;
  mongo_collection_name : option string;
  sample_size : option Z
}.

Definition no_arguments : arguments :=
  {| narrative_path := None; mongo_db_name := None;
     mongo_collection_name := None; sample_size := None |}.

Record blueprint : Type := {
  b_args : arguments;
  b_narratives : frame;
  b_sample_size : option Z
}.

(** [NarrativeBlueprint.__init__]; [is_language_model] is
    [isinstance(llm_engine, LanguageModel)]. *)
Definition __init__ (is_language_model : bool) (args : option arguments)
    : exn + blueprint :=
  let args := match args with Some a => a | None => no_arguments end in
  if negb is_language_model then
    inl (Store.TypeError "llm_engine must be an instance of LanguageModel")
  else
    match narrative_path args with
    | None | Some EmptyString =>
        inl (ValueError "The `narrative_path` argument is required")
    | Some path =>
        match _load_narratives path with
        | inl e => inl e
        | inr narratives =>
            let required_columns := ["uuid"; "narrative"]%string in
            let missing_columns :=
              filter (fun col => negb (existsb (String.eqb col)
                                         (columns narratives)))
                required_columns in
            match missing_columns with
            | _ :: _ =>
                inl (ValueError
                       ("Narratives dataset missing required columns: "
                        ++ repr_list missing_columns))
            | [] =>
                inr {| b_args := args; b_narratives := narratives;
                       b_sample_size := sample_size args |}
            end
        end
    end.

End Frames.

End Loader.

(* ===================================================================== *)
(** ** Concrete inputs for the store and the configuration *)
(* ===================================================================== *)

Module StoreInputs.
Import Trace Store.

(** A remote answer whose content parses to an object that carries a
    [uuid] of its own. *)
Definition answer : response :=
  {| prompt_tokens := 120; completion_tokens := 80;
     content := "theme=trust; uuid=other" |}.

Definition parsed_answer : string -> exn + json :=
  fun _ => inr (JObject [("theme", JStr "trust"); ("uuid", JStr "other")]%string).

(** Object ids are compared by number, other [_id] values are taken as
    different. *)
Definition by_number (a b : json) : bool :=
  match a, b with
  | JObjectId x, JObjectId y => Nat.eqb x y
  | _, _ => false
  end.

(** A server on which the collection exists and is empty. *)
Definition created : server :=
  [("narratives", [("blueprints", {| docs := []; generated := 0 |})])]%string.

Definition openai_limits : Config.limits_config :=
  [("openai", [("gpt-4o-mini", [("rpm", 500); ("tpm", 200000)])])]%string.

End StoreInputs.

(* ===================================================================== *)
(** ** Schedules of the pool: slots taken and given back *)
(* ===================================================================== *)

Module Schedule.
Import Trace Worker.

(** The action is a successful [semaphore.acquire()]. *)
Definition takes_slot (a : Pool.action) : bool :=
  match a with
  | Pool.AcquireSlot _ => true
  | _ => false
  end.

(** The action ends a [with self.semaphore] block. *)
Definition gives_slot (a : Pool.action) : bool :=
  match a with
  | Pool.ReleaseSlot _ | Pool.ReturnInside _ => true
  | _ => false
  end.

(** How many times a slot is taken along a schedule: by any call, and by
    call [i]. *)
Definition acquisitions (acts : list Pool.action) : nat :=
  List.length (filter takes_slot acts).

Definition acquisitions_of (i : nat) (acts : list Pool.action) : nat :=
  List.length
    (filter (fun a => match a with
                      | Pool.AcquireSlot j => Nat.eqb i j
                      | _ => false
                      end) acts).

(** 1 when call [i] is past the guard and blocked in [with self.semaphore],
    0 otherwise. *)
Definition waiting (i : nat) (s : Pool.pool) : nat :=
  match nth_error (Pool.phases s) i with
  | Some Pool.WaitingSlot => 1
  | _ => 0
  end.

(** Thirty calls on the pool threads, all past the guard; then the signal
    handler sets the flag. *)
Definition thirty_then_flag : list Pool.action :=
  map Pool.Start (seq 0 30) ++ map Pool.PassGuard (seq 0 30) ++ [Pool.SetFlag].

(** The first ten of them take a slot. *)
Definition ten_enter : list Pool.action := map Pool.AcquireSlot (seq 0 10).

(** A remote call that is answered. *)
Definition answered : attempt_env :=
  {| ticks := [Inputs.quiet_tick];
     api := inl {| prompt_tokens := 12; completion_tokens := 30;
                   content := "{}" |};
     usage_time := 1; store_fault := None; local_tb := EmptyString |}.

(** A call that finds the flag clear at its first guard and set at every
    later one: the flag is set after the call has passed the guard. *)
Definition cancelled_after_guard : worker_env :=
  Thread.thread_env Inputs.wide_limits (fun p => Z.of_nat (String.length p))
    true 7 "u-7" Inputs.chat (fun r => 1 <=? r) (fun _ => answered)
    (fun _ => Inputs.empty_state) (fun _ => 1 # 2).

(** A call with an estimate the limit of 4 tokens per minute can never
    admit, given two iterations of the quota loop. *)
Definition oversized : worker_env :=
  Thread.thread_env Inputs.tight_limits (fun p => Z.of_nat (String.length p))
    true 7 "u-7" Inputs.chat (fun _ => false)
    (fun _ => {| ticks := Inputs.two_quiet_ticks;
                 api := inl {| prompt_tokens := 12; completion_tokens := 30;
                               content := "{}" |};
                 usage_time := 1; store_fault := None;
                 local_tb := EmptyString |})
    (fun _ => Inputs.empty_state) (fun _ => 1 # 2).

End Schedule.

(* ===================================================================== *)
(** * Properties *)
(* ===================================================================== *)

(** ** Python primitives *)

Section PyFacts.

Lemma Qltb_lt (a b : Q) : Py.Qltb a b = true <-> (a < b)%Q.
Proof.
  unfold Py.Qltb. rewrite negb_true_iff.
  split; intro H.
  - apply Qnot_le_lt. intro Hle. apply Qle_bool_iff in Hle. congruence.
  - destruct (Qle_bool b a) eqn:E; [|reflexivity].
    apply Qle_bool_iff in E. exfalso. apply (Qlt_not_le _ _ H E).
Qed.

Lemma Qltb_ge (a b : Q) : Py.Qltb a b = false <-> (b <= a)%Q.
Proof.
  unfold Py.Qltb. rewrite negb_false_iff. apply Qle_bool_iff.
Qed.

Lemma py_max_spec (a b : Q) : (Py.max a b == Qmax a b)%Q.
Proof.
  unfold Py.max. destruct (Py.Qltb a b) eqn:E.
  - apply Qltb_lt in E. symmetry. apply Q.max_r. lra.
  - apply Qltb_ge in E. symmetry. apply Q.max_l. exact E.
Qed.

Lemma py_max_zero_pos (b : Q) : (0 < b)%Q -> Py.max 0 b = b.
Proof.
  intro H. unfold Py.max. apply Qltb_lt in H. rewrite H. reflexivity.
Qed.

Lemma py_max_nonneg (a b : Q) : (0 <= a)%Q -> (0 <= Py.max a b)%Q.
Proof.
  intro H. unfold Py.max. destruct (Py.Qltb a b) eqn:E; [|exact H].
  apply Qltb_lt in E. lra.
Qed.

Lemma py_sum_from (l : list Z) (a : Z) :
  fold_left Z.add l a = a + fold_right Z.add 0 l.
Proof.
  revert a. induction l as [|x l IH]; intro a; simpl.
  - lia.
  - rewrite IH. lia.
Qed.

Lemma py_sum_fold_right (l : list Z) : Py.sum l = fold_right Z.add 0 l.
Proof. unfold Py.sum. rewrite py_sum_from. lia. Qed.

Lemma uniform_range (a b u : Q) :
  (a <= b)%Q -> (0 <= u <= 1)%Q ->
  (a <= Py.uniform a b u <= b)%Q.
Proof.
  intros Hab [H0 H1]. unfold Py.uniform.
  assert (0 <= (b - a) * u)%Q by (apply Qmult_le_0_compat; lra).
  assert ((b - a) * u <= (b - a) * 1)%Q.
  { rewrite !(Qmult_comm (b - a)). apply Qmult_le_compat_r; lra. }
  lra.
Qed.

End PyFacts.

(** ** QuotaTracker *)

Section QuotaFacts.
Import Quota.

Variable lim : model_limits.

Lemma recent_iff (now t : Q) : recent now t = true <-> (now - 60 < t)%Q.
Proof. unfold recent. rewrite Qltb_lt. split; intro; lra. Qed.

Lemma prune_requests_In (now t : Q) (ts : list Q) :
  In t (prune_requests now ts) <-> In t ts /\ (now - t < 60)%Q.
Proof.
  unfold prune_requests. rewrite filter_In. unfold recent.
  rewrite Qltb_lt. reflexivity.
Qed.

Lemma prune_usage_In (now : Q) (e : usage) (log : list usage) :
  In e (prune_usage now log) <-> In e log /\ (now - u_time e < 60)%Q.
Proof.
  unfold prune_usage. rewrite filter_In. unfold recent.
  rewrite Qltb_lt. reflexivity.
Qed.

(** C5.  Immediately after the pruning step of a wait decision taken at
    time [now], every retained request timestamp and every retained
    token-usage event is younger than 60 seconds (so none is older than
    [now - 60]), and every recorded event younger than 60 seconds is
    retained. *)
Theorem window_pruning (now : Q) (st : model_state) (estimated_tokens : Z) :
  let st' := snd (wait_decision lim now st estimated_tokens) in
  (forall t, In t (request_timestamps st') ->
     (now - 60 < t)%Q /\ ~ (t < now - 60)%Q) /\
  (forall e, In e (token_usage_log st') ->
     (now - 60 < u_time e)%Q /\ ~ (u_time e < now - 60)%Q) /\
  (forall t, In t (request_timestamps st) -> (now - t < 60)%Q ->
     In t (request_timestamps st')) /\
  (forall e, In e (token_usage_log st) -> (now - u_time e < 60)%Q ->
     In e (token_usage_log st')).
Proof.
  cbn. repeat split.
  - apply prune_requests_In in H. lra.
  - apply prune_requests_In in H. lra.
  - apply prune_usage_In in H. lra.
  - apply prune_usage_In in H. lra.
  - intros t Hin Hlt. apply prune_requests_In. auto.
  - intros e Hin Hlt. apply prune_usage_In. auto.
Qed.

(** After pruning, the wait computed from the oldest retained event is
    positive. *)
Lemma request_wait_pos (now : Q) (ts : list Q) :
  (0 < request_wait now (prune_requests now ts))%Q.
Proof.
  unfold request_wait.
  destruct (prune_requests now ts) as [|t l] eqn:E; [reflexivity|].
  assert (Hin : In t (prune_requests now ts)) by (rewrite E; left; reflexivity).
  apply prune_requests_In in Hin. lra.
Qed.

Lemma token_wait_pos (now : Q) (log : list usage) :
  (0 < token_wait now (prune_usage now log))%Q.
Proof.
  unfold token_wait.
  destruct (prune_usage now log) as [|e l] eqn:E; [reflexivity|].
  assert (Hin : In e (prune_usage now log)) by (rewrite E; left; reflexivity).
  apply prune_usage_In in Hin. lra.
Qed.

Lemma wait_time_nonneg (now : Q) (st : model_state) (E : Z) :
  (0 <= wait_time_of lim now st E)%Q.
Proof.
  unfold wait_time_of.
  destruct (rpm_at_risk _ _), (tpm_at_risk _ _ _);
    repeat apply py_max_nonneg; lra.
Qed.

End QuotaFacts.

Section QuotaWait.
Import Quota Inputs.

(** C1, as stated, fails, in two ways.  With completion tokens 1 and 2 in
    the window the mean is 3/2, the claimed aggregate 9/2 exceeds a TPM limit
    of 4 and the claimed wait at time 10 is 50 seconds; the code truncates
    the mean to 1, finds an aggregate of 4 and enforces no wait.  With one
    usage event of 50 completion tokens recorded at time 0, a decision at
    time 100 for an estimate of 10 has usage data and a claimed buffer of
    50, so no wait under a TPM limit of 1000; the code has pruned the event,
    falls back to the default 1000, finds an aggregate of 1010 and enforces
    a wait of 1 second. *)
Lemma quota_wait_mean_counterexample :
  ((Claimed.claimed_wait tight_limits 10 two_events 0 == 50)%Q /\
   agg_tokens (token_usage_log (prune 10 two_events)) 0 = 4 /\
   fst (wait_decision tight_limits 10 two_events 0) = 0%Q /\
   ~ (fst (wait_decision tight_limits 10 two_events 0)
      == Claimed.claimed_wait tight_limits 10 two_events 0)%Q) /\
  ((Claimed.claimed_wait thousand_limits 100 one_old_event 10 == 0)%Q /\
   agg_tokens (token_usage_log (prune 100 one_old_event)) 10 = 1010 /\
   (fst (wait_decision thousand_limits 100 one_old_event 10) == 1)%Q /\
   ~ (fst (wait_decision thousand_limits 100 one_old_event 10)
      == Claimed.claimed_wait thousand_limits 100 one_old_event 10)%Q).
Proof.
  split; repeat split; try reflexivity;
    intro H; vm_compute in H; discriminate H.
Qed.

Variable lim : model_limits.

(** C1, amended.  A wait decision at time [now] for an estimated cost
    [estimated_tokens] prunes both lists to the trailing 60 seconds and then:
    the required request wait, when the retained request count is at least
    the RPM limit, is [60 - (now - oldest)] (1 if nothing is retained); the
    aggregate is the retained prompt+completion tokens plus the estimate plus
    a buffer, the buffer being the mean of the retained completion tokens
    truncated to an integer (1000 whenever no usage event is retained); the
    required token wait, when the aggregate exceeds the TPM limit, is
    [60 - (now - oldest)] (1 if nothing is retained); both required waits
    are positive and the enforced wait is their maximum, the one that
    applies, or 0 when neither limit is at risk. *)
Theorem quota_wait_amended (now : Q) (st : model_state) (estimated_tokens : Z) :
  let ts := prune_requests now (request_timestamps st) in
  let log := prune_usage now (token_usage_log st) in
  let request_wait :=
    match ts with t :: _ => (60 - (now - t))%Q | [] => 1%Q end in
  let buffer :=
    match log with
    | [] => 1000
    | _ :: _ =>
        Z.quot (fold_right Z.add 0 (map u_completion log))
               (Z.of_nat (List.length log))
    end in
  let agg :=
    fold_right Z.add 0 (map (fun e => u_prompt e + u_completion e) log)
    + estimated_tokens + buffer in
  let token_wait :=
    match log with e :: _ => (60 - (now - u_time e))%Q | [] => 1%Q end in
  let over_rpm := max_requests_per_min lim <=? Z.of_nat (List.length ts) in
  let over_tpm := max_tokens_per_min lim <? agg in
  snd (wait_decision lim now st estimated_tokens)
    = {| request_timestamps := ts; token_usage_log := log |} /\
  agg_tokens log estimated_tokens = agg /\
  (0 < request_wait)%Q /\ (0 < token_wait)%Q /\
  (fst (wait_decision lim now st estimated_tokens) ==
     match over_rpm, over_tpm with
     | true, true => Qmax request_wait token_wait
     | true, false => request_wait
     | false, true => token_wait
     | false, false => 0
     end)%Q.
Proof.
  intros ts log rw buffer agg tw over_rpm over_tpm.
  assert (Hagg : agg_tokens log estimated_tokens = agg).
  { unfold agg_tokens, agg, tokens_used, buffer, _get_average_completion_tokens.
    rewrite py_sum_fold_right. f_equal.
    destruct log; [reflexivity|].
    unfold Py.int_div. rewrite py_sum_fold_right, length_map. reflexivity. }
  assert (Hrw : (0 < rw)%Q) by apply request_wait_pos.
  assert (Htw : (0 < tw)%Q) by apply token_wait_pos.
  repeat split; try assumption.
  cbn [fst wait_decision]. unfold wait_time_of.
  cbn [request_timestamps token_usage_log prune].
  fold ts log. unfold rpm_at_risk, tpm_at_risk. rewrite Hagg.
  fold over_rpm over_tpm.
  change (Quota.request_wait now ts) with rw.
  change (Quota.token_wait now log) with tw.
  destruct over_rpm, over_tpm.
  - rewrite (py_max_zero_pos rw Hrw). apply py_max_spec.
  - rewrite (py_max_zero_pos rw Hrw). reflexivity.
  - rewrite (py_max_zero_pos tw Htw). reflexivity.
  - reflexivity.
Qed.

(** The scenario of the specification: with RPM = 2 and two requests
    recorded 30 and 20 seconds ago, the wait is 60 - 30 seconds. *)
Example two_requests_at_rpm_two :
  (fst (wait_decision
          {| max_requests_per_min := 2; max_tokens_per_min := 100000 |}
          30 {| request_timestamps := [0; 10]%Q; token_usage_log := [] |} 10)
   == 30)%Q.
Proof. reflexivity. Qed.

(** An old request no longer counts: 61 seconds later only one of the two
    is retained and there is no wait. *)
Example old_request_pruned :
  wait_decision
    {| max_requests_per_min := 2; max_tokens_per_min := 100000 |}
    61 {| request_timestamps := [0; 10]%Q; token_usage_log := [] |} 10
  = (0%Q, {| request_timestamps := [10]%Q; token_usage_log := [] |}).
Proof. reflexivity. Qed.

End QuotaWait.

(** ** RetryPolicy *)

Section RetryFacts.
Import Quota Trace Worker.

Variable env : worker_env.
Variable request_id : Z.
Variable uuid : string.
Variable max_retries : Z.

Local Abbreviation loop fuel loc :=
  (backoff_loop fuel env request_id uuid max_retries loc).
Local Abbreviation throttled_at := (throttled_at env).

(** One iteration that ends in the RateLimitError handler. *)
Lemma loop_throttled (fuel : nat) (loc : locals) :
  is_set env (retry_count loc) = false ->
  retry_count loc <= max_retries ->
  throttled_at (retry_count loc) ->
  let r := retry_count loc in
  let next := {| retry_count := r + 1; e_rate_limit := None |} in
  loop (S fuel) loc =
    ([SemEnter; Try r (tr_events (attempt env r))]
     ++ [Describe (Retry r request_id);
         Backoff (sleep_time_of (r + 1) (jitter_sample env (r + 1)));
         SemExit]
     ++ fst (loop fuel next),
     snd (loop fuel next)).
Proof.
  intros Hflag Hle (e & tb & Hres & Hrl) r next.
  cbn [backoff_loop].
  rewrite Hflag. apply Z.leb_le in Hle. rewrite Hle. cbn [negb andb].
  rewrite Hres, Hrl. cbn [retry_count e_rate_limit].
  fold r. fold next.
  destruct (loop fuel next) as [rest x]. reflexivity.
Qed.

(** The loop stops at the guard without a step. *)
Lemma loop_guard_fails (fuel : nat) (loc : locals) :
  is_set env (retry_count loc) = true \/ max_retries < retry_count loc ->
  loop fuel loc = ([], LoopExit loc).
Proof.
  intro H.
  assert (Hc : negb (is_set env (retry_count loc))
               && (retry_count loc <=? max_retries) = false).
  { destruct H as [H|H].
    - rewrite H. reflexivity.
    - apply Z.leb_gt in H. rewrite H. apply andb_false_r. }
  destruct fuel; cbn [backoff_loop]; rewrite Hc; reflexivity.
Qed.

(** The name bound by [except ... as e_rate_limit] is never bound when the
    loop is left through its condition. *)
Lemma loop_exit_unbound (fuel : nat) (loc loc' : locals) (steps : list step) :
  e_rate_limit loc = None ->
  loop fuel loc = (steps, LoopExit loc') ->
  e_rate_limit loc' = None.
Proof.
  revert loc steps. induction fuel as [|fuel IH]; intros loc steps Hnone.
  - cbn [backoff_loop].
    destruct (negb _ && _); intro H; inversion H; subst; assumption.
  - cbn [backoff_loop].
    destruct (negb _ && _); [|intro H; inversion H; subst; assumption].
    destruct (tr_result (attempt env (retry_count loc))) as [|e tb|];
      try discriminate.
    destruct (is_rate_limit e); [|discriminate].
    cbn [retry_count e_rate_limit].
    match goal with
    | |- context [backoff_loop fuel env request_id uuid max_retries ?l] =>
        specialize (IH l);
        destruct (loop fuel l) as [rest x] eqn:E
    end.
    intro H. inversion H; subst. eapply IH; [reflexivity|reflexivity].
Qed.

(** The fuel [_call_with_backoff] passes is enough: the loop ends by its
    own condition or by a [return]. *)
Lemma loop_fuel_enough (fuel : nat) (loc : locals) :
  (Z.to_nat (max_retries + 1 - retry_count loc) <= fuel)%nat ->
  snd (loop fuel loc) <> LoopReturn OutOfFuel.
Proof.
  revert loc. induction fuel as [|fuel IH]; intros loc Hfuel.
  - cbn [backoff_loop].
    destruct (retry_count loc <=? max_retries) eqn:E.
    + apply Z.leb_le in E. lia.
    + rewrite andb_false_r. discriminate.
  - cbn [backoff_loop].
    destruct (negb _ && _) eqn:Hc; [|discriminate].
    apply andb_true_iff in Hc. destruct Hc as [_ Hle]. apply Z.leb_le in Hle.
    destruct (tr_result (attempt env (retry_count loc))) as [|e tb|];
      try discriminate.
    destruct (is_rate_limit e); [|discriminate].
    cbn [retry_count e_rate_limit].
    match goal with
    | |- context [backoff_loop fuel env request_id uuid max_retries ?l] =>
        specialize (IH l);
        destruct (loop fuel l) as [rest x] eqn:E
    end.
    cbn [snd] in *. apply IH. cbn [retry_count]. lia.
Qed.

(** Every attempt of the loop is made with a retry count from the one the
    loop starts with on, and below the first count at which the flag is
    found set. *)
Lemma loop_attempts_before_stop (fuel : nat) (loc : locals) (r : Z) :
  is_set env r = true -> retry_count loc <= r ->
  forall a, In a (attempts (fst (loop fuel loc))) ->
    retry_count loc <= a < r.
Proof.
  intros Hset. revert loc. induction fuel as [|fuel IH]; intros loc Hle a.
  - cbn [backoff_loop].
    destruct (negb _ && _); cbn; tauto.
  - cbn [backoff_loop].
    destruct (negb _ && _) eqn:Hc; [|cbn; tauto].
    apply andb_true_iff in Hc. destruct Hc as [Hflag _].
    apply negb_true_iff in Hflag.
    assert (Hlt : retry_count loc < r).
    { destruct (Z.eq_dec (retry_count loc) r) as [E|E]; [|lia].
      rewrite E in Hflag. congruence. }
    destruct (tr_result (attempt env (retry_count loc))) as [|e tb|].
    + cbn. intros [H|[]]. lia.
    + destruct (is_rate_limit e).
      * cbn [retry_count e_rate_limit].
        match goal with
        | |- context [backoff_loop fuel env request_id uuid max_retries ?l] =>
            specialize (IH l);
            destruct (loop fuel l) as [rest x] eqn:E
        end.
        cbn [fst] in *. cbn. intros [H|H]; [lia|].
        cbn [retry_count] in IH. specialize (IH ltac:(lia) a H). lia.
      * cbn. intros [H|[]]. lia.
    + cbn. intros [H|[]]. lia.
Qed.

(** A run in which every attempt is throttled and the flag is never found
    set: the loop is left through its condition after the attempts with
    retry counts [retry_count loc .. max_retries]. *)
Lemma loop_all_throttled (fuel : nat) (loc : locals) :
  (forall r, is_set env r = false) ->
  (forall r, throttled_at r) ->
  e_rate_limit loc = None ->
  retry_count loc <= max_retries + 1 ->
  fuel = Z.to_nat (max_retries + 1 - retry_count loc) ->
  let rs := Py.range (retry_count loc) fuel in
  snd (loop fuel loc)
    = LoopExit {| retry_count := max_retries + 1; e_rate_limit := None |} /\
  attempts (fst (loop fuel loc)) = rs /\
  bodies (fst (loop fuel loc)) = map (fun r => tr_events (attempt env r)) rs /\
  backoffs (fst (loop fuel loc))
    = map (fun r => sleep_time_of (r + 1) (jitter_sample env (r + 1))) rs /\
  logged (fst (loop fuel loc)) = [].
Proof.
  intros Hflag Hthr. revert loc.
  induction fuel as [|fuel IH]; intros loc Hnone Hle Hfuel rs.
  - assert (Hrc : retry_count loc = max_retries + 1) by lia.
    rewrite loop_guard_fails by lia.
    destruct loc as [rc e]. cbn in *. subst. repeat split; reflexivity.
  - assert (Hrc : retry_count loc <= max_retries) by lia.
    rewrite (loop_throttled fuel loc (Hflag _) Hrc (Hthr _)).
    set (next := {| retry_count := retry_count loc + 1; e_rate_limit := None |}).
    destruct (IH next eq_refl) as (Hx & Ha & Hb & Hs & Hl).
    { cbn. lia. }
    { cbn. lia. }
    cbn [retry_count next] in *. subst rs. cbn [fst snd Py.range map].
    repeat split.
    + exact Hx.
    + unfold attempts in *. cbn [flat_map app]. rewrite Ha. reflexivity.
    + unfold bodies in *. cbn [flat_map app]. rewrite Hb. reflexivity.
    + unfold backoffs in *. cbn [flat_map app]. rewrite Hs. reflexivity.
    + unfold logged in *. cbn [flat_map app]. exact Hl.
Qed.

(** A run whose attempts are throttled up to retry count [r0], where the
    [try] block raises another exception. *)
Lemma loop_error_at (r0 : Z) (e : exn) (tb_str : string)
    (fuel : nat) (loc : locals) :
  (forall r, retry_count loc <= r <= r0 -> is_set env r = false) ->
  (forall r, retry_count loc <= r < r0 -> throttled_at r) ->
  tr_result (attempt env r0) = Raised e tb_str ->
  is_rate_limit e = false ->
  retry_count loc <= r0 <= max_retries ->
  (Z.to_nat (r0 - retry_count loc) < fuel)%nat ->
  snd (loop fuel loc) = LoopReturn ReturnError /\
  attempts (fst (loop fuel loc))
    = Py.range (retry_count loc) (S (Z.to_nat (r0 - retry_count loc))) /\
  logged (fst (loop fuel loc)) = [error_message uuid e tb_str].
Proof.
  intros Hflag Hthr Hres Hrl. revert loc Hflag Hthr.
  induction fuel as [|fuel IH]; intros loc Hflag Hthr Hle Hfuel; [lia|].
  destruct (Z.eq_dec (retry_count loc) r0) as [E|E].
  - cbn [backoff_loop]. rewrite Hflag by lia.
    assert (Hc : (retry_count loc <=? max_retries) = true)
      by (apply Z.leb_le; lia).
    rewrite Hc. cbn [negb andb]. rewrite E, Hres, Hrl.
    rewrite Z.sub_diag. cbn. repeat split; reflexivity.
  - rewrite (loop_throttled fuel loc) by
      first [apply Hflag; lia | apply Hthr; lia | lia].
    set (next := {| retry_count := retry_count loc + 1; e_rate_limit := None |}).
    destruct (IH next) as (Hx & Ha & Hl).
    { intros r Hr. apply Hflag. cbn in Hr. lia. }
    { intros r Hr. apply Hthr. cbn in Hr. lia. }
    { cbn. lia. }
    { cbn. lia. }
    cbn [retry_count next] in *.
    replace (Z.to_nat (r0 - retry_count loc))
      with (S (Z.to_nat (r0 - (retry_count loc + 1)))) by lia.
    cbn [fst snd]. repeat split.
    + exact Hx.
    + unfold attempts in *. cbn [flat_map app]. rewrite Ha. reflexivity.
    + unfold logged in *. cbn [flat_map app]. exact Hl.
Qed.

(** [_call_with_backoff] always ends: the fuel never runs out. *)
Lemma call_never_out_of_fuel :
  snd (_call_with_backoff env request_id uuid max_retries) <> OutOfFuel.
Proof.
  unfold _call_with_backoff.
  pose proof (loop_fuel_enough (Z.to_nat (max_retries + 1))
                {| retry_count := 0; e_rate_limit := None |}) as H.
  destruct (backoff_loop _ _ _ _ _ _) as [steps [loc'|x]].
  - unfold after_loop. destruct (_ <? _); [destruct (e_rate_limit loc')|];
      cbn; discriminate.
  - cbn in *. intro Hx. subst. apply H; [lia|reflexivity].
Qed.

(** The exceeded-retries line is never written: the call never returns
    through the log write that follows the loop. *)
Lemma call_never_logs_exhaustion :
  snd (_call_with_backoff env request_id uuid max_retries) <> ReturnExhausted.
Proof.
  unfold _call_with_backoff.
  destruct (backoff_loop _ _ _ _ _ _) as [steps [loc'|x]] eqn:E.
  - apply loop_exit_unbound in E; [|reflexivity].
    unfold after_loop. rewrite E. destruct (_ <? _); cbn; discriminate.
  - cbn. intro Hx. subst.
    revert E. generalize {| retry_count := 0; e_rate_limit := None |}.
    generalize (Z.to_nat (max_retries + 1)). intros fuel. revert steps.
    induction fuel as [|fuel IH]; intros steps loc; cbn [backoff_loop].
    + destruct (negb _ && _); discriminate.
    + destruct (negb _ && _); [|discriminate].
      destruct (tr_result _) as [|e tb|]; try discriminate.
      destruct (is_rate_limit e); [|discriminate].
      match goal with
      | |- context [backoff_loop fuel env request_id uuid max_retries ?l] =>
          specialize (IH (fst (backoff_loop fuel env request_id uuid
                                 max_retries l)) l);
          destruct (backoff_loop fuel env request_id uuid max_retries l)
            as [rest x]
      end.
      intro H. inversion H; subst. apply IH. reflexivity.
Qed.

End RetryFacts.

(** ** The concrete [try] block *)

Section TryBlockFacts.
Import Quota Trace Worker Thread.

Variable lim : model_limits.
Variable _estimate_tokens : string -> Z.
Variable pbar : bool.

Lemma stored_app (a b : list event) : stored (a ++ b) = stored a ++ stored b.
Proof. unfold stored. apply flat_map_app. Qed.

Lemma waits_app (a b : list event) : waits (a ++ b) = waits a ++ waits b.
Proof. unfold waits. apply flat_map_app. Qed.

Lemma stored_description (s : status) :
  stored (_update_tqdm_description pbar s) = [].
Proof. destruct pbar; reflexivity. Qed.

Lemma stored_postfix (n : Z) : stored (_update_tqdm_postfix pbar n) = [].
Proof. destruct pbar; reflexivity. Qed.

Lemma stored_enforce (E : Z) (ticks : list tick) (st : model_state) :
  stored (fst (fst (_enforce_rate_limits lim E pbar ticks st))) = [].
Proof.
  revert st. induction ticks as [|k ticks IH]; intro st; [reflexivity|].
  cbn [_enforce_rate_limits].
  destruct (wait_decision lim (now k) (others k st) E) as [w st1].
  destruct (Qeq_bool w 0).
  - cbn [fst]. rewrite !stored_app, stored_postfix. reflexivity.
  - specialize (IH st1).
    destruct (_enforce_rate_limits lim E pbar ticks st1) as [[rest st'] fin].
    cbn [fst] in *.
    rewrite !stored_app, stored_postfix, stored_description, IH. reflexivity.
Qed.

(** A [try] block stores a result only when it completes. *)
Lemma try_block_stores_on_completion (request_id : Z) (uuid : string)
    (msg : message) (aenv : attempt_env) (st : model_state) :
  let run := fst (try_block lim _estimate_tokens pbar request_id uuid msg aenv st) in
  tr_result run <> Completed -> stored (tr_events run) = [].
Proof.
  unfold try_block.
  destruct (nth_error msg 0) as [[role0 system_prompt]|]; [|reflexivity].
  destruct (nth_error msg 1) as [[role1 user_prompt]|]; [|reflexivity].
  pose proof (stored_enforce
    (_estimate_tokens (system_prompt ++ nl ++ user_prompt)%string)
    (ticks aenv) st) as Henf.
  destruct (_enforce_rate_limits _ _ _ _ _) as [[ev2 st1] fin].
  cbn [fst] in Henf.
  destruct fin.
  - destruct (api aenv) as [r|[e tb]].
    + destruct (store_fault aenv) as [[e tb]|]; cbn [fst tr_events tr_result].
      * intros _. rewrite !stored_app, stored_description, Henf. reflexivity.
      * intro H. exfalso. apply H. reflexivity.
    + cbn [fst tr_events tr_result]. intros _.
      rewrite !stored_app, stored_description, Henf. reflexivity.
  - cbn [fst tr_events tr_result]. intros _.
    rewrite !stored_app, stored_description, Henf. reflexivity.
Qed.

Lemma stored_events_of (steps : list step) :
  stored (events_of pbar steps) = flat_map stored (bodies steps).
Proof.
  unfold events_of, bodies.
  induction steps as [|s steps IH]; [reflexivity|].
  cbn [flat_map]. rewrite stored_app, IH.
  destruct s; cbn [events_of_step flat_map app]; try reflexivity.
  rewrite stored_description. reflexivity.
Qed.

End TryBlockFacts.

(** ** Retry bound, exhaustion and abandoned tasks *)

Section RetryClaims.
Import Quota Trace Worker Thread.

Lemma map_range_shift {A} (f : Z -> A) (lo : Z) (n : nat) :
  map (fun r => f (r + 1)) (Py.range lo n) = map f (Py.range (lo + 1) n).
Proof.
  revert lo. induction n as [|n IH]; intro lo; [reflexivity|].
  cbn [Py.range map]. rewrite IH. reflexivity.
Qed.

Lemma range_length (lo : Z) (n : nat) : List.length (Py.range lo n) = n.
Proof.
  revert lo. induction n as [|n IH]; intro lo; [reflexivity|].
  cbn [Py.range List.length]. rewrite IH. reflexivity.
Qed.

Lemma range_In (lo : Z) (n : nat) (a : Z) :
  In a (Py.range lo n) <-> lo <= a < lo + Z.of_nat n.
Proof.
  revert lo. induction n as [|n IH]; intro lo; cbn [Py.range In].
  - lia.
  - rewrite IH. lia.
Qed.

Lemma range_sorted (lo : Z) (n : nat) : StronglySorted Z.lt (Py.range lo n).
Proof.
  revert lo. induction n as [|n IH]; intro lo; cbn [Py.range].
  - constructor.
  - constructor; [apply IH|].
    apply Forall_forall. intros a Ha. apply range_In in Ha. lia.
Qed.

(** C2.  A call whose [try] blocks always end in RateLimitError and whose
    guard never finds the stop flag set makes exactly [max_retries + 1]
    attempts, with retry counts 0, 1, ..., [max_retries] in increasing
    order; the backoff wait after the n-th failed attempt lasts
    [2^n + uniform(0, DEFAULT_JITTER)]; the call ends in the
    exceeded-retries branch (its last step sets the [FAILED] description,
    and the exception of C4 leaves the function there) and no result is
    stored. *)
Theorem retry_bound (lim : model_limits) (_estimate_tokens : string -> Z)
    (pbar : bool) (request_id : Z) (uuid : string) (msg : message)
    (flag : Z -> bool) (aenv : Z -> attempt_env) (seen : Z -> model_state)
    (jitter : Z -> Q) (max_retries : Z) :
  let env := thread_env lim _estimate_tokens pbar request_id uuid msg
               flag aenv seen jitter in
  0 <= max_retries ->
  (forall r, flag r = false) ->
  (forall r, throttled_at env r) ->
  let steps := fst (_call_with_backoff env request_id uuid max_retries) in
  let n := Z.to_nat (max_retries + 1) in
  attempts steps = Py.range 0 n /\
  Z.of_nat (List.length (attempts steps)) = max_retries + 1 /\
  StronglySorted Z.lt (attempts steps) /\
  backoffs steps
    = map (fun k => (inject_Z (2 ^ k) + Py.uniform 0 DEFAULT_JITTER (jitter k))%Q)
          (Py.range 1 n) /\
  (exists before, steps = before ++ [Describe (Failed request_id)]) /\
  snd (_call_with_backoff env request_id uuid max_retries)
    = Propagate UnboundLocalError /\
  stored (events_of pbar steps) = [].
Proof.
  intros env Hmax Hflag Hthr steps n.
  pose proof (loop_all_throttled env request_id uuid max_retries n
                {| retry_count := 0; e_rate_limit := None |}
                Hflag Hthr eq_refl) as H.
  cbn [retry_count] in H.
  destruct H as (Hx & Ha & Hb & Hs & Hl); [lia | subst n; f_equal; lia |].
  assert (Hsteps : steps = fst (backoff_loop n env request_id uuid max_retries
                                  {| retry_count := 0; e_rate_limit := None |})
                           ++ [Describe (Failed request_id)] /\
          snd (_call_with_backoff env request_id uuid max_retries)
            = Propagate UnboundLocalError).
  { subst steps. unfold _call_with_backoff. fold n.
    destruct (backoff_loop n env request_id uuid max_retries _) as [st x].
    cbn [fst snd] in *. subst x. unfold after_loop. cbn [retry_count e_rate_limit].
    assert (Hlt : (max_retries <? max_retries + 1) = true)
      by (apply Z.ltb_lt; lia).
    rewrite Hlt. split; reflexivity. }
  destruct Hsteps as [Hsteps Hexit].
  assert (Hatt : attempts steps = Py.range 0 n).
  { rewrite Hsteps. unfold attempts in *. rewrite flat_map_app, Ha.
    cbn. apply app_nil_r. }
  repeat split.
  - exact Hatt.
  - rewrite Hatt, range_length. subst n. lia.
  - rewrite Hatt. apply range_sorted.
  - rewrite Hsteps. unfold backoffs in *. rewrite flat_map_app, Hs.
    cbn [flat_map app]. rewrite app_nil_r.
    rewrite (map_range_shift
               (fun k => sleep_time_of k (jitter_sample env k)) 0 n).
    reflexivity.
  - eexists. exact Hsteps.
  - exact Hexit.
  - rewrite stored_events_of, Hsteps. unfold bodies in *.
    rewrite flat_map_app, Hb. cbn [flat_map app]. rewrite app_nil_r.
    clear - Hthr. induction (Py.range 0 n) as [|r rs IH]; [reflexivity|].
    cbn [map flat_map]. rewrite IH, app_nil_r.
    apply (try_block_stores_on_completion lim _estimate_tokens pbar
             request_id uuid msg (aenv r) (seen r)).
    destruct (Hthr r) as (e & tb & Hres & _). cbn in Hres.
    rewrite Hres. discriminate.
Qed.

End RetryClaims.

Section RetryInstances.
Import Quota Trace Worker Thread Inputs.

Lemma always_throttled_throttled (r : Z) : throttled_at always_throttled r.
Proof.
  exists throttled, "Traceback (most recent call last)"%string.
  split; reflexivity.
Qed.

Lemma retry_bound_witness :
  0 <= 3 /\
  (forall r : Z, (fun _ : Z => false) r = false) /\
  attempts (fst (_call_with_backoff always_throttled 7 "u-7" 3))
    = Py.range 0 4 /\
  snd (_call_with_backoff always_throttled 7 "u-7" 3)
    = Propagate UnboundLocalError.
Proof.
  assert (H0 : 0 <= 3) by lia.
  assert (H1 : forall r : Z, (fun _ : Z => false) r = false)
    by (intro r; reflexivity).
  pose proof (retry_bound wide_limits (fun p => Z.of_nat (String.length p))
                true 7 "u-7" chat (fun _ => false)
                (fun _ => failing_with throttled) (fun _ => empty_state)
                (fun _ => 1 # 2) 3 H0 H1 always_throttled_throttled) as H.
  destruct H as (Ha & _ & _ & _ & _ & Hx & _).
  repeat split; assumption.
Defined.

(** C4 (the code does not do this).  The exceeded-retries line is never
    written.  For every environment the call never returns through the log
    write that follows the loop; and at the default [max_retries = 5], on a
    task whose remote call is always throttled, the six attempts are made,
    the [FAILED] description is set, nothing is logged, and the call ends
    with UnboundLocalError: the name [e_rate_limit] was deleted at the end
    of the handler that bound it. *)
Theorem exhaustion_log_not_written :
  (forall env request_id uuid max_retries,
     snd (_call_with_backoff env request_id uuid max_retries)
       <> ReturnExhausted) /\
  let run := _call_with_backoff always_throttled 7 "u-7" 5 in
  attempts (fst run) = [0; 1; 2; 3; 4; 5] /\
  last (fst run) SemExit = Describe (Failed 7) /\
  logged (fst run) = [] /\
  snd run = Propagate UnboundLocalError.
Proof.
  split; [exact call_never_logs_exhaustion|].
  vm_compute. repeat split; reflexivity.
Qed.

End RetryInstances.

Section AbandonedTask.
Import Quota Trace Worker Thread.

Lemma string_app_assoc (a b c : string) :
  ((a ++ b) ++ c = a ++ b ++ c)%string.
Proof.
  induction a as [|x a IH]; [reflexivity|]. cbn. rewrite IH. reflexivity.
Qed.

Lemma string_app_nil_r (a : string) : (a ++ "" = a)%string.
Proof.
  induction a as [|x a IH]; [reflexivity|]. cbn. rewrite IH. reflexivity.
Qed.

Lemma error_message_contents (uuid : string) (e : exn) (tb_str : string) :
  contains (error_message uuid e tb_str) uuid /\
  contains (error_message uuid e tb_str) (e_name e) /\
  contains (error_message uuid e tb_str) (e_str e) /\
  contains (error_message uuid e tb_str) tb_str.
Proof.
  unfold contains, error_message. repeat split.
  - eexists "[ERROR] prompt #"%string, _. reflexivity.
  - exists ("[ERROR] prompt #" ++ uuid ++ " error: ")%string. eexists.
    rewrite !string_app_assoc. reflexivity.
  - exists ("[ERROR] prompt #" ++ uuid ++ " error: " ++ e_name e ++ " - ")%string.
    eexists. rewrite !string_app_assoc. reflexivity.
  - exists ("[ERROR] prompt #" ++ uuid ++ " error: " ++ e_name e ++ " - "
            ++ e_str e ++ nl ++ "Traceback:" ++ nl)%string.
    exists ""%string. rewrite !string_app_assoc, string_app_nil_r. reflexivity.
Qed.

Lemma drain_all (finished : list exit) (updates : nat) :
  Dispatcher.drain finished updates
    = (None, (updates + List.length finished)%nat).
Proof.
  revert updates. induction finished as [|x rest IH]; intro updates.
  - cbn. f_equal. lia.
  - cbn [Dispatcher.drain].
    assert (Hc : Dispatcher.collect x = None)
      by (unfold Dispatcher.collect; destruct (Dispatcher.result x); reflexivity).
    rewrite Hc, IH. cbn [List.length]. f_equal. lia.
Qed.

(** C8.  When the attempt made with retry count [r0] raises an exception
    that is not a RateLimitError (the earlier attempts, if any, having been
    throttled, and the flag not found set): exactly one entry is written to
    the log, made of the task's uuid, the class name and message of the
    error and the traceback text; the call returns from the handler, having
    made the attempts [0 .. r0] and no other; and the dispatcher loop, given
    any finished workers, including ones whose call raised, swallows what
    they raised, updates the progress bar once per worker and is not
    aborted. *)
Theorem non_throttling_error_abandons (env : worker_env) (request_id : Z)
    (uuid : string) (max_retries r0 : Z) (e : exn) (tb_str : string) :
  0 <= r0 <= max_retries ->
  (forall r, 0 <= r <= r0 -> is_set env r = false) ->
  (forall r, 0 <= r < r0 -> throttled_at env r) ->
  tr_result (attempt env r0) = Raised e tb_str ->
  is_rate_limit e = false ->
  let run := _call_with_backoff env request_id uuid max_retries in
  logged (fst run) = [error_message uuid e tb_str] /\
  (contains (error_message uuid e tb_str) uuid /\
   contains (error_message uuid e tb_str) (e_name e) /\
   contains (error_message uuid e tb_str) (e_str e) /\
   contains (error_message uuid e tb_str) tb_str) /\
  snd run = ReturnError /\
  attempts (fst run) = Py.range 0 (S (Z.to_nat r0)) /\
  (forall finished updates,
     Dispatcher.drain (snd run :: finished) updates
       = (None, S (updates + List.length finished))).
Proof.
  intros Hr0 Hflag Hthr Hres Hrl run.
  pose proof (loop_error_at env request_id uuid max_retries r0 e tb_str
                (Z.to_nat (max_retries + 1))
                {| retry_count := 0; e_rate_limit := None |}) as H.
  cbn [retry_count] in H. rewrite Z.sub_0_r in H.
  destruct H as (Hx & Ha & Hl); try assumption; try lia.
  assert (Hrun : run = (fst (backoff_loop (Z.to_nat (max_retries + 1)) env
                               request_id uuid max_retries
                               {| retry_count := 0; e_rate_limit := None |}),
                        ReturnError)).
  { subst run. unfold _call_with_backoff.
    destruct (backoff_loop _ _ _ _ _ _) as [steps x]. cbn [fst snd] in *.
    subst x. reflexivity. }
  rewrite Hrun. cbn [fst snd]. repeat split.
  - exact Hl.
  - apply error_message_contents.
  - apply error_message_contents.
  - apply error_message_contents.
  - apply error_message_contents.
  - exact Ha.
  - intros finished updates. rewrite drain_all. cbn [List.length].
    f_equal. lia.
Qed.

Lemma non_throttling_error_abandons_witness :
  0 <= 0 <= 5 /\
  logged (fst (_call_with_backoff Inputs.always_rejected 7 "u-7" 5))
    = [error_message "u-7" Inputs.bad_request
         "Traceback (most recent call last)"] /\
  attempts (fst (_call_with_backoff Inputs.always_rejected 7 "u-7" 5)) = [0].
Proof.
  assert (H0 : 0 <= 0 <= 5) by lia.
  assert (H1 : forall r, 0 <= r <= 0 ->
                 is_set Inputs.always_rejected r = false)
    by (intros r _; reflexivity).
  assert (H2 : forall r, 0 <= r < 0 -> throttled_at Inputs.always_rejected r)
    by (intros r Hr; lia).
  pose proof (non_throttling_error_abandons Inputs.always_rejected 7 "u-7"
                5 0 Inputs.bad_request "Traceback (most recent call last)"
                H0 H1 H2 eq_refl eq_refl) as H.
  destruct H as (Hl & _ & _ & Ha & _).
  repeat split; try assumption; lia.
Defined.

End AbandonedTask.

(** ** Locks and waits along the trace of a worker *)

Section LockFacts.
Import Quota Trace Worker Thread Locks.

Variable lim : model_limits.
Variable _estimate_tokens : string -> Z.
Variable pbar : bool.

Local Abbreviation disciplined tr := (check jitter_inside [] tr = Some []).

Lemma check_app (ok : policy) (held : list lock) (a b : list event) :
  check ok held (a ++ b)
    = match check ok held a with
      | Some held' => check ok held' b
      | None => None
      end.
Proof.
  revert held. induction a as [|e a IH]; intro held; [reflexivity|].
  cbn [app check]. destruct (ok held e); [apply IH|reflexivity].
Qed.

Lemma check_seq (ok : policy) (h0 h1 h2 : list lock) (a b : list event) :
  check ok h0 a = Some h1 -> check ok h1 b = Some h2 ->
  check ok h0 (a ++ b) = Some h2.
Proof. intros Ha Hb. rewrite check_app, Ha. exact Hb. Qed.

Lemma check_description (held : list lock) (s : status) :
  check jitter_inside held (_update_tqdm_description pbar s) = Some held.
Proof. destruct pbar; reflexivity. Qed.

Lemma check_postfix (held : list lock) (n : Z) :
  check jitter_inside held (_update_tqdm_postfix pbar n) = Some held.
Proof. destruct pbar; reflexivity. Qed.

Lemma enforce_disciplined (E : Z) (ticks : list tick) (st : model_state) :
  disciplined (fst (fst (_enforce_rate_limits lim E pbar ticks st))).
Proof.
  revert st. induction ticks as [|k ticks IH]; intro st; [reflexivity|].
  cbn [_enforce_rate_limits].
  destruct (wait_decision lim (now k) (others k st) E) as [w st1].
  destruct (Qeq_bool w 0).
  - cbn [fst]. rewrite <- app_assoc. cbn [app check jitter_inside held_after].
    rewrite check_app, check_postfix. reflexivity.
  - specialize (IH st1).
    destruct (_enforce_rate_limits lim E pbar ticks st1) as [[rest st'] fin].
    cbn [fst] in *. rewrite <- app_assoc.
    cbn [app check jitter_inside held_after].
    rewrite check_app, check_postfix.
    cbn [app check jitter_inside held_after release lock_eqb].
    rewrite check_app, check_description.
    cbn [app check jitter_inside no_lock held_after]. exact IH.
Qed.

Lemma try_block_disciplined (request_id : Z) (uuid : string) (msg : message)
    (aenv : attempt_env) (st : model_state) :
  disciplined
    (tr_events (fst (try_block lim _estimate_tokens pbar request_id uuid msg
                       aenv st))).
Proof.
  unfold try_block.
  destruct (nth_error msg 0) as [[role0 system_prompt]|]; [|reflexivity].
  destruct (nth_error msg 1) as [[role1 user_prompt]|]; [|reflexivity].
  pose proof (enforce_disciplined
    (_estimate_tokens (system_prompt ++ nl ++ user_prompt)%string)
    (ticks aenv) st) as Henf.
  destruct (_enforce_rate_limits _ _ _ _ _) as [[ev2 st1] fin].
  cbn [fst] in Henf.
  assert (Hpre : forall tail,
            check jitter_inside [] tail = Some [] ->
            check jitter_inside []
              (_update_tqdm_description pbar (Running request_id)
               ++ ev2 ++ tail) = Some []).
  { intros tail Ht. rewrite check_app, check_description.
    eapply check_seq; eassumption. }
  destruct fin.
  - destruct (api aenv) as [r|[e tb]].
    + destruct (store_fault aenv) as [[e tb]|]; cbn [fst tr_events];
        apply Hpre; reflexivity.
    + cbn [fst tr_events]. apply Hpre. reflexivity.
  - cbn [fst tr_events]. rewrite <- (app_nil_r ev2). apply Hpre. reflexivity.
Qed.

(** A call whose [try] blocks keep the discipline keeps it as a whole. *)
Lemma loop_disciplined (env : worker_env) (request_id : Z) (uuid : string)
    (max_retries : Z) (fuel : nat) (loc : locals) :
  (forall r, disciplined (tr_events (attempt env r))) ->
  disciplined
    (events_of pbar
       (fst (backoff_loop fuel env request_id uuid max_retries loc))).
Proof.
  intro Hatt. revert loc.
  induction fuel as [|fuel IH]; intro loc; cbn [backoff_loop].
  - destruct (negb _ && _); reflexivity.
  - destruct (negb _ && _); [|reflexivity].
    pose proof (Hatt (retry_count loc)) as Hbody.
    destruct (tr_result (attempt env (retry_count loc))) as [|e tb|].
    + cbn [fst events_of flat_map app events_of_step check jitter_inside
           held_after].
      eapply check_seq; [exact Hbody|reflexivity].
    + destruct (is_rate_limit e).
      * cbn [retry_count e_rate_limit].
        match goal with
        | |- context [backoff_loop fuel env request_id uuid max_retries ?l] =>
            specialize (IH l);
            destruct (backoff_loop fuel env request_id uuid max_retries l)
              as [rest x]
        end.
        cbn [fst] in *. unfold events_of in *.
        cbn [flat_map app events_of_step check jitter_inside held_after].
        eapply check_seq; [exact Hbody|].
        rewrite check_app, check_description.
        cbn [app check jitter_inside no_lock held_after]. exact IH.
      * cbn [fst events_of flat_map app events_of_step check jitter_inside
             held_after].
        eapply check_seq; [exact Hbody|].
        rewrite check_app, check_description. reflexivity.
    + cbn [fst events_of flat_map app events_of_step check jitter_inside
           held_after].
      rewrite app_nil_r. exact Hbody.
Qed.

End LockFacts.

Section LockClaims.
Import Quota Trace Worker Thread Locks.

(** C7, as stated, fails: on an empty window with generous limits the one
    iteration of the quota loop decides to proceed and waits for its jitter
    of 0.175 seconds before leaving the [with] block, that is with
    [rate_limit_lock] and [token_lock] both held. *)
Lemma jitter_wait_inside_locks_counterexample :
  let run :=
    _enforce_rate_limits Inputs.wide_limits 10 true [Inputs.quiet_tick]
      Inputs.empty_state in
  snd run = true /\
  (exists d,
     fst (fst run)
       = [Acquire rate_limit_lock; Acquire token_lock;
          Acquire tqdm_lock; SetPostfix 0; Release tqdm_lock;
          StopFlagWait proceed_jitter d;
          Release token_lock; Release rate_limit_lock] /\
     (d == 7 # 40)%Q /\ (0 < d)%Q) /\
  check lock_free [] (fst (fst run)) = None.
Proof.
  cbv zeta. split; [reflexivity|]. split; [|reflexivity].
  eexists. split; [reflexivity|]. split; reflexivity.
Qed.

(** C7, amended.  In every call of [_call_with_backoff], the enforced quota
    wait, the backoff wait and the network call happen with no lock held,
    and no lock is held when the call ends; the proceed jitter, and only
    it, is waited for while [rate_limit_lock] and [token_lock] are both
    held. *)
Theorem locks_released_except_proceed_jitter (lim : model_limits)
    (_estimate_tokens : string -> Z) (pbar : bool) (request_id : Z)
    (uuid : string) (msg : message) (flag : Z -> bool)
    (aenv : Z -> attempt_env) (seen : Z -> model_state) (jitter : Z -> Q)
    (max_retries : Z) :
  let env := thread_env lim _estimate_tokens pbar request_id uuid msg
               flag aenv seen jitter in
  check jitter_inside []
    (events_of pbar (fst (_call_with_backoff env request_id uuid max_retries)))
    = Some [].
Proof.
  intro env. unfold _call_with_backoff.
  pose proof (loop_disciplined pbar env request_id uuid max_retries
                (Z.to_nat (max_retries + 1))
                {| retry_count := 0; e_rate_limit := None |}) as H.
  destruct (backoff_loop _ _ _ _ _ _) as [steps [loc'|x]]; cbn [fst] in *.
  - unfold after_loop.
    assert (Hs : check jitter_inside [] (events_of pbar steps) = Some []).
    { apply H. intro r. apply try_block_disciplined. }
    destruct (_ <? _); [destruct (e_rate_limit loc')|]; cbn [fst].
    + unfold events_of in *. rewrite flat_map_app.
      eapply check_seq; [exact Hs|].
      cbn [flat_map events_of_step]. rewrite check_app, check_description.
      reflexivity.
    + unfold events_of in *. rewrite flat_map_app.
      eapply check_seq; [exact Hs|].
      cbn [flat_map events_of_step]. rewrite app_nil_r.
      apply check_description.
    + rewrite app_nil_r. exact Hs.
  - apply H. intro r. apply try_block_disciplined.
Qed.

End LockClaims.

(** ** Cancellation *)

Section WaitFacts.
Import Quota Trace Worker Thread.

Variable lim : model_limits.
Variable _estimate_tokens : string -> Z.
Variable pbar : bool.

Local Abbreviation unit_sample u := (0 <= u <= 1)%Q.
Local Abbreviation positive tr := (Forall (fun w => 0 < snd w)%Q (waits tr)).

Lemma waits_description (s : status) :
  waits (_update_tqdm_description pbar s) = [].
Proof. destruct pbar; reflexivity. Qed.

Lemma waits_postfix (n : Z) : waits (_update_tqdm_postfix pbar n) = [].
Proof. destruct pbar; reflexivity. Qed.

Lemma enforce_waits_positive (E : Z) (ticks : list tick) (st : model_state) :
  Forall (fun k => unit_sample (sample k)) ticks ->
  positive (fst (fst (_enforce_rate_limits lim E pbar ticks st))).
Proof.
  intro Hs. revert st.
  induction Hs as [|k ticks Hk Hs IH]; intro st; [constructor|].
  cbn [_enforce_rate_limits]. unfold wait_decision.
  set (st1 := prune (now k) (others k st)).
  pose proof (wait_time_nonneg lim (now k) st1 E) as Hw.
  destruct (Qeq_bool (wait_time_of lim (now k) st1 E) 0) eqn:Hz.
  - cbn [fst]. rewrite !waits_app, waits_postfix. cbn.
    constructor; [|constructor]. cbn [snd].
    pose proof (uniform_range 0 (5 # 100) (sample k) ltac:(lra) Hk).
    unfold DEFAULT_JITTER. lra.
  - apply Qeq_bool_neq in Hz.
    specialize (IH st1).
    destruct (_enforce_rate_limits lim E pbar ticks st1) as [[rest st'] fin].
    cbn [fst] in *. rewrite !waits_app, waits_postfix, waits_description. cbn.
    constructor; [|exact IH]. cbn [snd].
    pose proof (uniform_range (5 # 100) (25 # 100) (sample k) ltac:(lra) Hk).
    lra.
Qed.

Lemma try_block_waits_positive (request_id : Z) (uuid : string)
    (msg : message) (aenv : attempt_env) (st : model_state) :
  Forall (fun k => unit_sample (sample k)) (ticks aenv) ->
  positive
    (tr_events (fst (try_block lim _estimate_tokens pbar request_id uuid msg
                       aenv st))).
Proof.
  intro Hs. unfold try_block.
  destruct (nth_error msg 0) as [[role0 system_prompt]|]; [|constructor].
  destruct (nth_error msg 1) as [[role1 user_prompt]|]; [|constructor].
  pose proof (enforce_waits_positive
    (_estimate_tokens (system_prompt ++ nl ++ user_prompt)%string)
    (ticks aenv) st Hs) as Henf.
  destruct (_enforce_rate_limits _ _ _ _ _) as [[ev2 st1] fin].
  cbn [fst] in Henf.
  destruct fin; [destruct (api aenv) as [r|[e tb]];
                 [destruct (store_fault aenv) as [[e tb]|]|]|];
    cbn [fst tr_events]; rewrite !waits_app, waits_description;
    cbn [app]; try rewrite app_nil_r; exact Henf.
Qed.

Lemma sleep_time_positive (k : Z) (u : Q) :
  0 <= k -> unit_sample u -> (0 < sleep_time_of k u)%Q.
Proof.
  intros Hk Hu. unfold sleep_time_of.
  pose proof (uniform_range 0 DEFAULT_JITTER u ltac:(unfold DEFAULT_JITTER; lra) Hu).
  assert (0 < 2 ^ k) by (apply Z.pow_pos_nonneg; lia).
  assert (0 < inject_Z (2 ^ k))%Q.
  { change 0%Q with (inject_Z 0). rewrite <- Zlt_Qlt. assumption. }
  lra.
Qed.

Lemma positive_app_intro (a b : list event) :
  positive a -> positive b -> positive (a ++ b).
Proof. intros Ha Hb. rewrite waits_app. apply Forall_app. split; assumption. Qed.

Lemma positive_description (s : status) :
  positive (_update_tqdm_description pbar s).
Proof. rewrite waits_description. constructor. Qed.

Lemma loop_waits_positive (env : worker_env) (request_id : Z) (uuid : string)
    (max_retries : Z) (fuel : nat) (loc : locals) :
  (forall r, positive (tr_events (attempt env r))) ->
  (forall r, unit_sample (jitter_sample env r)) ->
  0 <= retry_count loc ->
  positive
    (events_of pbar
       (fst (backoff_loop fuel env request_id uuid max_retries loc))).
Proof.
  intros Hatt Hjit. revert loc.
  induction fuel as [|fuel IH]; intros loc Hrc; cbn [backoff_loop].
  - destruct (negb _ && _); constructor.
  - destruct (negb _ && _); [|constructor].
    pose proof (Hatt (retry_count loc)) as Hbody.
    destruct (tr_result (attempt env (retry_count loc))) as [|e tb|];
      [| destruct (is_rate_limit e) |].
    2: { cbn [retry_count e_rate_limit].
         match goal with
         | |- context [backoff_loop fuel env request_id uuid max_retries ?l] =>
             specialize (IH l);
             destruct (backoff_loop fuel env request_id uuid max_retries l)
               as [rest x]
         end.
         cbn [fst retry_count] in *. unfold events_of in *.
         rewrite !flat_map_app. cbn [flat_map events_of_step].
         repeat apply positive_app_intro;
           try first [ exact Hbody | apply positive_description
                     | apply IH; lia | apply Forall_nil ].
         apply Forall_cons; [|apply Forall_nil].
         cbn [snd]. apply sleep_time_positive; [lia|apply Hjit]. }
    all: cbn [fst]; unfold events_of; rewrite ?flat_map_app;
      cbn [flat_map events_of_step];
      repeat apply positive_app_intro;
      first [ exact Hbody | apply positive_description | apply Forall_nil ].
Qed.

Lemma after_loop_no_wait (request_id : Z) (uuid : string) (max_retries : Z)
    (loc : locals) :
  waits (events_of pbar (fst (after_loop request_id uuid max_retries loc))) = [].
Proof.
  unfold after_loop.
  destruct (_ <? _); [destruct (e_rate_limit loc)|]; cbn [fst];
    unfold events_of; cbn [flat_map events_of_step];
    rewrite ?waits_app, ?waits_description; reflexivity.
Qed.

(** An interruptible wait with a positive timeout returns early when the
    flag is set before its deadline, be it set before the wait starts or
    while it is pending. *)
Lemma wait_cut_short (c start d : Q) :
  (0 < d)%Q -> (c < start + d)%Q ->
  (StopFlag.elapsed (Some c) start d < d)%Q.
Proof.
  intros Hd Hc. unfold StopFlag.elapsed, StopFlag.wait_returns.
  assert (Hmax : (Qmax 0 d == d)%Q) by (apply Q.max_r; lra).
  destruct (Q.max_spec start (Qmin c (start + Qmax 0 d))) as [[L E]|[L E]];
    rewrite E.
  - destruct (Q.min_spec c (start + Qmax 0 d)) as [[L' E']|[L' E']];
      rewrite E'; lra.
  - lra.
Qed.

End WaitFacts.

Section PoolFlag.
Import Pool.

Lemma move_fields (s s' : pool) (i : nat) (from to : phase) (ok : bool)
    (permits' entered' : nat) :
  move s i from to ok permits' entered' = Some s' ->
  ok = true /\ nth_error (phases s) i = Some from /\
  s' = {| permits := permits'; stop_flag := stop_flag s;
          phases := set_nth i to (phases s); entered := entered' |}.
Proof.
  unfold move. destruct (nth_error (phases s) i) as [p|]; [|discriminate].
  destruct (phase_eqb p from) eqn:Ep; [|discriminate].
  destruct ok; [|discriminate]. cbn. intro H. inversion H.
  repeat split. destruct p, from; try discriminate; reflexivity.
Qed.

(** Once the flag is set it stays set and no further loop iteration is
    entered, whatever the threads do. *)
Lemma step_after_flag (capacity : nat) (s s' : pool) (a : action) :
  stop_flag s = true -> step capacity s a = Some s' ->
  stop_flag s' = true /\ entered s' = entered s.
Proof.
  intros Hflag Hstep. destruct a; cbn [step] in Hstep;
    try (apply move_fields in Hstep; destruct Hstep as (Hok & _ & ->);
         cbn; split; [assumption|reflexivity]).
  - apply move_fields in Hstep. destruct Hstep as (Hok & _ & _).
    rewrite Hflag in Hok. discriminate.
  - inversion Hstep; subst. cbn. split; reflexivity.
Qed.

Lemma run_after_flag (capacity : nat) (acts : list action) (s s' : pool) :
  stop_flag s = true -> run capacity s acts = Some s' ->
  stop_flag s' = true /\ entered s' = entered s.
Proof.
  revert s. induction acts as [|a acts IH]; intros s Hflag Hrun.
  - cbn in Hrun. inversion Hrun; subst. split; [assumption|reflexivity].
  - cbn [run] in Hrun. destruct (step capacity s a) as [s1|] eqn:E;
      [|discriminate].
    destruct (step_after_flag capacity s s1 a Hflag E) as [Hf He].
    destruct (IH s1 Hf Hrun) as [Hf' He']. split; [assumption|congruence].
Qed.

(** The guard is evaluated before the semaphore is acquired: a call that
    passed it keeps the iteration it has entered, and may take its slot
    after the flag is set. *)
Example slot_taken_after_flag :
  run Dispatcher.max_workers (init 1) Inputs.flag_then_acquire
    = Some {| permits := 9; stop_flag := true; phases := [InAttempt];
              entered := 1 |}.
Proof. reflexivity. Qed.

End PoolFlag.

(** ** Concurrency bound *)

Section PoolFacts.
Import Pool.

Local Abbreviation one b := (if b then 1%nat else 0%nat).

Lemma count_cons (p h : phase) (t : list phase) :
  count p (h :: t) = (one (phase_eqb p h) + count p t)%nat.
Proof. unfold count. cbn [filter]. destruct (phase_eqb p h); reflexivity. Qed.

Lemma count_set_nth (p a b : phase) (i : nat) (l : list phase) :
  nth_error l i = Some a ->
  (count p (set_nth i b l) + one (phase_eqb p a)
   = count p l + one (phase_eqb p b))%nat.
Proof.
  revert i. induction l as [|h t IH]; intros i Hi.
  - destruct i; discriminate.
  - destruct i as [|j]; cbn [nth_error set_nth] in *.
    + inversion Hi; subst. rewrite !count_cons. lia.
    + rewrite !count_cons. specialize (IH j Hi). lia.
Qed.

Lemma count_repeat_queued (p : phase) (n : nat) :
  count p (repeat Queued n) = (if phase_eqb p Queued then n else 0)%nat.
Proof.
  induction n as [|n IH]; cbn [repeat].
  - destruct (phase_eqb p Queued); reflexivity.
  - rewrite count_cons, IH. destruct (phase_eqb p Queued); reflexivity.
Qed.

(** The invariant of the semaphore and of the pool. *)
Local Abbreviation balanced capacity s :=
  ((count InAttempt (phases s) + permits s = Quota.MAX_CONCURRENT_REQUESTS
    /\ on_thread (phases s) <= capacity)%nat).

Lemma step_balanced (capacity : nat) (s s' : pool) (a : action) :
  balanced capacity s -> step capacity s a = Some s' -> balanced capacity s'.
Proof.
  intros [Hsem Hthr] Hstep. unfold on_thread in *.
  destruct a; cbn [step] in Hstep;
    try (apply move_fields in Hstep; destruct Hstep as (Hok & Hnth & ->);
         cbn [phases permits];
         match goal with
         | |- context [set_nth _ ?b _] =>
             pose proof (count_set_nth InAttempt _ b _ _ Hnth) as C1;
             pose proof (count_set_nth AtGuard _ b _ _ Hnth) as C2;
             pose proof (count_set_nth WaitingSlot _ b _ _ Hnth) as C3
         end;
         cbn [phase_eqb] in C1, C2, C3;
         try (apply Nat.ltb_lt in Hok); unfold on_thread in *; lia).
  inversion Hstep; subst. cbn [phases permits]. split; assumption.
Qed.

Lemma run_balanced (capacity : nat) (acts : list action) (s s' : pool) :
  balanced capacity s -> run capacity s acts = Some s' -> balanced capacity s'.
Proof.
  revert s. induction acts as [|a acts IH]; intros s Hs Hrun.
  - cbn in Hrun. inversion Hrun; subst. exact Hs.
  - cbn [run] in Hrun. destruct (step capacity s a) as [s1|] eqn:E;
      [|discriminate].
    apply (IH s1); [|exact Hrun]. eapply step_balanced; eassumption.
Qed.

Lemma init_balanced (n : nat) : balanced Dispatcher.max_workers (init n).
Proof.
  cbn [init phases permits]. unfold on_thread.
  rewrite !count_repeat_queued. cbn. lia.
Qed.

(** C3, as stated, fails: the limit on active attempts is the semaphore's
    10, not 30.  With eleven calls submitted, all on pool threads and past
    the guard, ten are inside the semaphore and the eleventh cannot enter,
    although only 11 of the 30 pool threads are busy. *)
Lemma concurrency_limit_counterexample :
  Quota.MAX_CONCURRENT_REQUESTS <> 30%nat /\
  exists s,
    run Dispatcher.max_workers (init 11) Inputs.eleven_ready = Some s /\
    count InAttempt (phases s) = 10%nat /\
    nth_error (phases s) 10 = Some WaitingSlot /\
    on_thread (phases s) = 11%nat /\
    step Dispatcher.max_workers s (AcquireSlot 10) = None.
Proof.
  split; [discriminate|].
  exists {| permits := 0; stop_flag := false;
            phases := repeat InAttempt 10 ++ [WaitingSlot];
            entered := 11 |}.
  vm_compute. repeat split; reflexivity.
Qed.

(** C3, amended.  In every reachable state of a run, whatever the number
    of submitted calls, at most [MAX_CONCURRENT_REQUESTS] = 10 workers are
    inside an attempt (the body of [with self.semaphore]), the attempts in
    progress and the free permits adding up to 10; the pool that runs the
    workers has [max_workers] = 30 threads, and at most 30 calls are on a
    thread. *)
Theorem concurrency_bound (n : nat) (s : pool) :
  reachable n s ->
  (count InAttempt (phases s) <= Quota.MAX_CONCURRENT_REQUESTS)%nat /\
  Quota.MAX_CONCURRENT_REQUESTS = 10%nat /\
  (count InAttempt (phases s) + permits s)%nat = 10%nat /\
  (on_thread (phases s) <= Dispatcher.max_workers)%nat /\
  Dispatcher.max_workers = 30%nat.
Proof.
  intros [acts Hrun].
  destruct (run_balanced _ acts _ _ (init_balanced n) Hrun) as [Hsem Hthr].
  repeat split; try assumption; try reflexivity.
  - lia.
Qed.

End PoolFacts.

Lemma concurrency_bound_witness :
  Pool.reachable 11
    {| Pool.permits := 0; Pool.stop_flag := false;
       Pool.phases := repeat Pool.InAttempt 10 ++ [Pool.WaitingSlot];
       Pool.entered := 11 |} /\
  (Pool.count Pool.InAttempt
     (repeat Pool.InAttempt 10 ++ [Pool.WaitingSlot]) <= 10)%nat.
Proof.
  assert (R : Pool.reachable 11
                {| Pool.permits := 0; Pool.stop_flag := false;
                   Pool.phases := repeat Pool.InAttempt 10 ++ [Pool.WaitingSlot];
                   Pool.entered := 11 |}).
  { exists Inputs.eleven_ready. vm_compute. reflexivity. }
  split; [exact R|].
  destruct (concurrency_bound 11 _ R) as (H & _). exact H.
Defined.

(** ** Cancellation *)

Section PoolCancellation.
Import Pool Schedule.

Lemma nth_error_set_nth {A} (i j : nat) (x : A) (l : list A) :
  nth_error (set_nth i x l) j
  = if Nat.eqb j i
    then match nth_error l i with Some _ => Some x | None => None end
    else nth_error l j.
Proof.
  revert i j. induction l as [|h t IH]; intros i j.
  - destruct i, j; cbn; try reflexivity; destruct (Nat.eqb j i); reflexivity.
  - destruct i as [|i], j as [|j]; cbn [set_nth nth_error Nat.eqb];
      try reflexivity. apply IH.
Qed.

Local Abbreviation one b := (if b then 1%nat else 0%nat).

Lemma waiting_moved (s : pool) (k i : nat) (from to : phase) (p e : nat) :
  nth_error (phases s) k = Some from ->
  (waiting i {| permits := p; stop_flag := stop_flag s;
                phases := set_nth k to (phases s); entered := e |}
   + one (Nat.eqb i k && phase_eqb WaitingSlot from)
   = waiting i s + one (Nat.eqb i k && phase_eqb WaitingSlot to))%nat.
Proof.
  intro Hk. unfold waiting. cbn [phases]. rewrite nth_error_set_nth.
  destruct (Nat.eqb i k) eqn:E; cbn [andb]; [|lia].
  apply Nat.eqb_eq in E. subst i. rewrite Hk.
  destruct from, to; reflexivity.
Qed.

Lemma acquisitions_cons (a : action) (acts : list action) :
  acquisitions (a :: acts) = (one (takes_slot a) + acquisitions acts)%nat.
Proof.
  unfold acquisitions. cbn [filter]. destruct (takes_slot a); reflexivity.
Qed.

Lemma acquisitions_of_cons (i : nat) (a : action) (acts : list action) :
  acquisitions_of i (a :: acts)
  = (one (match a with AcquireSlot j => Nat.eqb i j | _ => false end)
     + acquisitions_of i acts)%nat.
Proof.
  unfold acquisitions_of. cbn [filter].
  destruct a; try reflexivity. destruct (Nat.eqb i i0); reflexivity.
Qed.

(** After the flag is set the guard is closed, and a slot is taken only by
    a call that was already waiting for one, which is then no longer
    waiting. *)
Lemma step_cancelled (capacity : nat) (s s' : pool) (a : action) :
  stop_flag s = true -> step capacity s a = Some s' ->
  stop_flag s' = true /\ entered s' = entered s /\
  (forall i, (acquisitions_of i [a] + waiting i s' = waiting i s)%nat) /\
  (acquisitions [a] + count WaitingSlot (phases s')
   = count WaitingSlot (phases s))%nat.
Proof.
  intros Hflag Hstep.
  destruct (step_after_flag capacity s s' a Hflag Hstep) as [Hf He].
  split; [exact Hf|]. split; [exact He|]. clear Hf He.
  destruct a as [k|k|k|k|k|k|]; cbn [step] in Hstep;
    [ | | | | | | inversion Hstep; subst; split; [intro j|]; reflexivity ];
    apply move_fields in Hstep; destruct Hstep as (Hok & Hnth & ->);
    [ | rewrite Hflag in Hok; discriminate | | | | ];
    (split;
     [ intro j;
       match goal with
       | |- context [set_nth _ ?b _] =>
           pose proof (waiting_moved s k j _ b (permits s) (entered s) Hnth)
             as W1;
           pose proof (waiting_moved s k j _ b (pred (permits s)) (entered s)
                         Hnth) as W2;
           pose proof (waiting_moved s k j _ b (S (permits s)) (entered s)
                         Hnth) as W3
       end;
       cbn [phase_eqb] in W1, W2, W3;
       rewrite ?Bool.andb_false_r, ?Bool.andb_true_r in W1, W2, W3;
       unfold acquisitions_of; cbn [filter];
       destruct (Nat.eqb j k); cbn [List.length] in *; lia
     | match goal with
       | |- context [set_nth _ ?b _] =>
           pose proof (count_set_nth WaitingSlot _ b _ _ Hnth) as C
       end;
       unfold acquisitions; cbn [takes_slot filter List.length phases];
       cbn [phase_eqb] in C; lia ]).
Qed.

Lemma run_cancelled (capacity : nat) (acts : list action) (s s' : pool) :
  stop_flag s = true -> run capacity s acts = Some s' ->
  stop_flag s' = true /\ entered s' = entered s /\
  (forall i, (acquisitions_of i acts + waiting i s' = waiting i s)%nat) /\
  (acquisitions acts + count WaitingSlot (phases s')
   = count WaitingSlot (phases s))%nat.
Proof.
  revert s. induction acts as [|a acts IH]; intros s Hflag Hrun.
  - cbn in Hrun. inversion Hrun; subst.
    split; [assumption|]. split; [reflexivity|].
    split; [intro i|]; reflexivity.
  - cbn [run] in Hrun. destruct (step capacity s a) as [s1|] eqn:E;
      [|discriminate].
    destruct (step_cancelled capacity s s1 a Hflag E) as (Hf & He & Hw & Hc).
    destruct (IH s1 Hf Hrun) as (Hf' & He' & Hw' & Hc').
    split; [assumption|]. split; [congruence|]. split.
    + intro i. specialize (Hw i). specialize (Hw' i).
      rewrite acquisitions_of_cons in *. unfold acquisitions_of in Hw.
      cbn [filter List.length] in Hw. lia.
    + rewrite acquisitions_cons in *. unfold acquisitions in Hc.
      cbn [filter List.length] in Hc. lia.
Qed.

Lemma waiting_on_threads (n : nat) (s : pool) :
  reachable n s ->
  (count WaitingSlot (phases s) <= Dispatcher.max_workers)%nat.
Proof.
  intros [acts Hrun].
  destruct (run_balanced _ acts _ _ (init_balanced n) Hrun) as [_ Hthr].
  unfold on_thread in Hthr. lia.
Qed.

End PoolCancellation.

Section CancellationClaim.
Import Quota Trace Worker Thread Schedule.

(** C6, as stated, fails: a call begins an attempt after the stop flag is
    set.  The flag is read once, at the [while] guard, before the blocking
    [with self.semaphore].  With thirty calls on the pool threads and past
    the guard when the flag is set, no call is inside an attempt; ten of
    them then take a slot and are inside an attempt, with the flag set.
    And a call that finds the flag clear at its first guard and set at
    every later one acquires the semaphore, runs the quota loop, makes the
    remote call and stores the result. *)
Lemma attempt_begun_after_flag_counterexample :
  (exists s s',
     Pool.run Dispatcher.max_workers (Pool.init 30) thirty_then_flag = Some s /\
     Pool.stop_flag s = true /\
     Pool.count Pool.InAttempt (Pool.phases s) = 0%nat /\
     Pool.run Dispatcher.max_workers s ten_enter = Some s' /\
     Pool.stop_flag s' = true /\
     Pool.count Pool.InAttempt (Pool.phases s') = 10%nat) /\
  (forall r, 1 <= r -> is_set cancelled_after_guard r = true) /\
  (let run := _call_with_backoff cancelled_after_guard 7 "u-7" 5 in
   snd run = ReturnSuccess /\
   attempts (fst run) = [0] /\
   In SemAcquire (events_of true (fst run)) /\
   In RemoteCall (events_of true (fst run)) /\
   stored (events_of true (fst run)) = ["u-7"%string]).
Proof.
  split; [|split].
  - exists {| Pool.permits := 10; Pool.stop_flag := true;
              Pool.phases := repeat Pool.WaitingSlot 30;
              Pool.entered := 30 |},
           {| Pool.permits := 0; Pool.stop_flag := true;
              Pool.phases := repeat Pool.InAttempt 10
                             ++ repeat Pool.WaitingSlot 20;
              Pool.entered := 30 |}.
    vm_compute. repeat split; reflexivity.
  - intros r Hr. cbn. apply Z.leb_le. exact Hr.
  - vm_compute. split; [reflexivity|]. split; [reflexivity|].
    split; [|split]; [| |reflexivity];
      repeat first [left; reflexivity | right].
Qed.

(** C6, amended.  Once the stop flag is set the guard of the attempt loop
    is closed: a call whose guard finds the flag set at retry count [r] has
    made attempts with smaller retry counts only (none at all when
    [r = 0]), and among the threads of the pool the number of loop
    iterations entered never grows again and the flag is never cleared.
    The attempts begun after the flag is set are those of the calls that
    had passed the guard and were waiting for the semaphore: each call
    takes a slot at most once more, and only if it was waiting for one, so
    the slots taken are as many as calls have left the wait, at most the 30
    calls on the pool threads.  Every wait of a call, quota wait, proceed
    jitter or backoff sleep, is a wait on the stop flag with a positive
    timeout [d], and returns in less than [d] as soon as the flag is set
    before its deadline, before the wait starts or while it is pending. *)
Theorem cancellation_closes_guard_and_cuts_waits (lim : model_limits)
    (_estimate_tokens : string -> Z) (pbar : bool) (request_id : Z)
    (uuid : string) (msg : message) (flag : Z -> bool)
    (aenv : Z -> attempt_env) (seen : Z -> model_state) (jitter : Z -> Q)
    (max_retries : Z) :
  let env := thread_env lim _estimate_tokens pbar request_id uuid msg
               flag aenv seen jitter in
  (forall r, Forall (fun k => 0 <= sample k <= 1)%Q (ticks (aenv r))) ->
  (forall r, 0 <= jitter r <= 1)%Q ->
  let steps := fst (_call_with_backoff env request_id uuid max_retries) in
  (forall r, 0 <= r -> flag r = true ->
     forall a, In a (attempts steps) -> a < r) /\
  (forall capacity s acts s',
     Pool.stop_flag s = true -> Pool.run capacity s acts = Some s' ->
     Pool.stop_flag s' = true /\ Pool.entered s' = Pool.entered s /\
     (forall i, (acquisitions_of i acts + waiting i s' = waiting i s)%nat) /\
     (acquisitions acts + Pool.count Pool.WaitingSlot (Pool.phases s')
      = Pool.count Pool.WaitingSlot (Pool.phases s))%nat) /\
  (forall n s acts s',
     Pool.reachable n s -> Pool.stop_flag s = true ->
     Pool.run Dispatcher.max_workers s acts = Some s' ->
     (acquisitions acts <= Pool.count Pool.WaitingSlot (Pool.phases s))%nat /\
     (Pool.count Pool.WaitingSlot (Pool.phases s) <= 30)%nat) /\
  (forall site d, In (site, d) (waits (events_of pbar steps)) ->
     (0 < d)%Q /\
     forall start c, (c < start + d)%Q ->
       (StopFlag.elapsed (Some c) start d < d)%Q).
Proof.
  intros env Hticks Hjit steps.
  set (loc0 := {| retry_count := 0; e_rate_limit := None |}).
  set (fuel := Z.to_nat (max_retries + 1)).
  assert (Hsteps :
    exists tail,
      steps = fst (backoff_loop fuel env request_id uuid max_retries loc0)
              ++ tail /\
      attempts tail = [] /\ waits (events_of pbar tail) = []).
  { subst steps. unfold _call_with_backoff. fold loc0 fuel.
    destruct (backoff_loop fuel env request_id uuid max_retries loc0)
      as [st [loc'|x]]; cbn [fst].
    - pose proof (after_loop_no_wait pbar request_id uuid max_retries loc')
        as Hw.
      exists (fst (after_loop request_id uuid max_retries loc')).
      destruct (after_loop request_id uuid max_retries loc') as [tail x]
        eqn:E. cbn [fst] in *. repeat split; [|exact Hw].
      unfold after_loop in E.
      destruct (_ <? _); [destruct (e_rate_limit loc')|];
        inversion E; reflexivity.
    - exists []. rewrite app_nil_r. repeat split; reflexivity. }
  destruct Hsteps as (tail & Hsteps & Hta & Htw).
  assert (Hpos : Forall (fun w => 0 < snd w)%Q (waits (events_of pbar steps))).
  { rewrite Hsteps. unfold events_of. rewrite flat_map_app, waits_app.
    fold (events_of pbar tail). rewrite Htw, app_nil_r.
    apply loop_waits_positive.
    - intro r. apply try_block_waits_positive. apply Hticks.
    - intro r. apply Hjit.
    - cbn. lia. }
  rewrite Forall_forall in Hpos.
  split; [|split; [|split]].
  - intros r Hr Hset a Ha. rewrite Hsteps in Ha. unfold attempts in *.
    rewrite flat_map_app, Hta, app_nil_r in Ha.
    apply (loop_attempts_before_stop env request_id uuid max_retries
             fuel loc0 r Hset Hr a Ha).
  - intros capacity s acts s' Hflag Hrun.
    eapply run_cancelled; eassumption.
  - intros n s acts s' Hreach Hflag Hrun.
    destruct (run_cancelled _ acts s s' Hflag Hrun) as (_ & _ & _ & Hc).
    pose proof (waiting_on_threads n s Hreach) as Hw.
    unfold Dispatcher.max_workers in Hw. split; lia.
  - intros site d Hin. pose proof (Hpos (site, d) Hin) as Hd. cbn [snd] in Hd.
    split; [exact Hd|].
    intros start c Hc. apply wait_cut_short; assumption.
Qed.

End CancellationClaim.

Lemma cancellation_closes_guard_and_cuts_waits_witness :
  (forall r : Z,
     Forall (fun k => 0 <= Trace.sample k <= 1)%Q
       (Trace.ticks (Inputs.failing_with Inputs.throttled))) /\
  (forall r : Z, 0 <= 1 # 2 <= 1)%Q /\
  (forall a,
     In a (Worker.attempts
             (fst (Worker._call_with_backoff
                     (Thread.thread_env Inputs.wide_limits
                        (fun p => Z.of_nat (String.length p)) true 7 "u-7"
                        Inputs.chat (fun r => 2 <=? r)
                        (fun _ => Inputs.failing_with Inputs.throttled)
                        (fun _ => Inputs.empty_state) (fun _ => 1 # 2))
                     7 "u-7" 5))) ->
     a < 2) /\
  (Schedule.acquisitions Schedule.ten_enter <= 30)%nat.
Proof.
  assert (H1 : forall r : Z,
             Forall (fun k => 0 <= Trace.sample k <= 1)%Q
               (Trace.ticks (Inputs.failing_with Inputs.throttled))).
  { intro r. cbn. constructor; [|constructor]. cbn. lra. }
  assert (H2 : forall r : Z, (0 <= 1 # 2 <= 1)%Q) by (intro r; lra).
  pose proof (cancellation_closes_guard_and_cuts_waits Inputs.wide_limits
                (fun p => Z.of_nat (String.length p)) true 7 "u-7"
                Inputs.chat (fun r => 2 <=? r)
                (fun _ => Inputs.failing_with Inputs.throttled)
                (fun _ => Inputs.empty_state) (fun _ => 1 # 2) 5 H1 H2) as H.
  destruct H as (Hguard & _ & Hpool & _).
  split; [exact H1|]. split; [exact H2|]. split.
  - intros a Ha. apply (Hguard 2 ltac:(lia) eq_refl a Ha).
  - assert (R : Pool.reachable 30
                  {| Pool.permits := 10; Pool.stop_flag := true;
                     Pool.phases := repeat Pool.WaitingSlot 30;
                     Pool.entered := 30 |}).
    { exists Schedule.thirty_then_flag. vm_compute. reflexivity. }
    destruct (Hpool 30%nat _ Schedule.ten_enter
                {| Pool.permits := 0; Pool.stop_flag := true;
                   Pool.phases := repeat Pool.InAttempt 10
                                  ++ repeat Pool.WaitingSlot 20;
                   Pool.entered := 30 |} R eq_refl) as [Ha Hb].
    + vm_compute. reflexivity.
    + lia.
Defined.

(** ** Submission *)

Section SubmissionFacts.
Import Trace Dispatcher.

Lemma map_fst_combine_prefix {A B} (l : list A) (l' : list B) :
  map fst (combine l l') = firstn (List.length l') l.
Proof.
  revert l'. induction l as [|x l IH]; intros [|y l']; cbn; try reflexivity.
  f_equal. apply IH.
Qed.

Lemma map_snd_combine_prefix {A B} (l : list A) (l' : list B) :
  map snd (combine l l') = firstn (List.length l) l'.
Proof.
  revert l'. induction l as [|x l IH]; intros [|y l']; cbn; try reflexivity.
  f_equal. apply IH.
Qed.

Lemma combine_min_prefix {A B} (l : list A) (l' : list B) :
  let k := Nat.min (List.length l) (List.length l') in
  combine l l' = combine (firstn k l) (firstn k l').
Proof.
  revert l'. induction l as [|x l IH]; intros [|y l']; cbn; try reflexivity.
  f_equal. apply IH.
Qed.

(** C10.  [run_parallel_prompt_tasks] submits one worker per pair of
    [zip(uuids, messages)]: exactly [min(len(uuids), len(messages))] of
    them, numbered from 0, the i-th for the i-th uuid and the i-th message,
    the surplus of the longer list being dropped without an error; the
    total of the progress bar is [len(messages)]. *)
Theorem submission_truncates (uuids : list string) (messages : list message) :
  let d := run_parallel_prompt_tasks uuids messages in
  let k := Nat.min (List.length uuids) (List.length messages) in
  List.length (submitted d) = k /\
  map fst (submitted d) = seq 0 k /\
  map snd (submitted d) = combine (firstn k uuids) (firstn k messages) /\
  total_tasks d = List.length messages.
Proof.
  intros d k. subst d k.
  cbn [run_parallel_prompt_tasks submitted total_tasks].
  unfold submit_all, enumerate, zip, task.
  set (pairs := combine uuids messages).
  assert (Hlen : List.length pairs
                 = Nat.min (List.length uuids) (List.length messages))
    by apply length_combine.
  assert (Hseq : List.length (seq 0 (List.length pairs))
                 = List.length pairs) by apply length_seq.
  repeat split.
  - rewrite length_combine, Hseq, Nat.min_id. exact Hlen.
  - rewrite map_fst_combine_prefix. rewrite <- Hseq at 1.
    rewrite firstn_all, Hlen. reflexivity.
  - rewrite map_snd_combine_prefix, Hseq, firstn_all.
    apply combine_min_prefix.
Qed.

End SubmissionFacts.

(** ** Idempotent dedup *)

Section DedupFacts.
Import Trace Blueprint.

Variable system_prompt : string.
Variable _load_message_prompt : string -> string.

Lemma isin_In (x : string) (values : list string) :
  isin x values = true <-> In x values.
Proof.
  unfold isin. rewrite existsb_exists. split.
  - intros (y & Hy & E). apply String.eqb_eq in E. subst. exact Hy.
  - intro H. exists x. split; [exact H|apply String.eqb_refl].
Qed.

Lemma slice_to_prefix {A} (l : list A) (k : Z) :
  exists n, Py.slice_to l k = firstn n l.
Proof. unfold Py.slice_to. destruct (k <? 0); eexists; reflexivity. Qed.

Lemma In_prefix {A} (n : nat) (l : list A) (x : A) :
  In x (firstn n l) -> In x l.
Proof.
  intro H. rewrite <- (firstn_skipn n l). apply in_or_app. left. exact H.
Qed.

(** C9, as stated, fails: with [--sample-size 1] and nothing stored yet,
    only the first of three loaded narratives is passed to
    [run_parallel_prompt_tasks], not all those absent from the store. *)
Lemma dedup_sample_counterexample :
  fst (_compose_blueprint_messages "s" (fun n => n) [] Inputs.three_rows)
    = ["a"; "b"; "c"]%string /\
  fst (run_blueprint_analysis "s" (fun n => n) [] Inputs.three_rows (Some 1))
    = ["a"]%string /\
  run_blueprint_analysis "s" (fun n => n) [] Inputs.three_rows (Some 1)
    <> _compose_blueprint_messages "s" (fun n => n) [] Inputs.three_rows.
Proof.
  repeat split. intro H. vm_compute in H. discriminate H.
Qed.

(** C9, amended.  [_compose_blueprint_messages] returns exactly the loaded
    narratives whose uuid is not among the uuids the storage collaborator
    returned, in their original order, as a list of uuids and a list of
    messages.  [run_blueprint_analysis] passes these lists to
    [run_parallel_prompt_tasks] unchanged when no sample size is given (or
    it is 0), and otherwise the slices [[:sample_size]] of both; in every
    case no uuid that is already stored is passed. *)
Theorem dedup_filter (collected : list string) (narratives : list row)
    (sample_size : option Z) :
  let kept := filter (fun r => negb (isin (uuid r) collected)) narratives in
  let message_of := fun r =>
    [("system", system_prompt);
     ("user", _load_message_prompt (narrative r))]%string in
  let composed :=
    _compose_blueprint_messages system_prompt _load_message_prompt
      collected narratives in
  let passed :=
    run_blueprint_analysis system_prompt _load_message_prompt
      collected narratives sample_size in
  composed = (map uuid kept, map message_of kept) /\
  (forall r, In r kept <-> In r narratives /\ ~ In (uuid r) collected) /\
  passed
    = match sample_size with
      | None => composed
      | Some k =>
          if k =? 0 then composed
          else (Py.slice_to (fst composed) k, Py.slice_to (snd composed) k)
      end /\
  (exists n m, fst passed = firstn n (map uuid kept) /\
               snd passed = firstn m (map message_of kept)) /\
  (forall u, In u (fst passed) -> ~ In u collected).
Proof.
  intros kept message_of composed passed.
  assert (Hc : composed = (map uuid kept, map message_of kept)) by reflexivity.
  assert (Hkept : forall r, In r kept <->
                            In r narratives /\ ~ In (uuid r) collected).
  { intro r. subst kept. rewrite filter_In, negb_true_iff.
    rewrite <- isin_In. destruct (isin (uuid r) collected); intuition congruence. }
  assert (Hp : passed
               = match sample_size with
                 | None => composed
                 | Some k =>
                     if k =? 0 then composed
                     else (Py.slice_to (fst composed) k,
                           Py.slice_to (snd composed) k)
                 end).
  { subst passed. unfold run_blueprint_analysis. fold composed.
    rewrite Hc. cbn [fst snd]. destruct sample_size as [k|]; reflexivity. }
  assert (Hpre : exists n m, fst passed = firstn n (map uuid kept) /\
                             snd passed = firstn m (map message_of kept)).
  { rewrite Hp, Hc. cbn [fst snd].
    destruct sample_size as [k|]; [destruct (k =? 0)|].
    - exists (List.length (map uuid kept)), (List.length (map message_of kept)).
      cbn [fst snd]. rewrite !firstn_all. split; reflexivity.
    - destruct (slice_to_prefix (map uuid kept) k) as [n Hn].
      destruct (slice_to_prefix (map message_of kept) k) as [m Hm].
      exists n, m. cbn [fst snd]. split; assumption.
    - exists (List.length (map uuid kept)), (List.length (map message_of kept)).
      cbn [fst snd]. rewrite !firstn_all. split; reflexivity. }
  split; [exact Hc|]. split; [exact Hkept|]. split; [exact Hp|].
  split; [exact Hpre|].
  intros u Hu. destruct Hpre as (n & m & Hn & _). rewrite Hn in Hu.
  apply In_prefix in Hu. apply in_map_iff in Hu.
  destruct Hu as (r & <- & Hr). apply Hkept in Hr. tauto.
Qed.

End DedupFacts.

(* ===================================================================== *)
(** * Further properties of the quota tracker *)
(* ===================================================================== *)

Section QuotaDecision.
Import Quota.

Variable lim : model_limits.

Lemma py_max_ge_l (a b : Q) : (a <= Py.max a b)%Q.
Proof.
  unfold Py.max. destruct (Py.Qltb a b) eqn:E; [|lra].
  apply Qltb_lt in E. lra.
Qed.

Lemma py_max_ge_r (a b : Q) : (b <= Py.max a b)%Q.
Proof.
  unfold Py.max. destruct (Py.Qltb a b) eqn:E; [lra|].
  apply Qltb_ge in E. exact E.
Qed.

Lemma py_max_le (a b c : Q) : (a <= c)%Q -> (b <= c)%Q -> (Py.max a b <= c)%Q.
Proof. intros Ha Hb. unfold Py.max. destruct (Py.Qltb a b); assumption. Qed.

(** On pruned lists the wait is zero exactly when neither limit is at
    risk. *)
Lemma wait_zero_iff (now : Q) (st : model_state) (E : Z) :
  let st' := prune now st in
  (wait_time_of lim now st' E == 0)%Q <->
  rpm_at_risk lim (request_timestamps st') = false /\
  tpm_at_risk lim (token_usage_log st') E = false.
Proof.
  cbn zeta. unfold wait_time_of. cbn [prune request_timestamps token_usage_log].
  pose proof (request_wait_pos now (request_timestamps st)) as Hr.
  pose proof (token_wait_pos now (token_usage_log st)) as Ht.
  destruct (rpm_at_risk _ _), (tpm_at_risk _ _ _).
  - split; [|intros [H _]; discriminate].
    intro H. pose proof (py_max_ge_r (Py.max 0 (request_wait now
      (prune_requests now (request_timestamps st))))
      (token_wait now (prune_usage now (token_usage_log st)))). lra.
  - split; [|intros [H _]; discriminate].
    intro H. rewrite py_max_zero_pos in H by assumption. lra.
  - split; [|intros [_ H]; discriminate].
    intro H. rewrite py_max_zero_pos in H by assumption. lra.
  - split; [intros _; split; reflexivity|intros _; reflexivity].
Qed.

Lemma request_wait_le (now : Q) (ts : list Q) :
  Forall (fun t => t <= now)%Q ts -> (request_wait now ts <= 60)%Q.
Proof.
  intro H. unfold request_wait. destruct ts as [|t ts]; [lra|].
  inversion H; subst. lra.
Qed.

Lemma token_wait_le (now : Q) (log : list usage) :
  Forall (fun e => u_time e <= now)%Q log -> (token_wait now log <= 60)%Q.
Proof.
  intro H. unfold token_wait. destruct log as [|e log]; [lra|].
  inversion H; subst. lra.
Qed.

Lemma Forall_filter {A} (P : A -> Prop) (f : A -> bool) (l : list A) :
  Forall P l -> Forall P (filter f l).
Proof.
  intro H. apply Forall_forall. intros x Hx. apply filter_In in Hx.
  rewrite Forall_forall in H. apply H. tauto.
Qed.

(** X1.  When no recorded event lies in the future of the clock reading,
    the enforced wait of a decision is between 0 and 60 seconds, and it is
    0 exactly when the request count is below the RPM limit and the
    aggregate does not exceed the TPM limit. *)
Theorem wait_between_zero_and_sixty (now : Q) (st : model_state) (E : Z) :
  Forall (fun t => t <= now)%Q (request_timestamps st) ->
  Forall (fun e => u_time e <= now)%Q (token_usage_log st) ->
  let w := fst (wait_decision lim now st E) in
  let st' := snd (wait_decision lim now st E) in
  (0 <= w <= 60)%Q /\
  ((w == 0)%Q <->
   Z.of_nat (List.length (request_timestamps st')) < max_requests_per_min lim /\
   agg_tokens (token_usage_log st') E <= max_tokens_per_min lim).
Proof.
  intros Hts Hlog w st'. subst w st'. cbn [wait_decision fst snd].
  split.
  - split; [apply wait_time_nonneg|].
    unfold wait_time_of. cbn [prune request_timestamps token_usage_log].
    pose proof (request_wait_le now _
                  (Forall_filter _ (fun t => recent now t) _ Hts)) as Hr.
    pose proof (token_wait_le now _
                  (Forall_filter _ (fun e => recent now (u_time e)) _ Hlog))
      as Ht.
    fold (prune_requests now (request_timestamps st)) in Hr.
    fold (prune_usage now (token_usage_log st)) in Ht.
    destruct (rpm_at_risk _ _), (tpm_at_risk _ _ _);
      repeat apply py_max_le; lra.
  - rewrite wait_zero_iff. unfold rpm_at_risk, tpm_at_risk.
    rewrite Z.leb_gt, Z.ltb_ge. reflexivity.
Qed.

Lemma filter_filter_weaker {A} (f g : A -> bool) (l : list A) :
  (forall x, g x = true -> f x = true) ->
  filter g (filter f l) = filter g l.
Proof.
  intro H. induction l as [|x l IH]; [reflexivity|].
  cbn [filter]. destruct (f x) eqn:Ef.
  - cbn [filter]. rewrite IH. reflexivity.
  - rewrite IH. destruct (g x) eqn:Eg; [|reflexivity].
    apply H in Eg. congruence.
Qed.

Lemma recent_later (t1 t2 t : Q) :
  (t1 <= t2)%Q -> recent t2 t = true -> recent t1 t = true.
Proof. intros Hle H. apply recent_iff in H. apply recent_iff. lra. Qed.

(** X2.  Pruning composes: pruning at a time and then at a later time
    leaves the lists that pruning at the later time alone leaves; in
    particular pruning twice at the same time changes nothing more. *)
Theorem prune_then_prune_later (t1 t2 : Q) (st : model_state) :
  (t1 <= t2)%Q -> prune t2 (prune t1 st) = prune t2 st.
Proof.
  intro Hle. unfold prune. cbn [request_timestamps token_usage_log].
  unfold prune_requests, prune_usage.
  rewrite !filter_filter_weaker; [reflexivity| |];
    intros x Hx; eapply recent_later; eassumption.
Qed.

Lemma prune_then_prune_later_witness :
  prune 70 (prune 61 {| request_timestamps := [0; 10; 20]%Q;
                        token_usage_log := [] |})
  = prune 70 {| request_timestamps := [0; 10; 20]%Q; token_usage_log := [] |}.
Proof.
  apply prune_then_prune_later. lra.
Defined.

Lemma filter_length_le {A} (f : A -> bool) (l : list A) :
  (List.length (filter f l) <= List.length l)%nat.
Proof.
  induction l as [|x l IH]; [apply Nat.le_refl|].
  cbn [filter]. destruct (f x); cbn [List.length]; lia.
Qed.

Lemma wait_ge_request_wait (now : Q) (st : model_state) (E : Z) :
  rpm_at_risk lim (request_timestamps st) = true ->
  (request_wait now (request_timestamps st) <= wait_time_of lim now st E)%Q.
Proof.
  intro H. unfold wait_time_of. rewrite H.
  destruct (tpm_at_risk _ _ _).
  - eapply Qle_trans; [apply py_max_ge_r|apply py_max_ge_l].
  - apply py_max_ge_r.
Qed.

(** X3.  The enforced wait is long enough for the request quota: when a
    decision finds the request window full (with at most RPM entries in it
    and RPM at least 1), then at any time at least the enforced wait later
    the oldest request has left the window and, unless another request was
    recorded meanwhile, the request count is below the limit again. *)
Theorem request_slot_free_after_wait (now now2 : Q) (st : model_state) (E : Z) :
  let w := fst (wait_decision lim now st E) in
  let ts := request_timestamps (snd (wait_decision lim now st E)) in
  1 <= max_requests_per_min lim ->
  Z.of_nat (List.length ts) <= max_requests_per_min lim ->
  rpm_at_risk lim ts = true ->
  (now + w <= now2)%Q ->
  rpm_at_risk lim (prune_requests now2 ts) = false.
Proof.
  intros w ts Hrpm Hlen Hrisk Hlater. subst w ts.
  cbn [wait_decision fst snd] in *.
  pose proof (wait_ge_request_wait now (prune now st) E Hrisk) as Hw.
  set (ts := request_timestamps (prune now st)) in *.
  unfold rpm_at_risk in *. apply Z.leb_le in Hrisk. apply Z.leb_gt.
  destruct ts as [|t0 rest]; [cbn in Hrisk; lia|].
  cbn [request_wait] in Hw.
  assert (Hgone : recent now2 t0 = false).
  { destruct (recent now2 t0) eqn:Er; [|reflexivity].
    apply recent_iff in Er. lra. }
  unfold prune_requests. cbn [filter]. rewrite Hgone.
  pose proof (filter_length_le (fun t => recent now2 t) rest).
  cbn [List.length] in Hlen. lia.
Qed.

End QuotaDecision.

Lemma wait_between_zero_and_sixty_witness :
  (0 <= fst (Quota.wait_decision Inputs.tight_limits 10 Inputs.two_events 0)
   <= 60)%Q.
Proof.
  assert (H1 : Forall (fun t => t <= 10)%Q
                 (Quota.request_timestamps Inputs.two_events)) by constructor.
  assert (H2 : Forall (fun e => Quota.u_time e <= 10)%Q
                 (Quota.token_usage_log Inputs.two_events)).
  { repeat constructor; cbn; lra. }
  exact (proj1 (wait_between_zero_and_sixty Inputs.tight_limits 10
                  Inputs.two_events 0 H1 H2)).
Defined.

Lemma request_slot_free_after_wait_witness :
  Quota.rpm_at_risk Inputs.two_per_minute
    (Quota.prune_requests 60
       (Quota.request_timestamps
          (snd (Quota.wait_decision Inputs.two_per_minute 30
                  Inputs.two_requests 10)))) = false.
Proof.
  apply (request_slot_free_after_wait Inputs.two_per_minute 30 60
           Inputs.two_requests 10).
  - cbn. lia.
  - cbn. lia.
  - reflexivity.
  - vm_compute. discriminate.
Defined.

Section QuotaLoop.
Import Quota Trace.

Variable lim : model_limits.
Variable estimated_tokens : Z.
Variable pbar : bool.

Local Abbreviation enforce ticks st :=
  (_enforce_rate_limits lim estimated_tokens pbar ticks st).

(** X4.  The quota loop lets a call through only inside the quota: when it
    reaches [break], the request list it leaves is the pruned window of
    that iteration followed by the admission time, it has at most RPM
    entries, every entry but the new one is younger than 60 seconds, and
    the aggregate of the token log it leaves does not exceed TPM. *)
Theorem admission_within_quota (ticks : list tick) (st : model_state) :
  snd (enforce ticks st) = true ->
  let st' := snd (fst (enforce ticks st)) in
  Z.of_nat (List.length (request_timestamps st')) <= max_requests_per_min lim /\
  agg_tokens (token_usage_log st') estimated_tokens <= max_tokens_per_min lim /\
  exists k window,
    In k ticks /\
    request_timestamps st' = window ++ [now' k] /\
    (forall t, In t window -> (now k - t < 60)%Q).
Proof.
  revert st. induction ticks as [|k ticks IH]; intro st; [discriminate|].
  cbn [_enforce_rate_limits]. unfold wait_decision.
  set (st1 := prune (now k) (others k st)).
  destruct (Qeq_bool (wait_time_of lim (now k) st1 estimated_tokens) 0) eqn:Hz.
  - intros _. cbn [fst snd record_request request_timestamps token_usage_log].
    apply Qeq_bool_iff in Hz. apply wait_zero_iff in Hz.
    destruct Hz as [Hr Ht]. fold st1 in Hr, Ht.
    unfold rpm_at_risk in Hr. unfold tpm_at_risk in Ht.
    apply Z.leb_gt in Hr. apply Z.ltb_ge in Ht.
    split; [rewrite length_app; cbn [List.length]; lia|].
    split; [exact Ht|].
    exists k, (request_timestamps st1). split; [left; reflexivity|].
    split; [reflexivity|].
    intros t Hin. subst st1. cbn [prune request_timestamps] in Hin.
    apply prune_requests_In in Hin. tauto.
  - specialize (IH st1).
    destruct (_enforce_rate_limits lim estimated_tokens pbar ticks st1)
      as [[rest st'] fin].
    cbn [fst snd] in *. intro Hfin.
    destruct (IH Hfin) as (H1 & H2 & k' & window & Hin & Heq & Hw).
    split; [exact H1|]. split; [exact H2|].
    exists k', window. split; [right; exact Hin|]. split; assumption.
Qed.

(** X5.  A call the quota can never admit waits for ever: when the RPM
    limit is not positive, or when the token log is empty, stays empty and
    the estimate plus the default buffer of 1000 exceeds the TPM limit, the
    quota loop never reaches [break], however many iterations it is given
    and whatever the clock reads, and it records no request. *)
Theorem oversized_call_never_admitted (ticks : list tick) (st : model_state) :
  max_requests_per_min lim <= 0 \/
  (max_tokens_per_min lim < estimated_tokens + AVERAGE_TOKEN_USAGE /\
   token_usage_log st = [] /\
   Forall (fun k => forall s, token_usage_log (others k s) = token_usage_log s)
     ticks) ->
  snd (enforce ticks st) = false /\
  map fst (Thread.waits (fst (fst (enforce ticks st))))
    = repeat quota_wait (List.length ticks).
Proof.
  intro H. revert st H.
  induction ticks as [|k ticks IH]; intros st H; [split; reflexivity|].
  cbn [_enforce_rate_limits]. unfold wait_decision.
  set (st1 := prune (now k) (others k st)).
  assert (Hrisk : rpm_at_risk lim (request_timestamps st1) = true \/
                  tpm_at_risk lim (token_usage_log st1) estimated_tokens = true).
  { destruct H as [Hrpm|(Htpm & Hlog & Hoth)].
    - left. unfold rpm_at_risk. apply Z.leb_le. lia.
    - right. unfold tpm_at_risk. apply Z.ltb_lt.
      inversion Hoth as [|? ? Hk _]; subst.
      subst st1. cbn [prune token_usage_log]. rewrite Hk, Hlog.
      unfold agg_tokens, tokens_used, _get_average_completion_tokens, Py.sum.
      cbn. unfold AVERAGE_TOKEN_USAGE in *. lia. }
  destruct (Qeq_bool (wait_time_of lim (now k) st1 estimated_tokens) 0) eqn:Hz.
  { exfalso. apply Qeq_bool_iff in Hz. apply wait_zero_iff in Hz.
    fold st1 in Hz. destruct Hz as [Hr Ht], Hrisk; congruence. }
  assert (Hnext :
    max_requests_per_min lim <= 0 \/
    (max_tokens_per_min lim < estimated_tokens + AVERAGE_TOKEN_USAGE /\
     token_usage_log st1 = [] /\
     Forall (fun k => forall s, token_usage_log (others k s) = token_usage_log s)
       ticks)).
  { destruct H as [Hrpm|(Htpm & Hlog & Hoth)]; [left; exact Hrpm|right].
    inversion Hoth as [|? ? Hk Hrest]; subst.
    split; [exact Htpm|]. split; [|exact Hrest].
    subst st1. cbn [prune token_usage_log]. rewrite Hk, Hlog. reflexivity. }
  destruct (IH st1 Hnext) as [Hfin Hw].
  destruct (_enforce_rate_limits lim estimated_tokens pbar ticks st1)
    as [[rest st'] fin].
  cbn [fst snd] in *. split; [exact Hfin|].
  rewrite !waits_app, waits_postfix, waits_description.
  cbn [app Thread.waits flat_map map List.length repeat].
  fold (Thread.waits rest). rewrite Hw. reflexivity.
Qed.

End QuotaLoop.

Lemma admission_within_quota_witness :
  snd (Trace._enforce_rate_limits Inputs.wide_limits 10 true
         [Inputs.quiet_tick] Inputs.empty_state) = true /\
  Z.of_nat (List.length
              (Quota.request_timestamps
                 (snd (fst (Trace._enforce_rate_limits Inputs.wide_limits 10
                              true [Inputs.quiet_tick] Inputs.empty_state)))))
    <= 500.
Proof.
  assert (H : snd (Trace._enforce_rate_limits Inputs.wide_limits 10 true
                     [Inputs.quiet_tick] Inputs.empty_state) = true)
    by reflexivity.
  split; [exact H|].
  exact (proj1 (admission_within_quota Inputs.wide_limits 10 true
                  [Inputs.quiet_tick] Inputs.empty_state H)).
Defined.

Lemma oversized_call_never_admitted_witness :
  snd (Trace._enforce_rate_limits Inputs.tight_limits 10 true
         Inputs.two_quiet_ticks Inputs.empty_state) = false.
Proof.
  apply (oversized_call_never_admitted Inputs.tight_limits 10 true
           Inputs.two_quiet_ticks Inputs.empty_state).
  right. split; [cbn; lia|]. split; [reflexivity|].
  repeat constructor.
Defined.

Section AverageBounds.
Import Quota.

Lemma sum_between (lo hi : Z) (l : list Z) :
  Forall (fun c => lo <= c <= hi) l ->
  Z.of_nat (List.length l) * lo <= fold_right Z.add 0 l
    <= Z.of_nat (List.length l) * hi.
Proof.
  induction 1 as [|c l Hc Hl IH]; [cbn; lia|].
  cbn [fold_right List.length]. lia.
Qed.

(** X6.  The response buffer lies between the smallest and the largest
    completion count of the log: for a non-empty log whose completion
    counts all lie between [lo] and [hi], with [lo] not negative,
    [_get_average_completion_tokens] returns a value between [lo] and
    [hi]; on an empty log it returns 1000. *)
Theorem average_between_extremes (log : list usage) (lo hi : Z) :
  log <> [] -> 0 <= lo ->
  Forall (fun e => lo <= u_completion e <= hi) log ->
  lo <= _get_average_completion_tokens log <= hi /\
  _get_average_completion_tokens [] = 1000.
Proof.
  intros Hne Hlo Hall. split; [|reflexivity].
  unfold _get_average_completion_tokens.
  destruct log as [|e log]; [congruence|].
  set (cs := map u_completion (e :: log)).
  assert (Hcs : Forall (fun c => lo <= c <= hi) cs).
  { subst cs. apply Forall_forall. intros c Hc. apply in_map_iff in Hc.
    destruct Hc as (x & <- & Hx). rewrite Forall_forall in Hall. auto. }
  pose proof (sum_between lo hi cs Hcs) as Hsum.
  unfold Py.int_div. rewrite py_sum_fold_right.
  set (n := Z.of_nat (List.length cs)) in *.
  assert (Hn : 0 < n) by (subst n cs; cbn [map List.length]; lia).
  assert (Hs : 0 <= fold_right Z.add 0 cs) by nia.
  rewrite Z.quot_div_nonneg by lia.
  split.
  - apply Z.div_le_lower_bound; lia.
  - apply Z.div_le_upper_bound; lia.
Qed.

End AverageBounds.

Lemma average_between_extremes_witness :
  1 <= Quota._get_average_completion_tokens
         (Quota.token_usage_log Inputs.two_events) <= 2.
Proof.
  apply (average_between_extremes (Quota.token_usage_log Inputs.two_events) 1 2).
  - discriminate.
  - lia.
  - repeat constructor; cbn; lia.
Defined.

(* ===================================================================== *)
(** * Further properties of the retry loop *)
(* ===================================================================== *)

Section RetryShape.
Import Quota Trace Worker.

Variable env : worker_env.
Variable request_id : Z.
Variable uuid : string.
Variable max_retries : Z.

Local Abbreviation loop fuel loc :=
  (backoff_loop fuel env request_id uuid max_retries loc).

Lemma loop_shape (fuel : nat) (loc : locals) :
  exists k : nat,
    attempts (fst (loop fuel loc)) = Py.range (retry_count loc) k /\
    Z.of_nat k <= Z.max 0 (max_retries + 1 - retry_count loc) /\
    (List.length (backoffs (fst (loop fuel loc))) <= k)%nat /\
    (List.length (logged (fst (loop fuel loc))) <= 1)%nat.
Proof.
  revert loc. induction fuel as [|fuel IH]; intro loc; cbn [backoff_loop].
  - exists 0%nat. destruct (negb _ && _); cbn; repeat split; lia.
  - destruct (negb _ && _) eqn:Hc;
      [|exists 0%nat; cbn; repeat split; lia].
    apply andb_true_iff in Hc. destruct Hc as [_ Hle]. apply Z.leb_le in Hle.
    destruct (tr_result (attempt env (retry_count loc))) as [|e tb|];
      [| destruct (is_rate_limit e) |].
    2: { cbn [retry_count e_rate_limit].
         match goal with
         | |- context [backoff_loop fuel env request_id uuid max_retries ?l] =>
             specialize (IH l);
             destruct (backoff_loop fuel env request_id uuid max_retries l)
               as [rest x]
         end.
         cbn [fst retry_count] in *. destruct IH as (k & Ha & Hk & Hb & Hl).
         exists (S k). unfold attempts, backoffs, logged in *.
         cbn [flat_map app Py.range List.length].
         rewrite Ha. repeat split; try reflexivity; lia. }
    all: exists 1%nat; cbn; repeat split; lia.
Qed.

(** X7.  Whatever the remote service and the stop flag do, one call of
    [_call_with_backoff] makes its attempts with the retry counts 0, 1, 2,
    ... in order, at most [max_retries + 1] of them (none when
    [max_retries] is negative), waits for a backoff at most once per
    attempt and writes at most one entry to the log. *)
Theorem attempts_consecutive_and_bounded :
  let steps := fst (_call_with_backoff env request_id uuid max_retries) in
  exists k : nat,
    attempts steps = Py.range 0 k /\
    Z.of_nat k <= Z.max 0 (max_retries + 1) /\
    (List.length (backoffs steps) <= k)%nat /\
    (List.length (logged steps) <= 1)%nat.
Proof.
  cbn zeta. unfold _call_with_backoff.
  set (loc0 := {| retry_count := 0; e_rate_limit := None |}).
  destruct (loop_shape (Z.to_nat (max_retries + 1)) loc0)
    as (k & Ha & Hk & Hb & Hl).
  cbn [retry_count loc0] in Ha, Hk. rewrite Z.sub_0_r in Hk.
  exists k.
  destruct (backoff_loop _ _ _ _ _ loc0) as [steps [loc'|x]] eqn:E;
    cbn [fst] in *.
  - assert (Hnone : e_rate_limit loc' = None)
      by (eapply loop_exit_unbound; [|exact E]; reflexivity).
    unfold after_loop. rewrite Hnone.
    destruct (_ <? _); cbn [fst]; unfold attempts, backoffs, logged in *;
      rewrite !flat_map_app; cbn [flat_map app]; rewrite ?app_nil_r;
      repeat split; assumption.
  - repeat split; assumption.
Qed.

(** X8.  Two ways to make no attempt at all.  A call whose first check of
    the guard finds the stop flag set does nothing and returns.  A call
    with a negative [max_retries] never enters the loop either, but takes
    the exceeded-retries branch: it sets the [FAILED] description and ends
    with UnboundLocalError, without a log entry. *)
Theorem calls_without_attempt :
  (is_set env 0 = true -> 0 <= max_retries ->
   _call_with_backoff env request_id uuid max_retries = ([], ReturnNone)) /\
  (max_retries < 0 ->
   _call_with_backoff env request_id uuid max_retries
     = ([Describe (Failed request_id)], Propagate UnboundLocalError)).
Proof.
  unfold _call_with_backoff. split.
  - intros Hset Hmr.
    rewrite (loop_guard_fails env request_id uuid max_retries) by (left; exact Hset).
    unfold after_loop. cbn [retry_count].
    assert (E : (max_retries <? 0) = false) by (apply Z.ltb_ge; lia).
    rewrite E. reflexivity.
  - intro Hmr.
    rewrite (loop_guard_fails env request_id uuid max_retries)
      by (right; cbn; lia).
    unfold after_loop. cbn [retry_count e_rate_limit].
    assert (E : (max_retries <? 0) = true) by (apply Z.ltb_lt; lia).
    rewrite E. reflexivity.
Qed.

End RetryShape.

Section RetryOutcome.
Import Quota Trace Worker Thread.

Variable lim : model_limits.
Variable _estimate_tokens : string -> Z.
Variable pbar : bool.
Variable request_id : Z.
Variable uuid : string.
Variable msg : message.
Variable flag : Z -> bool.
Variable aenv : Z -> attempt_env.
Variable seen : Z -> model_state.
Variable jitter : Z -> Q.
Variable max_retries : Z.

Local Abbreviation env :=
  (thread_env lim _estimate_tokens pbar request_id uuid msg flag aenv seen
     jitter).

Lemma try_block_completed_stores (a : attempt_env) (st : model_state) :
  let run := fst (try_block lim _estimate_tokens pbar request_id uuid msg a st) in
  tr_result run = Completed -> stored (tr_events run) = [uuid].
Proof.
  unfold try_block.
  destruct (nth_error msg 0) as [[role0 system_prompt]|]; [|discriminate].
  destruct (nth_error msg 1) as [[role1 user_prompt]|]; [|discriminate].
  pose proof (stored_enforce lim pbar
    (_estimate_tokens (system_prompt ++ nl ++ user_prompt)%string)
    (ticks a) st) as Henf.
  destruct (_enforce_rate_limits _ _ _ _ _) as [[ev2 st1] fin].
  cbn [fst] in Henf.
  destruct fin; [|discriminate].
  destruct (api a) as [r|[e tb]]; [|discriminate].
  destruct (store_fault a) as [[e tb]|]; [discriminate|].
  cbn [fst tr_events tr_result]. intros _.
  rewrite !stored_app, stored_description, Henf. reflexivity.
Qed.

Lemma stored_events_app (a b : list step) :
  stored (events_of pbar (a ++ b))
    = stored (events_of pbar a) ++ stored (events_of pbar b).
Proof. unfold events_of. rewrite flat_map_app. apply stored_app. Qed.

Lemma logged_app (a b : list step) : logged (a ++ b) = logged a ++ logged b.
Proof. unfold logged. apply flat_map_app. Qed.

Lemma loop_outcome (fuel : nat) (loc : locals) :
  let run := backoff_loop fuel env request_id uuid max_retries loc in
  match snd run with
  | LoopReturn x => Outcome.outcome_of pbar uuid x (fst run)
  | LoopExit _ =>
      stored (events_of pbar (fst run)) = [] /\ logged (fst run) = []
  end.
Proof.
  revert loc. induction fuel as [|fuel IH]; intro loc; cbn [backoff_loop].
  - destruct (negb _ && _); cbn; split; reflexivity.
  - destruct (negb _ && _); [|cbn; split; reflexivity].
    pose proof (try_block_completed_stores (aenv (retry_count loc))
                  (seen (retry_count loc))) as Hdone.
    pose proof (try_block_stores_on_completion lim _estimate_tokens pbar
                  request_id uuid msg (aenv (retry_count loc))
                  (seen (retry_count loc))) as Hnot.
    cbn zeta in Hdone, Hnot. cbn [attempt thread_env].
    destruct (tr_result (fst (try_block lim _estimate_tokens pbar request_id
                                uuid msg (aenv (retry_count loc))
                                (seen (retry_count loc)))))
      as [|e tb|] eqn:Hres.
    + cbn [fst snd Outcome.outcome_of]. rewrite stored_events_of.
      cbn. rewrite app_nil_r. split; [apply Hdone; reflexivity|reflexivity].
    + assert (Hs : stored (tr_events (fst (try_block lim _estimate_tokens pbar
                     request_id uuid msg (aenv (retry_count loc))
                     (seen (retry_count loc))))) = [])
        by (apply Hnot; discriminate).
      destruct (is_rate_limit e) eqn:Hrl.
      * cbn [retry_count e_rate_limit].
        match goal with
        | |- context [backoff_loop fuel ?ev request_id uuid max_retries ?l] =>
            specialize (IH l);
            destruct (backoff_loop fuel ev request_id uuid max_retries l)
              as [rest x]
        end.
        cbn [fst snd] in *.
        assert (Hpre : forall tail,
                  stored (events_of pbar
                    ([SemEnter; Try (retry_count loc)
                        (tr_events (fst (try_block lim _estimate_tokens pbar
                           request_id uuid msg (aenv (retry_count loc))
                           (seen (retry_count loc)))))]
                     ++ [Describe (Retry (retry_count loc) request_id);
                         Backoff (sleep_time_of (retry_count loc + 1)
                                    (jitter (retry_count loc + 1)));
                         SemExit] ++ tail))
                  = stored (events_of pbar tail)).
        { intro tail. rewrite !stored_events_app, !stored_events_of.
          cbn. rewrite Hs. reflexivity. }
        destruct x as [loc'|x].
        -- rewrite Hpre. exact IH.
        -- unfold Outcome.outcome_of in *. rewrite Hpre.
           rewrite !logged_app. cbn [logged flat_map app].
           fold (logged rest). exact IH.
      * cbn [fst snd Outcome.outcome_of]. rewrite stored_events_of.
        cbn. rewrite Hs. split; [reflexivity|].
        exists e, tb. split; [exact Hrl|reflexivity].
    + cbn [fst snd Outcome.outcome_of]. rewrite stored_events_of. cbn.
      rewrite app_nil_r. split; [apply Hnot; discriminate|reflexivity].
Qed.

(** X9.  One call, one outcome.  A call of [_call_with_backoff] stores a
    result only when it returns after [_process_response], and then exactly
    one, under the task's uuid, without a log entry; it writes a log entry
    only when it returns from the [except Exception] handler, and then
    exactly one, for an error that is not a RateLimitError, without a
    stored result; every other way of ending (stop flag, exceeded retries,
    a quota loop that is still waiting) leaves neither. *)
Theorem one_outcome_per_call :
  let run := _call_with_backoff env request_id uuid max_retries in
  Outcome.outcome_of pbar uuid (snd run) (fst run).
Proof.
  cbn zeta. unfold _call_with_backoff.
  set (loc0 := {| retry_count := 0; e_rate_limit := None |}).
  pose proof (loop_outcome (Z.to_nat (max_retries + 1)) loc0) as H.
  cbn zeta in H.
  destruct (backoff_loop _ _ _ _ _ loc0) as [steps [loc'|x]] eqn:E;
    cbn [fst snd] in *; [|exact H].
  assert (Hnone : e_rate_limit loc' = None)
    by (eapply loop_exit_unbound; [|exact E]; reflexivity).
  destruct H as [Hs Hl].
  unfold after_loop. rewrite Hnone.
  destruct (_ <? _); cbn [fst snd Outcome.outcome_of];
    rewrite stored_events_app, logged_app, Hs, Hl, stored_events_of;
    split; reflexivity.
Qed.

End RetryOutcome.

Section SlotDiscipline.
Import Quota Trace Worker Thread.

Variable lim : model_limits.
Variable _estimate_tokens : string -> Z.
Variable pbar : bool.

Lemma slot_app (held : bool) (a b : list event) :
  Slots.check held (a ++ b)
    = match Slots.check held a with
      | Some held' => Slots.check held' b
      | None => None
      end.
Proof.
  revert held. induction a as [|e a IH]; intro held; [reflexivity|].
  destruct e; try destruct site; cbn [app Slots.check];
    try destruct held; try apply IH; reflexivity.
Qed.

Lemma slot_description (held : bool) (s : status) :
  Slots.check held (_update_tqdm_description pbar s) = Some held.
Proof. destruct pbar; reflexivity. Qed.

Lemma slot_postfix (held : bool) (n : Z) :
  Slots.check held (_update_tqdm_postfix pbar n) = Some held.
Proof. destruct pbar; reflexivity. Qed.

Lemma slot_enforce (held : bool) (E : Z) (ticks : list tick)
    (st : model_state) :
  Slots.check held (fst (fst (_enforce_rate_limits lim E pbar ticks st)))
    = Some held.
Proof.
  revert st. induction ticks as [|k ticks IH]; intro st; [reflexivity|].
  cbn [_enforce_rate_limits].
  destruct (wait_decision lim (now k) (others k st) E) as [w st1].
  destruct (Qeq_bool w 0).
  - cbn [fst]. rewrite <- app_assoc. cbn [app Slots.check].
    rewrite slot_app, slot_postfix. reflexivity.
  - specialize (IH st1).
    destruct (_enforce_rate_limits lim E pbar ticks st1) as [[rest st'] fin].
    cbn [fst] in *. rewrite <- app_assoc. cbn [app Slots.check].
    rewrite slot_app, slot_postfix. cbn [app Slots.check].
    rewrite slot_app, slot_description. cbn [app Slots.check]. exact IH.
Qed.

Lemma slot_try_block (request_id : Z) (uuid : string) (msg : message)
    (aenv : attempt_env) (st : model_state) :
  Slots.check true
    (tr_events (fst (try_block lim _estimate_tokens pbar request_id uuid msg
                       aenv st))) = Some true.
Proof.
  unfold try_block.
  destruct (nth_error msg 0) as [[role0 system_prompt]|]; [|reflexivity].
  destruct (nth_error msg 1) as [[role1 user_prompt]|]; [|reflexivity].
  pose proof (slot_enforce true
    (_estimate_tokens (system_prompt ++ nl ++ user_prompt)%string)
    (ticks aenv) st) as Henf.
  destruct (_enforce_rate_limits _ _ _ _ _) as [[ev2 st1] fin].
  cbn [fst] in Henf.
  destruct fin; [destruct (api aenv) as [r|[e tb]];
                 [destruct (store_fault aenv) as [[e tb]|]|]|];
    cbn [fst tr_events]; rewrite slot_app, slot_description;
    first [exact Henf | rewrite slot_app, Henf; reflexivity].
Qed.

Lemma slot_loop (env : worker_env) (request_id : Z) (uuid : string)
    (max_retries : Z) (fuel : nat) (loc : locals) :
  (forall r, Slots.check true (tr_events (attempt env r)) = Some true) ->
  let run := backoff_loop fuel env request_id uuid max_retries loc in
  Slots.check false (events_of pbar (fst run))
    = Some match snd run with LoopReturn Hang => true | _ => false end.
Proof.
  intro Hatt. revert loc.
  induction fuel as [|fuel IH]; intro loc; cbn [backoff_loop].
  - destruct (negb _ && _); reflexivity.
  - destruct (negb _ && _); [|reflexivity].
    pose proof (Hatt (retry_count loc)) as Hbody.
    destruct (tr_result (attempt env (retry_count loc))) as [|e tb|];
      [| destruct (is_rate_limit e) |].
    2: { cbn [retry_count e_rate_limit].
         match goal with
         | |- context [backoff_loop fuel env request_id uuid max_retries ?l] =>
             specialize (IH l);
             destruct (backoff_loop fuel env request_id uuid max_retries l)
               as [rest x]
         end.
         cbn [fst snd] in *. unfold events_of in *.
         rewrite !flat_map_app. cbn [flat_map events_of_step app Slots.check].
         rewrite app_nil_r, slot_app, Hbody, slot_app, slot_app,
           slot_description.
         cbn [app Slots.check]. exact IH. }
    all: cbn [fst snd]; unfold events_of; rewrite ?flat_map_app;
      cbn [flat_map events_of_step app Slots.check];
      rewrite ?app_nil_r; try rewrite slot_app; rewrite Hbody;
      cbn [app Slots.check];
      rewrite ?slot_app, ?slot_description; reflexivity.
Qed.

(** X10.  The semaphore slot of a call.  A call never holds more than one
    slot and never releases one it does not hold; every network call and
    every backoff wait happens while the call holds its slot, so a
    throttled call keeps its slot while it sleeps; and the slot is released
    whichever way the call ends, the one exception being a call still
    inside a [try] block that has not finished. *)
Theorem slot_held_across_call_and_backoff (request_id : Z) (uuid : string)
    (msg : message) (flag : Z -> bool) (aenv : Z -> attempt_env)
    (seen : Z -> model_state) (jitter : Z -> Q) (max_retries : Z) :
  let env := thread_env lim _estimate_tokens pbar request_id uuid msg
               flag aenv seen jitter in
  let run := _call_with_backoff env request_id uuid max_retries in
  Slots.check false (events_of pbar (fst run))
    = Some match snd run with Hang => true | _ => false end.
Proof.
  intros env run. subst run. unfold _call_with_backoff.
  set (loc0 := {| retry_count := 0; e_rate_limit := None |}).
  pose proof (slot_loop env request_id uuid max_retries
                (Z.to_nat (max_retries + 1)) loc0) as H.
  cbn zeta in H.
  assert (Hatt : forall r,
            Slots.check true (tr_events (attempt env r)) = Some true)
    by (intro r; apply slot_try_block).
  specialize (H Hatt).
  destruct (backoff_loop _ _ _ _ _ loc0) as [steps [loc'|x]];
    cbn [fst snd] in *.
  - assert (Hcut : forall tail,
              Slots.check false (events_of pbar tail) = Some false ->
              Slots.check false (events_of pbar (steps ++ tail)) = Some false).
    { intros tail Ht. unfold events_of in *.
      rewrite flat_map_app, slot_app, H. exact Ht. }
    unfold after_loop.
    destruct (_ <? _); [destruct (e_rate_limit loc')|]; cbn [fst snd];
      apply Hcut; unfold events_of; cbn [flat_map events_of_step];
      rewrite ?slot_app, ?slot_description; reflexivity.
  - exact H.
Qed.

End SlotDiscipline.

Section BackoffTotal.
Import Quota Trace Worker.

Lemma pow_tail (lo : Z) (n : nat) :
  0 <= lo ->
  2 ^ (lo + 1 + Z.of_nat (S n)) - 2 ^ (lo + 1)
  = 2 ^ (lo + 1) + (2 ^ (lo + 1 + 1 + Z.of_nat n) - 2 ^ (lo + 1 + 1)).
Proof.
  intro Hlo.
  replace (lo + 1 + Z.of_nat (S n)) with (lo + 1 + 1 + Z.of_nat n) by lia.
  rewrite (Z.pow_add_r 2 (lo + 1) 1) by lia. lia.
Qed.

Lemma backoff_sum_bounds (u : Z -> Q) (lo : Z) (n : nat) :
  0 <= lo -> (forall r, 0 <= u r <= 1)%Q ->
  let total :=
    Slots.qsum (map (fun r => sleep_time_of (r + 1) (u (r + 1)))
                  (Py.range lo n)) in
  let powers := inject_Z (2 ^ (lo + 1 + Z.of_nat n) - 2 ^ (lo + 1)) in
  (powers <= total <= powers + inject_Z (Z.of_nat n) * DEFAULT_JITTER)%Q.
Proof.
  intros Hlo Hu. revert lo Hlo.
  induction n as [|n IH]; intros lo Hlo.
  - cbn [Py.range map Slots.qsum fold_right Z.of_nat].
    rewrite Z.add_0_r, Z.sub_diag. change (inject_Z 0) with 0%Q.
    unfold DEFAULT_JITTER. lra.
  - cbn [Py.range map]. cbn zeta in *. unfold Slots.qsum in *.
    cbn [fold_right]. specialize (IH (lo + 1) ltac:(lia)).
    rewrite pow_tail by exact Hlo. rewrite inject_Z_plus.
    rewrite Nat2Z.inj_succ. unfold Z.succ. rewrite inject_Z_plus.
    unfold sleep_time_of at 1 3.
    pose proof (uniform_range 0 DEFAULT_JITTER (u (lo + 1))
                  ltac:(unfold DEFAULT_JITTER; lra) (Hu _)) as Hj.
    change (inject_Z 1) with 1%Q.
    destruct IH as [IHl IHu]. split.
    + lra.
    + rewrite Qmult_plus_distr_l. lra.
Qed.

(** X11.  The time a throttled task spends in backoff.  When every attempt
    is throttled and the flag is never found set, the backoff waits of a
    call add up to [2^(max_retries + 2) - 2] seconds plus the jitters, that
    is at most [0.15 * (max_retries + 1)] seconds more: between 126 and
    126.9 seconds for the default [max_retries = 5]. *)
Theorem total_backoff_time (env : worker_env) (request_id : Z) (uuid : string)
    (max_retries : Z) :
  0 <= max_retries ->
  (forall r, is_set env r = false) ->
  (forall r, throttled_at env r) ->
  (forall r, 0 <= jitter_sample env r <= 1)%Q ->
  let total :=
    Slots.qsum
      (backoffs (fst (_call_with_backoff env request_id uuid max_retries))) in
  let powers := inject_Z (2 ^ (max_retries + 2) - 2) in
  (powers <= total
   <= powers + inject_Z (max_retries + 1) * DEFAULT_JITTER)%Q.
Proof.
  intros Hmr Hflag Hthr Hjit.
  set (n := Z.to_nat (max_retries + 1)).
  pose proof (loop_all_throttled env request_id uuid max_retries n
                {| retry_count := 0; e_rate_limit := None |}
                Hflag Hthr eq_refl) as H.
  cbn [retry_count] in H.
  destruct H as (Hx & _ & _ & Hs & _); [lia | subst n; f_equal; lia |].
  assert (Hb : backoffs (fst (_call_with_backoff env request_id uuid max_retries))
               = map (fun r => sleep_time_of (r + 1) (jitter_sample env (r + 1)))
                   (Py.range 0 n)).
  { unfold _call_with_backoff. fold n.
    destruct (backoff_loop n env request_id uuid max_retries _) as [st x].
    cbn [fst snd] in *. subst x. unfold after_loop.
    cbn [retry_count e_rate_limit].
    assert (Hlt : (max_retries <? max_retries + 1) = true)
      by (apply Z.ltb_lt; lia).
    rewrite Hlt. cbn [fst]. unfold backoffs in *.
    rewrite flat_map_app, Hs. cbn. apply app_nil_r. }
  cbn zeta. rewrite Hb.
  pose proof (backoff_sum_bounds (jitter_sample env) 0 n ltac:(lia) Hjit) as B.
  cbn zeta in B.
  replace (0 + 1 + Z.of_nat n) with (max_retries + 2) in B by (subst n; lia).
  replace (Z.of_nat n) with (max_retries + 1) in B by (subst n; lia).
  exact B.
Qed.

End BackoffTotal.

Lemma total_backoff_time_witness :
  (126 <= Slots.qsum
            (Worker.backoffs
               (fst (Worker._call_with_backoff Inputs.always_throttled 7
                       "u-7" 5)))
   <= 1269 # 10)%Q.
Proof.
  assert (H0 : 0 <= 5) by lia.
  assert (H1 : forall r, Worker.is_set Inputs.always_throttled r = false)
    by (intro r; reflexivity).
  assert (H3 : forall r,
             (0 <= Worker.jitter_sample Inputs.always_throttled r <= 1)%Q)
    by (intro r; cbn; lra).
  pose proof (total_backoff_time Inputs.always_throttled 7 "u-7" 5 H0 H1
                always_throttled_throttled H3) as H.
  cbn zeta in H. destruct H as [Hl Hu]. split.
  - eapply Qle_trans; [|exact Hl]. apply Qle_bool_iff. reflexivity.
  - eapply Qle_trans; [exact Hu|]. apply Qle_bool_iff. reflexivity.
Defined.

Section Starvation.
Import Quota Trace Worker Thread Schedule.

Lemma quota_loop_unfinished (lim : model_limits) (estimated_tokens : Z)
    (pbar : bool) (ticks : list tick) (st : model_state) :
  max_requests_per_min lim <= 0 \/
  (max_tokens_per_min lim < estimated_tokens + AVERAGE_TOKEN_USAGE /\
   token_usage_log st = [] /\
   Forall (fun k => forall s, token_usage_log (others k s) = token_usage_log s)
     ticks) ->
  snd (_enforce_rate_limits lim estimated_tokens pbar ticks st) = false.
Proof.
  intro H. revert st H.
  induction ticks as [|k ticks IH]; intros st H; [reflexivity|].
  cbn [_enforce_rate_limits]. unfold wait_decision.
  set (st1 := prune (now k) (others k st)).
  assert (Hrisk : rpm_at_risk lim (request_timestamps st1) = true \/
                  tpm_at_risk lim (token_usage_log st1) estimated_tokens = true).
  { destruct H as [Hrpm|(Htpm & Hlog & Hoth)].
    - left. unfold rpm_at_risk. apply Z.leb_le. lia.
    - right. unfold tpm_at_risk. apply Z.ltb_lt.
      inversion Hoth as [|? ? Hk _]; subst.
      subst st1. cbn [prune token_usage_log]. rewrite Hk, Hlog.
      unfold agg_tokens, tokens_used, _get_average_completion_tokens, Py.sum.
      cbn. unfold AVERAGE_TOKEN_USAGE in *. lia. }
  destruct (Qeq_bool (wait_time_of lim (now k) st1 estimated_tokens) 0) eqn:Hz.
  { exfalso. apply Qeq_bool_iff in Hz. apply wait_zero_iff in Hz.
    fold st1 in Hz. destruct Hz as [Hr Ht], Hrisk; congruence. }
  assert (Hnext :
    max_requests_per_min lim <= 0 \/
    (max_tokens_per_min lim < estimated_tokens + AVERAGE_TOKEN_USAGE /\
     token_usage_log st1 = [] /\
     Forall (fun k => forall s, token_usage_log (others k s) = token_usage_log s)
       ticks)).
  { destruct H as [Hrpm|(Htpm & Hlog & Hoth)]; [left; exact Hrpm|right].
    inversion Hoth as [|? ? Hk Hrest]; subst.
    split; [exact Htpm|]. split; [|exact Hrest].
    subst st1. cbn [prune token_usage_log]. rewrite Hk, Hlog. reflexivity. }
  specialize (IH st1 Hnext).
  destruct (_enforce_rate_limits lim estimated_tokens pbar ticks st1)
    as [[rest st'] fin].
  cbn [fst snd] in *. exact IH.
Qed.

Lemma description_no_remote_call (pbar : bool) (s : status) :
  ~ In RemoteCall (_update_tqdm_description pbar s).
Proof. destruct pbar; cbn; intuition discriminate. Qed.

Lemma postfix_no_remote_call (pbar : bool) (n : Z) :
  ~ In RemoteCall (_update_tqdm_postfix pbar n).
Proof. destruct pbar; cbn; intuition discriminate. Qed.

Lemma enforce_no_remote_call (lim : model_limits) (estimated_tokens : Z)
    (pbar : bool) (ticks : list tick) (st : model_state) :
  ~ In RemoteCall
      (fst (fst (_enforce_rate_limits lim estimated_tokens pbar ticks st))).
Proof.
  revert st. induction ticks as [|k ticks IH]; intro st; [intros []|].
  cbn [_enforce_rate_limits].
  destruct (wait_decision lim (now k) (others k st) estimated_tokens)
    as [w st1].
  destruct (Qeq_bool w 0).
  - cbn [fst]. intro H. rewrite !in_app_iff in H.
    destruct H as [[H|H]|H].
    + cbn in H. intuition discriminate.
    + exact (postfix_no_remote_call _ _ H).
    + cbn in H. intuition discriminate.
  - specialize (IH st1).
    destruct (_enforce_rate_limits lim estimated_tokens pbar ticks st1)
      as [[rest st'] fin].
    cbn [fst] in *. intro H. rewrite !in_app_iff in H.
    destruct H as [[H|H]|[H|[H|[H|H]]]].
    + cbn in H. intuition discriminate.
    + exact (postfix_no_remote_call _ _ H).
    + cbn in H. intuition discriminate.
    + exact (description_no_remote_call _ _ H).
    + cbn in H. intuition discriminate.
    + exact (IH H).
Qed.

(** While no slot is given back, a semaphore without a free permit lets
    nobody in. *)
Lemma step_starved (capacity : nat) (s s' : Pool.pool) (a : Pool.action) :
  Pool.permits s = 0%nat -> gives_slot a = false ->
  Pool.step capacity s a = Some s' ->
  Pool.permits s' = 0%nat /\ takes_slot a = false /\
  (forall i, (waiting i s <= waiting i s')%nat).
Proof.
  intros Hp Hg Hstep.
  destruct a as [k|k|k|k|k|k|]; cbn [Pool.step] in Hstep;
    try discriminate Hg;
    [ | | | | inversion Hstep; subst; cbn [Pool.permits];
            split; [exact Hp|]; split; [reflexivity|]; intro i;
            unfold waiting; cbn [Pool.phases]; lia ];
    apply move_fields in Hstep; destruct Hstep as (Hok & Hnth & ->);
    [ | | | rewrite Hp in Hok; discriminate ];
    (split; [exact Hp|]; split; [reflexivity|]; intro j;
     match goal with
     | |- context [Pool.set_nth _ ?b _] =>
         pose proof (waiting_moved s k j _ b (Pool.permits s)
                       (Pool.entered s) Hnth) as W1;
         pose proof (waiting_moved s k j _ b (Pool.permits s)
                       (S (Pool.entered s)) Hnth) as W2
     end;
     cbn [Pool.phase_eqb] in W1, W2;
     rewrite ?Bool.andb_false_r, ?Bool.andb_true_r in W1, W2;
     destruct (Nat.eqb j k); lia).
Qed.

Lemma run_starved (capacity : nat) (acts : list Pool.action)
    (s s' : Pool.pool) :
  Pool.permits s = 0%nat -> existsb gives_slot acts = false ->
  Pool.run capacity s acts = Some s' ->
  Pool.permits s' = 0%nat /\ acquisitions acts = 0%nat /\
  (forall i, (waiting i s <= waiting i s')%nat).
Proof.
  revert s. induction acts as [|a acts IH]; intros s Hp Hg Hrun.
  - cbn in Hrun. inversion Hrun; subst.
    split; [exact Hp|]. split; [reflexivity|]. intro i. lia.
  - cbn [existsb] in Hg. apply Bool.orb_false_iff in Hg.
    destruct Hg as [Hg Hgs].
    cbn [Pool.run] in Hrun.
    destruct (Pool.step capacity s a) as [s1|] eqn:E; [|discriminate].
    destruct (step_starved capacity s s1 a Hp Hg E) as (Hp1 & Ht & Hw).
    destruct (IH s1 Hp1 Hgs Hrun) as (Hp' & Ha & Hw').
    split; [exact Hp'|]. split.
    + rewrite acquisitions_cons, Ht, Ha. reflexivity.
    + intro i. specialize (Hw i). specialize (Hw' i). lia.
Qed.

(** X12.  A call the quota can never admit keeps its semaphore slot for
    good, and a semaphore without a free permit lets nobody in.  When the
    guard of the first iteration finds the flag clear and the quota loop can
    never reach [break] (the RPM limit is not positive, or the token log is
    empty, stays empty and the estimate plus the default buffer of 1000
    exceeds the TPM limit), the call takes a slot, never gives it back and
    never returns, however many iterations the quota loop is given: it
    makes no remote call, stores nothing and logs nothing.  And from a
    reachable state of the pool in which no permit is free, as long as no
    call gives its slot back, no call takes one, whether or not the flag is
    set in between: ten calls stay inside the semaphore, and every call
    that waits for a slot goes on waiting. *)
Theorem hanging_call_keeps_slot (lim : model_limits)
    (_estimate_tokens : string -> Z) (pbar : bool) (request_id : Z)
    (uuid : string) (msg : message) (flag : Z -> bool)
    (aenv : Z -> attempt_env) (seen : Z -> model_state) (jitter : Z -> Q)
    (max_retries : Z) (role0 system_prompt role1 user_prompt : string) :
  let env := thread_env lim _estimate_tokens pbar request_id uuid msg
               flag aenv seen jitter in
  let estimated_tokens :=
    _estimate_tokens (system_prompt ++ nl ++ user_prompt)%string in
  nth_error msg 0 = Some (role0, system_prompt) ->
  nth_error msg 1 = Some (role1, user_prompt) ->
  flag 0 = false -> 0 <= max_retries ->
  max_requests_per_min lim <= 0 \/
  (max_tokens_per_min lim < estimated_tokens + AVERAGE_TOKEN_USAGE /\
   token_usage_log (seen 0) = [] /\
   Forall (fun k => forall s, token_usage_log (others k s) = token_usage_log s)
     (ticks (aenv 0))) ->
  let run := _call_with_backoff env request_id uuid max_retries in
  (snd run = Hang /\
   attempts (fst run) = [0] /\
   Slots.check false (events_of pbar (fst run)) = Some true /\
   ~ In RemoteCall (events_of pbar (fst run)) /\
   stored (events_of pbar (fst run)) = [] /\
   logged (fst run) = []) /\
  (forall n s acts s',
     Pool.reachable n s -> Pool.permits s = 0%nat ->
     existsb gives_slot acts = false ->
     Pool.run Dispatcher.max_workers s acts = Some s' ->
     acquisitions acts = 0%nat /\ Pool.permits s' = 0%nat /\
     Pool.count Pool.InAttempt (Pool.phases s') = 10%nat /\
     (forall i, waiting i s = 1%nat -> waiting i s' = 1%nat)).
Proof.
  intros env estimated_tokens Hm0 Hm1 Hflag Hmr Hover run. split.
  - pose proof (quota_loop_unfinished lim estimated_tokens pbar
                  (ticks (aenv 0)) (seen 0) Hover) as Hfin.
    pose proof (enforce_no_remote_call lim estimated_tokens pbar
                  (ticks (aenv 0)) (seen 0)) as Hremote.
    pose proof (stored_enforce lim pbar estimated_tokens (ticks (aenv 0))
                  (seen 0)) as Hstored.
    pose proof (slot_try_block lim _estimate_tokens pbar request_id uuid msg
                  (aenv 0) (seen 0)) as Hslot.
    assert (Hatt :
      attempt env 0
      = {| tr_events :=
             _update_tqdm_description pbar (Running request_id)
             ++ fst (fst (_enforce_rate_limits lim estimated_tokens pbar
                            (ticks (aenv 0)) (seen 0)));
           tr_result := Unfinished |}).
    { subst env. cbn [thread_env attempt]. unfold try_block.
      rewrite Hm0, Hm1. fold estimated_tokens.
      destruct (_enforce_rate_limits lim estimated_tokens pbar
                  (ticks (aenv 0)) (seen 0)) as [[ev2 st1] fin].
      cbn [fst snd] in *. subst fin. reflexivity. }
    change (tr_events (fst (try_block lim _estimate_tokens pbar request_id
                              uuid msg (aenv 0) (seen 0))))
      with (tr_events (attempt env 0)) in Hslot.
    assert (Hrun :
      run = ([SemEnter; Try 0 (tr_events (attempt env 0))], Hang)).
    { subst run. unfold _call_with_backoff.
      destruct (Z.to_nat (max_retries + 1)) as [|fuel] eqn:Ef; [lia|].
      cbn [backoff_loop retry_count].
      assert (Hguard : negb (is_set env 0) && (0 <=? max_retries) = true).
      { subst env. cbn [thread_env is_set]. rewrite Hflag.
        apply Z.leb_le in Hmr. rewrite Hmr. reflexivity. }
      rewrite Hguard. rewrite Hatt at 1. cbn [tr_result].
      reflexivity. }
    rewrite Hrun. cbn [fst snd].
    unfold events_of, attempts, logged.
    cbn [flat_map events_of_step app]. rewrite app_nil_r.
    split; [reflexivity|]. split; [reflexivity|]. split; [|split; [|split]].
    + cbn [Slots.check]. exact Hslot.
    + rewrite Hatt. cbn [tr_events]. intros [H|H]; [discriminate|].
      apply in_app_iff in H. destruct H as [H|H].
      * exact (description_no_remote_call _ _ H).
      * exact (Hremote H).
    + rewrite Hatt. cbn [tr_events app stored flat_map].
      fold (stored (_update_tqdm_description pbar (Running request_id)
                    ++ fst (fst (_enforce_rate_limits lim estimated_tokens
                                   pbar (ticks (aenv 0)) (seen 0))))).
      rewrite stored_app, stored_description, Hstored. reflexivity.
    + reflexivity.
  - intros n s acts s' [acts0 Hreach] Hp Hg Hrun'.
    destruct (run_starved _ acts s s' Hp Hg Hrun') as (Hp' & Ha & Hw).
    destruct (run_balanced _ acts0 _ _ (init_balanced n) Hreach)
      as [Hsem Hthr].
    assert (Hbal' : (Pool.count Pool.InAttempt (Pool.phases s')
                     + Pool.permits s' = MAX_CONCURRENT_REQUESTS)%nat).
    { destruct (run_balanced Dispatcher.max_workers acts s s'
                  (conj Hsem Hthr) Hrun') as [H _]. exact H. }
    unfold MAX_CONCURRENT_REQUESTS in Hbal'.
    split; [exact Ha|]. split; [exact Hp'|]. split; [lia|].
    intros i Hi. specialize (Hw i).
    assert (Hle : (waiting i s' <= 1)%nat).
    { unfold waiting. destruct (nth_error (Pool.phases s') i) as [[]|]; lia. }
    lia.
Qed.

End Starvation.

Lemma hanging_call_keeps_slot_witness :
  snd (Worker._call_with_backoff Schedule.oversized 7 "u-7" 5) = Worker.Hang /\
  Schedule.waiting 10
    {| Pool.permits := 0; Pool.stop_flag := true;
       Pool.phases := repeat Pool.InAttempt 10 ++ [Pool.WaitingSlot];
       Pool.entered := 11 |} = 1%nat.
Proof.
  assert (H0 : nth_error Inputs.chat 0
               = Some ("system", "Extract the blueprint.")%string)
    by reflexivity.
  assert (H1 : nth_error Inputs.chat 1 = Some ("user", "A narrative.")%string)
    by reflexivity.
  assert (Hover :
    Quota.max_requests_per_min Inputs.tight_limits <= 0 \/
    (Quota.max_tokens_per_min Inputs.tight_limits
     < Z.of_nat (String.length
                   ("Extract the blueprint." ++ Trace.nl ++ "A narrative."))
       + Quota.AVERAGE_TOKEN_USAGE /\
     Quota.token_usage_log Inputs.empty_state = [] /\
     Forall (fun k => forall s,
               Quota.token_usage_log (Trace.others k s)
               = Quota.token_usage_log s)
       Inputs.two_quiet_ticks)).
  { right. split; [vm_compute; reflexivity|]. split; [reflexivity|].
    repeat constructor. }
  pose proof (hanging_call_keeps_slot Inputs.tight_limits
                (fun p => Z.of_nat (String.length p)) true 7 "u-7"
                Inputs.chat (fun _ => false)
                (fun _ => {| Trace.ticks := Inputs.two_quiet_ticks;
                             Trace.api :=
                               inl {| Trace.prompt_tokens := 12;
                                      Trace.completion_tokens := 30;
                                      Trace.content := "{}" |};
                             Trace.usage_time := 1;
                             Trace.store_fault := None;
                             Trace.local_tb := EmptyString |})
                (fun _ => Inputs.empty_state) (fun _ => 1 # 2) 5
                "system" "Extract the blueprint." "user" "A narrative."
                H0 H1 eq_refl ltac:(lia) Hover) as [[Hhang _] Hpool].
  split; [exact Hhang|].
  assert (R : Pool.reachable 11
                {| Pool.permits := 0; Pool.stop_flag := false;
                   Pool.phases := repeat Pool.InAttempt 10 ++ [Pool.WaitingSlot];
                   Pool.entered := 11 |}).
  { exists Inputs.eleven_ready. vm_compute. reflexivity. }
  destruct (Hpool 11%nat _ [Pool.SetFlag]
              {| Pool.permits := 0; Pool.stop_flag := true;
                 Pool.phases := repeat Pool.InAttempt 10 ++ [Pool.WaitingSlot];
                 Pool.entered := 11 |} R eq_refl eq_refl eq_refl)
    as (_ & _ & _ & Hw).
  apply (Hw 10%nat). reflexivity.
Defined.

(* ===================================================================== *)
(** * The result store *)
(* ===================================================================== *)

Section StoreFacts.
Import Quota Trace Store.

Lemma lookup_store_same {V} (k : string) (v : V) (m : list (string * V)) :
  lookup k (store k v m) = Some v.
Proof.
  induction m as [|[k' v'] m IH]; cbn.
  - rewrite String.eqb_refl. reflexivity.
  - destruct (String.eqb k k') eqn:E; cbn.
    + rewrite String.eqb_refl. reflexivity.
    + rewrite E. exact IH.
Qed.

Lemma lookup_store_other {V} (k k' : string) (v : V) (m : list (string * V)) :
  k <> k' -> lookup k (store k' v m) = lookup k m.
Proof.
  intro Hne. induction m as [|[k2 v2] m IH]; cbn.
  - destruct (String.eqb k k') eqn:E; [|reflexivity].
    apply String.eqb_eq in E. contradiction.
  - destruct (String.eqb k' k2) eqn:E2; cbn.
    + apply String.eqb_eq in E2. subst k2.
      destruct (String.eqb k k') eqn:E; [|reflexivity].
      apply String.eqb_eq in E. contradiction.
    + destruct (String.eqb k k2); [reflexivity|exact IH].
Qed.

Lemma dict_get_set_same (k : string) (v : json) (d : dict) :
  dict_get k (dict_set k v d) = Some v.
Proof.
  induction d as [|[k' v'] d IH]; cbn.
  - rewrite String.eqb_refl. reflexivity.
  - destruct (String.eqb k k') eqn:E; cbn.
    + rewrite String.eqb_refl. reflexivity.
    + rewrite E. exact IH.
Qed.

Lemma dict_get_remove_other (k k' : string) (d : dict) :
  k <> k' -> dict_get k (dict_remove k' d) = dict_get k d.
Proof.
  intro Hne. induction d as [|[k2 v2] d IH]; [reflexivity|].
  cbn. destruct (String.eqb k' k2) eqn:E2.
  - apply String.eqb_eq in E2. subst k2.
    destruct (String.eqb k k') eqn:E; [|reflexivity].
    apply String.eqb_eq in E. contradiction.
  - cbn. destruct (String.eqb k k2); [reflexivity|exact IH].
Qed.

Lemma get_put_collection (srv : server) (db_name collection_name : string)
    (c : collection) :
  get_collection (put_collection srv db_name collection_name c)
    db_name collection_name = c.
Proof.
  unfold get_collection, put_collection, database_of.
  rewrite lookup_store_same, lookup_store_same. reflexivity.
Qed.

Lemma access_after_put (srv : server) (db_name collection_name : string)
    (c : collection) :
  test_access_to_db_and_collection
    (put_collection srv db_name collection_name c) db_name collection_name
  = true.
Proof.
  unfold test_access_to_db_and_collection, put_collection.
  unfold database_of at 1. rewrite lookup_store_same.
  generalize (database_of srv db_name). intro db.
  induction db as [|[k v] db IH]; cbn.
  - rewrite String.eqb_refl. reflexivity.
  - destruct (String.eqb collection_name k) eqn:E; cbn.
    + rewrite String.eqb_refl. reflexivity.
    + rewrite E. exact IH.
Qed.

Lemma access_iff_lookup (srv : server) (db_name collection_name : string) :
  test_access_to_db_and_collection srv db_name collection_name = true <->
  lookup collection_name (database_of srv db_name) <> None.
Proof.
  unfold test_access_to_db_and_collection.
  generalize (database_of srv db_name). intro db.
  induction db as [|[k v] db IH]; cbn.
  - split; [discriminate|congruence].
  - destruct (String.eqb collection_name k); cbn.
    + split; [discriminate|reflexivity].
    + exact IH.
Qed.

Lemma insert_one_docs (same_id : json -> json -> bool) (doc : dict)
    (c c' : collection) :
  insert_one same_id doc c = inr c' ->
  exists stored_doc,
    docs c' = docs c ++ [stored_doc] /\
    forall k, k <> "_id"%string -> dict_get k stored_doc = dict_get k doc.
Proof.
  unfold insert_one. destruct (dict_get "_id" doc) as [id|] eqn:Hid.
  - destruct (existsb _ (docs c)); [discriminate|].
    intro H. inversion H; subst. cbn [docs]. eexists. split; [reflexivity|].
    intros k Hk. cbn [dict_get].
    destruct (String.eqb k "_id") eqn:E.
    + apply String.eqb_eq in E. contradiction.
    + apply dict_get_remove_other. exact Hk.
  - intro H. inversion H; subst. cbn [docs]. eexists. split; [reflexivity|].
    intros k Hk. cbn [dict_get].
    destruct (String.eqb k "_id") eqn:E; [|reflexivity].
    apply String.eqb_eq in E. contradiction.
Qed.

Variable json_loads : string -> exn + json.
Variable same_id : json -> json -> bool.

(** X13.  What [_process_response] does to its surroundings.  The usage of
    the response is appended to the token log before anything can fail, so
    it is recorded even when the call ends with an exception, and in that
    case nothing is stored.  When the call succeeds, the content was a JSON
    object and exactly one document was added to the collection, whose
    [uuid] field is the task's uuid, whatever [uuid] the content carried. *)
Theorem process_response_effects (uuid : string) (r : response) (now : Q)
    (db_name collection_name : string) (st : model_state) (srv : server) :
  let out := _process_response json_loads same_id uuid r now db_name
               collection_name st srv in
  let err := fst (fst out) in
  let st' := snd (fst out) in
  let srv' := snd out in
  token_usage_log st'
    = token_usage_log st ++ [(now, prompt_tokens r, completion_tokens r)] /\
  request_timestamps st' = request_timestamps st /\
  match err with
  | Some _ => srv' = srv
  | None =>
      (exists fields, json_loads (content r) = inr (JObject fields)) /\
      exists doc,
        get_documents srv' db_name collection_name
          = get_documents srv db_name collection_name ++ [doc] /\
        dict_get "uuid" doc = Some (JStr uuid)
  end.
Proof.
  cbn zeta. unfold _process_response.
  destruct (json_loads (content r)) as [e|v]; [repeat split|].
  destruct (set_uuid uuid v) as [e|doc] eqn:Hset; [repeat split|].
  destruct (insert_one same_id doc (get_collection srv db_name collection_name))
    as [e|c] eqn:Hins; [repeat split|].
  cbn [fst snd token_usage_log request_timestamps].
  split; [reflexivity|]. split; [reflexivity|].
  destruct v; try discriminate. cbn [set_uuid] in Hset.
  inversion Hset; subst doc. split; [eexists; reflexivity|].
  apply insert_one_docs in Hins. destruct Hins as (sd & Hdocs & Hget).
  exists sd. unfold get_documents. rewrite get_put_collection. split; [exact Hdocs|].
  rewrite Hget by discriminate. apply dict_get_set_same.
Qed.

Lemma uuid_fields_project (cursor : list dict) :
  uuid_fields (map project_uuid cursor) = uuid_fields cursor.
Proof.
  induction cursor as [|d cursor IH]; [reflexivity|].
  cbn [map uuid_fields]. rewrite IH. unfold project_uuid.
  destruct (dict_get "uuid" d) eqn:E; cbn; [|reflexivity].
  reflexivity.
Qed.

Lemma uuid_fields_spec (cursor : list dict) :
  match uuid_fields cursor with
  | inr vs => map (dict_get "uuid") cursor = map Some vs
  | inl e =>
      e = KeyError "uuid" /\
      exists d, In d cursor /\ dict_get "uuid" d = None
  end.
Proof.
  induction cursor as [|d cursor IH]; [reflexivity|].
  cbn [uuid_fields]. destruct (dict_get "uuid" d) as [v|] eqn:E.
  - destruct (uuid_fields cursor) as [e|vs].
    + destruct IH as (He & d' & Hin & Hd').
      split; [exact He|]. exists d'. split; [right; exact Hin|exact Hd'].
    + cbn [map]. rewrite E, IH. reflexivity.
  - split; [reflexivity|]. exists d. split; [left; reflexivity|exact E].
Qed.

(** X14.  [get_collected_uuids] returns the [uuid] fields of all documents of
    the collection, in insertion order, and raises KeyError('uuid') as soon
    as one stored document has no [uuid] field. *)
Theorem collected_uuids_or_key_error (srv : server)
    (db_name collection_name : string) :
  match get_collected_uuids srv db_name collection_name with
  | inr vs =>
      map (dict_get "uuid") (get_documents srv db_name collection_name)
        = map Some vs
  | inl e =>
      e = KeyError "uuid" /\
      exists d, In d (get_documents srv db_name collection_name) /\
                dict_get "uuid" d = None
  end.
Proof.
  unfold get_collected_uuids, get_documents. rewrite uuid_fields_project.
  apply uuid_fields_spec.
Qed.

End StoreFacts.

Section StoreRuns.
Import Quota Trace Store.

Variable json_loads : string -> exn + json.
Variable same_id : json -> json -> bool.
Variable system_prompt : string.
Variable _load_message_prompt : string -> string.

Lemma process_response_stored (uuid : string) (r : response) (now : Q)
    (db_name collection_name : string) (st : model_state) (srv : server) :
  let out := _process_response json_loads same_id uuid r now db_name
               collection_name st srv in
  fst (fst out) = None ->
  test_access_to_db_and_collection (snd out) db_name collection_name = true /\
  exists doc,
    get_documents (snd out) db_name collection_name
      = get_documents srv db_name collection_name ++ [doc] /\
    dict_get "uuid" doc = Some (JStr uuid).
Proof.
  cbn zeta. unfold _process_response.
  destruct (json_loads (content r)) as [e|v]; [discriminate|].
  destruct (set_uuid uuid v) as [e|doc] eqn:Hset; [discriminate|].
  destruct (insert_one same_id doc (get_collection srv db_name collection_name))
    as [e|c] eqn:Hins; [discriminate|].
  cbn [fst snd]. intros _. split; [apply access_after_put|].
  destruct v; try discriminate. cbn [set_uuid] in Hset.
  inversion Hset; subst doc.
  apply insert_one_docs in Hins. destruct Hins as (sd & Hdocs & Hget).
  exists sd. unfold get_documents. rewrite get_put_collection.
  split; [exact Hdocs|].
  rewrite Hget by discriminate. apply dict_get_set_same.
Qed.

Lemma passed_not_collected (collected : list string)
    (narratives : list Blueprint.row) (sample_size : option Z) (u : string) :
  In u (fst (Blueprint.run_blueprint_analysis system_prompt
               _load_message_prompt collected narratives sample_size)) ->
  ~ In u collected.
Proof.
  unfold Blueprint.run_blueprint_analysis, Blueprint._compose_blueprint_messages.
  set (kept := filter _ narratives).
  assert (Hkept : forall x, In x (map Blueprint.uuid kept) -> ~ In x collected).
  { intros x Hx. apply in_map_iff in Hx. destruct Hx as (row & <- & Hrow).
    subst kept. apply filter_In in Hrow. destruct Hrow as [_ Hrow].
    apply negb_true_iff in Hrow. intro Hin. apply isin_In in Hin. congruence. }
  destruct sample_size as [k|]; [destruct (k =? 0)|]; cbn [fst]; try apply Hkept.
  destruct (slice_to_prefix (map Blueprint.uuid kept) k) as [n Hn].
  rewrite Hn. intro H. apply In_prefix in H. apply Hkept. exact H.
Qed.

Lemma submitted_uuid_In (uuids : list string) (messages : list message)
    (u : string) :
  In u (map (fun t => fst (snd t)) (Dispatcher.submit_all uuids messages)) ->
  In u uuids.
Proof.
  intro H. apply in_map_iff in H. destruct H as ([i [u' m]] & <- & Hin).
  unfold Dispatcher.submit_all, Dispatcher.enumerate, Dispatcher.zip in Hin.
  apply in_combine_r in Hin. apply in_combine_l in Hin. exact Hin.
Qed.

(** X15.  A stored result is not asked for again.  After
    [_process_response] has succeeded for a task, on a collection whose
    documents all carry a [uuid], the next [run_blueprint_analysis] against
    that server passes the access test, reads the stored uuids without
    error and submits no task with the uuid of the stored one, whatever
    narratives are loaded and whatever the sample size. *)
Theorem stored_task_not_resubmitted (uuid : string) (r : response) (now : Q)
    (db_name collection_name : string) (st : model_state) (srv : server)
    (narratives : list Blueprint.row) (sample_size : option Z) :
  let out := _process_response json_loads same_id uuid r now db_name
               collection_name st srv in
  (forall d, In d (get_documents srv db_name collection_name) ->
             dict_get "uuid" d <> None) ->
  fst (fst out) = None ->
  exists d,
    run_blueprint_analysis (snd out) db_name collection_name system_prompt
      _load_message_prompt narratives sample_size = inr d /\
    ~ In uuid (map (fun t => fst (snd t)) (Dispatcher.submitted d)).
Proof.
  intros out Hall Hok.
  destruct (process_response_stored uuid r now db_name collection_name st srv
              Hok) as (Hacc & doc & Hdocs & Hdoc).
  fold out in Hacc, Hdocs.
  unfold run_blueprint_analysis. rewrite Hacc.
  unfold get_collected_uuids. rewrite uuid_fields_project.
  pose proof (uuid_fields_spec
                (docs (get_collection (snd out) db_name collection_name))) as Hspec.
  unfold get_documents in Hdocs, Hall. rewrite Hdocs in Hspec |- *.
  destruct (uuid_fields _) as [e|vs].
  - exfalso. destruct Hspec as (_ & d & Hin & Hnone).
    apply in_app_or in Hin. destruct Hin as [Hin|[<-|[]]].
    + exact (Hall d Hin Hnone).
    + congruence.
  - assert (Hin : In uuid (strings_of vs)).
    { assert (In (Some (JStr uuid)) (map Some vs)).
      { rewrite <- Hspec, map_app. apply in_or_app. right. cbn.
        left. exact Hdoc. }
      apply in_map_iff in H. destruct H as (v & Hv & Hvin).
      inversion Hv; subst v. unfold strings_of. apply in_flat_map.
      exists (JStr uuid). split; [exact Hvin|left; reflexivity]. }
    pose proof (passed_not_collected (strings_of vs) narratives sample_size
                  uuid) as Hnot.
    destruct (Blueprint.run_blueprint_analysis _ _ _ _ _) as [us ms].
    cbn [fst] in Hnot. eexists. split; [reflexivity|].
    cbn [Dispatcher.run_parallel_prompt_tasks Dispatcher.submitted].
    intro Hsub. apply submitted_uuid_In in Hsub. exact (Hnot Hsub Hin).
Qed.

Lemma collected_key (srv : server) (db_name collection_name : string) :
  forall e, get_collected_uuids srv db_name collection_name = inl e ->
            e = KeyError "uuid".
Proof.
  intros e H. unfold get_collected_uuids in H.
  rewrite uuid_fields_project in H.
  pose proof (uuid_fields_spec
                (docs (get_collection srv db_name collection_name))) as Hs.
  rewrite H in Hs. tauto.
Qed.

(** X16.  A run is refused with ConnectionFailure exactly when the
    collection does not exist on the server; the code creates it only by a
    first insertion, so the very first run against an empty server is
    refused before anything is composed or submitted. *)
Theorem run_refused_without_collection (srv : server)
    (db_name collection_name : string) (narratives : list Blueprint.row)
    (sample_size : option Z) :
  (run_blueprint_analysis srv db_name collection_name system_prompt
     _load_message_prompt narratives sample_size
   = inl (ConnectionFailure db_name collection_name)
   <-> lookup collection_name (database_of srv db_name) = None) /\
  run_blueprint_analysis [] db_name collection_name system_prompt
    _load_message_prompt narratives sample_size
  = inl (ConnectionFailure db_name collection_name).
Proof.
  split; [|reflexivity].
  unfold run_blueprint_analysis.
  pose proof (access_iff_lookup srv db_name collection_name) as Hacc.
  destruct (test_access_to_db_and_collection srv db_name collection_name).
  - split.
    + pose proof (collected_key srv db_name collection_name) as Hk.
      destruct (get_collected_uuids srv db_name collection_name) as [e|vs].
      * intro H. inversion H as [He]. rewrite (Hk e eq_refl) in He.
        discriminate He.
      * destruct (Blueprint.run_blueprint_analysis _ _ _ _ _). discriminate.
    + intro Hnone. exfalso. apply (proj1 Hacc eq_refl). exact Hnone.
  - split; [|reflexivity]. intros _.
    destruct (lookup collection_name (database_of srv db_name)) eqn:E;
      [|reflexivity].
    exfalso. assert (false = true) by (apply Hacc; discriminate). discriminate.
Qed.

End StoreRuns.

(* ===================================================================== *)
(** * From the narratives to the submitted tasks *)
(* ===================================================================== *)

Section Pipeline.
Import Trace Blueprint.

Variable system_prompt : string.
Variable _load_message_prompt : string -> string.

Lemma slice_to_map {A B} (f : A -> B) (l : list A) (k : Z) :
  Py.slice_to (map f l) k = map f (Py.slice_to l k).
Proof.
  unfold Py.slice_to. rewrite length_map.
  destruct (k <? 0); apply firstn_map.
Qed.

Lemma combine_map_same {A B C} (f : A -> B) (g : A -> C) (l : list A) :
  combine (map f l) (map g l) = map (fun x => (f x, g x)) l.
Proof.
  induction l as [|x l IH]; [reflexivity|]. cbn. rewrite IH. reflexivity.
Qed.

(** X17.  Each task is submitted with its own message.  Whatever the stored
    uuids and the sample size, the two lists [run_blueprint_analysis]
    passes on have the same length, and the tasks
    [run_parallel_prompt_tasks] submits for them are, numbered from 0, the
    pairs of the uuid of a narrative and the message composed from that
    same narrative, for a prefix of the narratives that are not stored yet;
    the total of the progress bar is the number of submitted tasks, so the
    bar is complete once every worker has finished. *)
Theorem tasks_pair_uuid_with_own_message (collected : list string)
    (narratives : list row) (sample_size : option Z) :
  let kept := filter (fun r => negb (isin (uuid r) collected)) narratives in
  let message_of := fun r =>
    [("system", system_prompt);
     ("user", _load_message_prompt (narrative r))]%string in
  let passed :=
    run_blueprint_analysis system_prompt _load_message_prompt collected
      narratives sample_size in
  let d := Dispatcher.run_parallel_prompt_tasks (fst passed) (snd passed) in
  List.length (fst passed) = List.length (snd passed) /\
  (exists n,
     map snd (Dispatcher.submitted d)
       = map (fun r => (uuid r, message_of r)) (firstn n kept) /\
     map fst (Dispatcher.submitted d) = seq 0 (List.length (firstn n kept))) /\
  Dispatcher.total_tasks d = List.length (Dispatcher.submitted d) /\
  (forall finished,
     List.length finished = List.length (Dispatcher.submitted d) ->
     Dispatcher.drain finished 0 = (None, Dispatcher.total_tasks d)).
Proof.
  intros kept message_of passed d.
  assert (Hrows : exists rows n,
            rows = firstn n kept /\
            passed = (map uuid rows, map message_of rows)).
  { subst passed. unfold run_blueprint_analysis, _compose_blueprint_messages.
    fold kept. fold message_of.
    destruct sample_size as [k|]; [destruct (k =? 0)|].
    - exists kept, (List.length kept). rewrite firstn_all. split; reflexivity.
    - rewrite !slice_to_map. unfold Py.slice_to.
      destruct (k <? 0); eexists; eexists; split; reflexivity.
    - exists kept, (List.length kept). rewrite firstn_all. split; reflexivity. }
  destruct Hrows as (rows & n & Hrows & Hpassed).
  assert (Hsub : Dispatcher.submitted d
                 = combine (seq 0 (List.length rows))
                     (map (fun r => (uuid r, message_of r)) rows)).
  { subst d. rewrite Hpassed.
    cbn [fst snd Dispatcher.run_parallel_prompt_tasks Dispatcher.submitted].
    unfold Dispatcher.submit_all, Dispatcher.enumerate, Dispatcher.zip.
    rewrite combine_map_same, length_map. reflexivity. }
  assert (Hlen : List.length (Dispatcher.submitted d) = List.length rows).
  { rewrite Hsub. unfold Dispatcher.task.
    rewrite length_combine, length_seq, length_map. apply Nat.min_id. }
  assert (Htotal : Dispatcher.total_tasks d = List.length rows).
  { subst d. rewrite Hpassed. cbn. apply length_map. }
  split; [rewrite Hpassed; cbn [fst snd]; rewrite !length_map; reflexivity|].
  split.
  - exists n. rewrite <- Hrows, Hsub. split.
    + rewrite map_snd_combine_prefix, length_seq. apply firstn_all2.
      rewrite length_map. apply Nat.le_refl.
    + rewrite map_fst_combine_prefix, length_map.
      rewrite <- (length_seq (List.length rows) 0) at 1. apply firstn_all.
  - split; [congruence|].
    intros finished Hfin. rewrite drain_all, Hfin, Hlen, Htotal. reflexivity.
Qed.

End Pipeline.

(* ===================================================================== *)
(** * Construction of a model *)
(* ===================================================================== *)

Section ConfigFacts.
Import Quota Trace Config.

(** X18.  [LanguageModel.__init__] succeeds exactly when the configuration
    has an entry for the provider, for the model under it, and an [rpm]
    and a [tpm] under that, with [rpm] different from 0.  The instance then
    carries these two limits and has empty windows, a semaphore of 10, a
    clear stop flag, and a request interval of [60 / rpm] seconds.  When it
    fails, the error tells the first thing that is wrong, in the order the
    code reads the configuration: KeyError for the provider when the
    provider is missing; else KeyError for the model when the model is
    missing; else KeyError for [rpm] when [rpm] is missing; else KeyError
    for [tpm] when [tpm] is missing, also when [rpm] is 0; and
    ZeroDivisionError, when the request interval is computed, only when
    both are present and [rpm] is 0. *)
Theorem init_succeeds_iff (cfg : limits_config) (provider model_name : string) :
  ((exists inst, __init__ cfg provider model_name = inr inst) <->
   (exists models model_limits rpm tpm,
      Store.lookup provider cfg = Some models /\
      Store.lookup model_name models = Some model_limits /\
      Store.lookup "rpm" model_limits = Some rpm /\
      Store.lookup "tpm" model_limits = Some tpm /\
      rpm <> 0)) /\
  match __init__ cfg provider model_name with
  | inr inst =>
      exists models model_limits,
        Store.lookup provider cfg = Some models /\
        Store.lookup model_name models = Some model_limits /\
        Store.lookup "rpm" model_limits
          = Some (max_requests_per_min (limits inst)) /\
        Store.lookup "tpm" model_limits
          = Some (max_tokens_per_min (limits inst)) /\
        max_requests_per_min (limits inst) <> 0 /\
        (request_interval inst * inject_Z (max_requests_per_min (limits inst))
         == 60)%Q /\
        lists inst = {| request_timestamps := []; token_usage_log := [] |} /\
        semaphore inst = 10%nat /\ stop_flag inst = false
  | inl e =>
      (e = Store.KeyError provider /\ Store.lookup provider cfg = None) \/
      (exists models,
         Store.lookup provider cfg = Some models /\
         e = Store.KeyError model_name /\
         Store.lookup model_name models = None) \/
      (exists models model_limits,
         Store.lookup provider cfg = Some models /\
         Store.lookup model_name models = Some model_limits /\
         e = Store.KeyError "rpm" /\
         Store.lookup "rpm" model_limits = None) \/
      (exists models model_limits rpm,
         Store.lookup provider cfg = Some models /\
         Store.lookup model_name models = Some model_limits /\
         Store.lookup "rpm" model_limits = Some rpm /\
         e = Store.KeyError "tpm" /\
         Store.lookup "tpm" model_limits = None) \/
      (exists models model_limits tpm,
         Store.lookup provider cfg = Some models /\
         Store.lookup model_name models = Some model_limits /\
         Store.lookup "rpm" model_limits = Some 0 /\
         Store.lookup "tpm" model_limits = Some tpm /\
         e = ZeroDivisionError)
  end.
Proof.
  unfold __init__, item.
  destruct (Store.lookup provider cfg) as [models|] eqn:E1.
  2: { split; [|left; split; reflexivity].
       split; [intros [inst H]; discriminate H|].
       intros (m & ml & rpm & tpm & H & _). discriminate H. }
  destruct (Store.lookup model_name models) as [ml|] eqn:E2.
  2: { split; [|right; left; exists models; repeat split; assumption].
       split; [intros [inst H]; discriminate H|].
       intros (m & ml & rpm & tpm & H1 & H2 & _).
       inversion H1; subst m. rewrite E2 in H2. discriminate H2. }
  destruct (Store.lookup "rpm" ml) as [rpm|] eqn:E3.
  2: { split; [|right; right; left; exists models, ml;
                 repeat split; assumption].
       split; [intros [inst H]; discriminate H|].
       intros (m & ml' & rpm & tpm & H1 & H2 & H3 & _).
       inversion H1; subst m. rewrite E2 in H2. inversion H2; subst ml'.
       rewrite E3 in H3. discriminate H3. }
  destruct (Store.lookup "tpm" ml) as [tpm|] eqn:E4.
  2: { split; [|right; right; right; left; exists models, ml, rpm;
                 repeat split; assumption].
       split; [intros [inst H]; discriminate H|].
       intros (m & ml' & rpm' & tpm & H1 & H2 & _ & H4 & _).
       inversion H1; subst m. rewrite E2 in H2. inversion H2; subst ml'.
       rewrite E4 in H4. discriminate H4. }
  destruct (rpm =? 0) eqn:Ez.
  - apply Z.eqb_eq in Ez. subst rpm. split.
    + split; [intros [inst H]; discriminate H|].
      intros (m & ml' & rpm' & tpm' & H1 & H2 & H3 & _ & Hnz).
      inversion H1; subst m. rewrite E2 in H2. inversion H2; subst ml'.
      rewrite E3 in H3. inversion H3; subst rpm'. contradiction.
    + right; right; right; right. exists models, ml, tpm.
      repeat split; assumption.
  - apply Z.eqb_neq in Ez. split.
    + split; [intros _|intros _; eexists; reflexivity].
      exists models, ml, rpm, tpm. repeat split; assumption.
    + exists models, ml.
      cbn [limits max_requests_per_min max_tokens_per_min request_interval
           lists semaphore stop_flag].
      repeat split; try assumption; try reflexivity.
      field. intro H. apply Ez. unfold Qeq in H. cbn in H. lia.
Qed.

Lemma init_lists (cfg : limits_config) (provider model_name : string)
    (inst : instance) :
  __init__ cfg provider model_name = inr inst ->
  lists inst = {| request_timestamps := []; token_usage_log := [] |}.
Proof.
  unfold __init__.
  destruct (item provider cfg); [discriminate|].
  destruct (item model_name _); [discriminate|].
  destruct (item "rpm" _); [discriminate|].
  destruct (item "tpm" _); [discriminate|].
  destruct (_ =? 0); [discriminate|].
  intro H. inversion H. reflexivity.
Qed.

(** X19.  The first decision of a freshly constructed model.  Whatever the
    clock reads, the first wait decision on the lists [__init__] leaves
    either admits the call, when [rpm] is at least 1 and the estimate plus
    the default buffer of 1000 does not exceed [tpm], or asks for a wait of
    exactly 1 second. *)
Theorem first_decision_of_fresh_model (cfg : limits_config)
    (provider model_name : string) (inst : instance) (now : Q)
    (estimated_tokens : Z) :
  __init__ cfg provider model_name = inr inst ->
  let w := fst (wait_decision (limits inst) now (lists inst) estimated_tokens) in
  if (1 <=? max_requests_per_min (limits inst))
     && (estimated_tokens + 1000 <=? max_tokens_per_min (limits inst))
  then w = 0%Q else w = 1%Q.
Proof.
  intro Hinit.
  assert (Hl : lists inst = {| request_timestamps := []; token_usage_log := [] |}).
  { pose proof (init_lists cfg provider model_name inst Hinit). assumption. }
  cbn zeta. rewrite Hl. cbn [wait_decision fst].
  change (prune now {| request_timestamps := []; token_usage_log := [] |})
    with {| request_timestamps := []; token_usage_log := [] |}.
  unfold wait_time_of, rpm_at_risk, tpm_at_risk, agg_tokens, tokens_used,
    _get_average_completion_tokens, Py.sum, AVERAGE_TOKEN_USAGE.
  cbn [request_timestamps token_usage_log List.length map fold_left
       request_wait token_wait Z.of_nat].
  replace (0 + estimated_tokens + 1000) with (estimated_tokens + 1000) by lia.
  destruct (1 <=? max_requests_per_min (limits inst)) eqn:E1;
    destruct (estimated_tokens + 1000 <=? max_tokens_per_min (limits inst))
      eqn:E2; cbn [andb].
  - apply Z.leb_le in E1, E2.
    assert (H1 : (max_requests_per_min (limits inst) <=? 0) = false)
      by (apply Z.leb_gt; lia).
    assert (H2 : (max_tokens_per_min (limits inst) <? estimated_tokens + 1000)
                 = false) by (apply Z.ltb_ge; lia).
    rewrite H1, H2. reflexivity.
  - apply Z.leb_le in E1. apply Z.leb_gt in E2.
    assert (H1 : (max_requests_per_min (limits inst) <=? 0) = false)
      by (apply Z.leb_gt; lia).
    assert (H2 : (max_tokens_per_min (limits inst) <? estimated_tokens + 1000)
                 = true) by (apply Z.ltb_lt; lia).
    rewrite H1, H2. reflexivity.
  - apply Z.leb_gt in E1. apply Z.leb_le in E2.
    assert (H1 : (max_requests_per_min (limits inst) <=? 0) = true)
      by (apply Z.leb_le; lia).
    assert (H2 : (max_tokens_per_min (limits inst) <? estimated_tokens + 1000)
                 = false) by (apply Z.ltb_ge; lia).
    rewrite H1, H2. reflexivity.
  - apply Z.leb_gt in E1, E2.
    assert (H1 : (max_requests_per_min (limits inst) <=? 0) = true)
      by (apply Z.leb_le; lia).
    assert (H2 : (max_tokens_per_min (limits inst) <? estimated_tokens + 1000)
                 = true) by (apply Z.ltb_lt; lia).
    rewrite H1, H2. reflexivity.
Qed.

End ConfigFacts.

(* ===================================================================== *)
(** * Loading the narratives *)
(* ===================================================================== *)

Section PathFacts.
Import Loader.

Lemma rfind_from_app (c : ascii) (a b : list ascii) (i best : Z) :
  rfind_from c (a ++ b) i best
  = rfind_from c b (i + Z.of_nat (List.length a)) (rfind_from c a i best).
Proof.
  revert i best. induction a as [|x a IH]; intros i best.
  - cbn. rewrite Z.add_0_r. reflexivity.
  - cbn [app rfind_from List.length]. rewrite IH. f_equal. lia.
Qed.

Lemma rfind_from_absent (c : ascii) (l : list ascii) (i best : Z) :
  ~ In c l -> rfind_from c l i best = best.
Proof.
  revert i best. induction l as [|x l IH]; intros i best Hn; [reflexivity|].
  cbn [rfind_from]. destruct (Ascii.eqb x c) eqn:E.
  - apply Ascii.eqb_eq in E. subst. exfalso. apply Hn. left. reflexivity.
  - apply IH. intro H. apply Hn. right. exact H.
Qed.

Lemma rfind_last (c : ascii) (a b : list ascii) :
  ~ In c b -> rfind c (a ++ c :: b) = Z.of_nat (List.length a).
Proof.
  intro Hn. unfold rfind. rewrite rfind_from_app. cbn [rfind_from].
  rewrite Ascii.eqb_refl. apply rfind_from_absent. exact Hn.
Qed.

Lemma rfind_ignores_tail (c : ascii) (a b : list ascii) :
  ~ In c b -> rfind c (a ++ b) = rfind c a.
Proof.
  intro Hn. unfold rfind. rewrite rfind_from_app.
  apply rfind_from_absent. exact Hn.
Qed.

Lemma skip_leading_dots_spec (pre name post : list ascii) (k : nat) :
  skip_leading_dots (pre ++ name ++ post) (List.length pre)
    (List.length name) k
  = if forallb (fun x => Ascii.eqb x ".") name
    then (pre ++ name ++ post, [])
    else (firstn k (pre ++ name ++ post), skipn k (pre ++ name ++ post)).
Proof.
  revert pre. induction name as [|x name IH]; intro pre; [reflexivity|].
  cbn [List.length skip_leading_dots forallb].
  rewrite nth_error_app2 by apply Nat.le_refl. rewrite Nat.sub_diag.
  cbn [app nth_error].
  destruct (Ascii.eqb x ".") eqn:E; [|reflexivity]. cbn [andb].
  specialize (IH (pre ++ [x])).
  rewrite length_app in IH. cbn [List.length] in IH.
  rewrite Nat.add_1_r in IH. rewrite <- !app_assoc in IH. exact IH.
Qed.

Lemma chars_app (a b : string) :
  list_ascii_of_string (a ++ b)
  = list_ascii_of_string a ++ list_ascii_of_string b.
Proof.
  induction a as [|x a IH]; [reflexivity|]. cbn. rewrite IH. reflexivity.
Qed.

Lemma string_of_app (a b : list ascii) :
  string_of_list_ascii (a ++ b)
  = (string_of_list_ascii a ++ string_of_list_ascii b)%string.
Proof.
  induction a as [|x a IH]; [reflexivity|]. cbn. rewrite IH. reflexivity.
Qed.

(** What [splitext] returns for a path made of a directory part, a file
    name and a last suffix. *)
Lemma splitext_chars_spec (dir name ext : list ascii) :
  dir = [] \/ (exists d, dir = d ++ ["/"%char]) ->
  ~ In "/"%char name -> ~ In "/"%char ext -> ~ In "."%char ext ->
  splitext_chars (dir ++ name ++ "."%char :: ext)
  = if forallb (fun x => Ascii.eqb x ".") name
    then (dir ++ name ++ "."%char :: ext, [])
    else (dir ++ name, "."%char :: ext).
Proof.
  intros Hdir Hname Hext Hdot. unfold splitext_chars.
  assert (Hd : rfind "." (dir ++ name ++ "."%char :: ext)
               = Z.of_nat (List.length (dir ++ name))).
  { rewrite app_assoc. apply rfind_last. exact Hdot. }
  assert (Hs : rfind "/" (dir ++ name ++ "."%char :: ext)
               = Z.of_nat (List.length dir) - 1).
  { rewrite rfind_ignores_tail.
    - destruct Hdir as [->|[d ->]]; [reflexivity|].
      rewrite rfind_last by (intros []). rewrite length_app. cbn. lia.
    - intro H. apply in_app_or in H. destruct H as [H|[H|H]]; auto.
      discriminate H. }
  rewrite Hd, Hs. rewrite length_app.
  assert (Hlt : (Z.of_nat (List.length dir) - 1
                 <? Z.of_nat (List.length dir + List.length name)) = true)
    by (apply Z.ltb_lt; lia).
  rewrite Hlt.
  replace (Z.to_nat (Z.of_nat (List.length dir) - 1 + 1))
    with (List.length dir) by lia.
  replace (Z.to_nat (Z.of_nat (List.length dir + List.length name)
                     - (Z.of_nat (List.length dir) - 1 + 1)))
    with (List.length name) by lia.
  rewrite Nat2Z.id. rewrite skip_leading_dots_spec.
  destruct (forallb _ name); [reflexivity|].
  rewrite app_assoc. rewrite <- length_app.
  rewrite firstn_app, Nat.sub_diag, firstn_all, firstn_O, app_nil_r.
  rewrite skipn_app, Nat.sub_diag, skipn_all. reflexivity.
Qed.

End PathFacts.

Section LoaderFacts.
Import Trace Loader.

Variable frame : Type.
Variable read_csv : string -> exn + frame.
Variable read_excel : string -> exn + frame.
Variable json_load : string -> exn + Store.json.
Variable DataFrame : list Store.json -> exn + frame.
Variable columns : frame -> list string.

Local Abbreviation chars := list_ascii_of_string.
Local Abbreviation only_dots name :=
  (forallb (fun x => Ascii.eqb x ".") (chars name)).
Local Abbreviation load :=
  (_load_narratives frame read_csv read_excel json_load DataFrame).

Lemma lower_app (a b : string) : lower (a ++ b) = (lower a ++ lower b)%string.
Proof. unfold lower. rewrite chars_app, map_app. apply string_of_app. Qed.

Lemma file_extension_spec (dir name ext : string) :
  dir = ""%string \/ (exists d, dir = (d ++ "/")%string) ->
  ~ In "/"%char (chars name) -> ~ In "/"%char (chars ext) ->
  ~ In "."%char (chars ext) ->
  lower (snd (splitext (dir ++ name ++ "." ++ ext)))
  = if only_dots name then ""%string else ("." ++ lower ext)%string.
Proof.
  intros Hdir Hname Hext Hdot. unfold splitext.
  rewrite !chars_app. change (chars ".") with ["."%char]. cbn [app].
  rewrite splitext_chars_spec; try assumption.
  - destruct (only_dots name); cbn [snd]; [reflexivity|].
    change (string_of_list_ascii ("."%char :: chars ext))
      with ("." ++ string_of_list_ascii (chars ext))%string.
    rewrite string_of_list_ascii_of_string, lower_app. reflexivity.
  - destruct Hdir as [->|[d ->]]; [left; reflexivity|right].
    exists (chars d). apply chars_app.
Qed.

(** X20.  How a narratives file is recognised.  For a path made of a
    directory part (empty, or ending in a slash), a file name and a last
    suffix after a dot, the extension [_load_narratives] dispatches on is
    the dot and that suffix in lower case, so [.CSV] is read like [.csv]
    and only the last suffix of [a.csv.bak] counts; but a name that
    consists of dots only has no extension, so a file called [.csv] is
    refused as an unsupported format. *)
Theorem narratives_recognised_by_last_suffix (dir name ext : string) :
  dir = ""%string \/ (exists d, dir = (d ++ "/")%string) ->
  ~ In "/"%char (chars name) -> ~ In "/"%char (chars ext) ->
  ~ In "."%char (chars ext) ->
  let path := (dir ++ name ++ "." ++ ext)%string in
  if only_dots name then
    load path
    = inl (ValueError
             ("Error loading narratives from " ++ path
              ++ ": Unsupported file format: "
              ++ ". Supported formats: .csv, .xlsx, .xls, .json"))
  else
    lower (snd (splitext path)) = ("." ++ lower ext)%string /\
    (lower ext = "csv"%string ->
     load path
     = match read_csv path with
       | inr f => inr f
       | inl e =>
           inl (ValueError
                  ("Error loading narratives from " ++ path ++ ": " ++ e_str e))
       end) /\
    (lower ext = "xlsx"%string \/ lower ext = "xls"%string ->
     load path
     = match read_excel path with
       | inr f => inr f
       | inl e =>
           inl (ValueError
                  ("Error loading narratives from " ++ path ++ ": " ++ e_str e))
       end).
Proof.
  intros Hdir Hname Hext Hdot path.
  pose proof (file_extension_spec dir name ext Hdir Hname Hext Hdot) as Hfe.
  fold path in Hfe.
  unfold _load_narratives, load_by_extension.
  destruct (only_dots name).
  - rewrite Hfe. reflexivity.
  - split; [exact Hfe|]. rewrite Hfe. split.
    + intros ->. reflexivity.
    + intros [-> | ->]; reflexivity.
Qed.

Lemma existsb_eqb_In (x : string) (l : list string) :
  existsb (String.eqb x) l = true <-> In x l.
Proof.
  rewrite existsb_exists. split.
  - intros (y & Hy & E). apply String.eqb_eq in E. subst. exact Hy.
  - intro H. exists x. split; [exact H|apply String.eqb_refl].
Qed.

(** X21.  What a constructed [NarrativeBlueprint] guarantees.  Construction
    succeeds only with an engine that is a [LanguageModel], a non-empty
    [narrative_path], a file [_load_narratives] could load, and a data
    frame that has both a [uuid] and a [narrative] column; otherwise it
    raises, in this order of precedence, TypeError for the engine, and
    ValueError for the path, for the file, or for the missing columns,
    which the message lists in the order [uuid], [narrative]. *)
Theorem constructed_blueprint_has_columns (is_language_model : bool)
    (args : option arguments) :
  let a := match args with Some a => a | None => no_arguments end in
  match __init__ frame read_csv read_excel json_load DataFrame columns
          is_language_model args with
  | inr b =>
      is_language_model = true /\
      (exists path, narrative_path a = Some path /\ path <> ""%string /\
                    load path = inr (b_narratives frame b)) /\
      In "uuid"%string (columns (b_narratives frame b)) /\
      In "narrative"%string (columns (b_narratives frame b)) /\
      b_sample_size frame b = sample_size a
  | inl e =>
      (is_language_model = false /\
       e = Store.TypeError "llm_engine must be an instance of LanguageModel") \/
      (is_language_model = true /\
       (narrative_path a = None \/ narrative_path a = Some ""%string) /\
       e = ValueError "The `narrative_path` argument is required") \/
      (is_language_model = true /\
       exists path, narrative_path a = Some path /\
         (load path = inl e \/
          exists f missing,
            load path = inr f /\
            missing = filter (fun col => negb (existsb (String.eqb col)
                                                 (columns f)))
                        ["uuid"; "narrative"]%string /\
            missing <> [] /\
            e = ValueError ("Narratives dataset missing required columns: "
                            ++ repr_list missing)))
  end.
Proof.
  intro a. unfold __init__. fold a.
  destruct is_language_model; cbn [negb]; [|left; split; reflexivity].
  destruct (narrative_path a) as [path|] eqn:Hp;
    [|right; left; repeat split; left; reflexivity].
  destruct path as [|c path'];
    [right; left; repeat split; right; reflexivity|].
  destruct (load (String c path')) as [e|f] eqn:Hload.
  { right. right. split; [reflexivity|].
    eexists. split; [reflexivity|]. left. exact Hload. }
  set (missing := filter _ _).
  destruct missing as [|m ms] eqn:Hm.
  - cbn [b_narratives b_sample_size].
    split; [reflexivity|]. split.
    + eexists. split; [reflexivity|]. split; [discriminate|exact Hload].
    + subst missing. cbn [filter] in Hm.
      destruct (existsb (String.eqb "uuid") (columns f)) eqn:E1;
        [|discriminate].
      destruct (existsb (String.eqb "narrative") (columns f)) eqn:E2;
        [|discriminate].
      apply existsb_eqb_In in E1, E2. repeat split; assumption.
  - right. right. split; [reflexivity|].
    eexists. split; [reflexivity|]. right.
    exists f, (m :: ms).
    split; [exact Hload|]. split; [symmetry; exact Hm|].
    split; [discriminate|reflexivity].
Qed.

End LoaderFacts.

Lemma narratives_recognised_by_last_suffix_witness :
  Loader.lower (snd (Loader.splitext "data/Narratives.CSV")) = ".csv"%string.
Proof.
  assert (H1 : "data/"%string = ""%string \/
               (exists d, "data/"%string = (d ++ "/")%string))
    by (right; exists "data"%string; reflexivity).
  assert (H2 : ~ In "/"%char (list_ascii_of_string "Narratives"))
    by (cbn; intuition discriminate).
  assert (H3 : ~ In "/"%char (list_ascii_of_string "CSV"))
    by (cbn; intuition discriminate).
  assert (H4 : ~ In "."%char (list_ascii_of_string "CSV"))
    by (cbn; intuition discriminate).
  exact (proj1 (narratives_recognised_by_last_suffix unit
                  (fun _ => inr tt) (fun _ => inr tt)
                  (fun _ => inr Store.JNull) (fun _ => inr tt)
                  "data/" "Narratives" "CSV" H1 H2 H3 H4)).
Defined.

Section StoreIsolation.
Import Quota Trace Store.

Variable same_id : json -> json -> bool.

Lemma get_put_other (srv : server) (db db' coll coll' : string)
    (c : collection) :
  db <> db' \/ coll <> coll' ->
  get_collection (put_collection srv db' coll' c) db coll
  = get_collection srv db coll.
Proof.
  intro Hne. unfold get_collection, put_collection.
  destruct (string_dec db db') as [->|Hdb].
  - destruct Hne as [Hne|Hne]; [contradiction|].
    unfold database_of at 1. rewrite lookup_store_same.
    rewrite lookup_store_other by exact Hne. reflexivity.
  - unfold database_of at 1. rewrite lookup_store_other by exact Hdb.
    reflexivity.
Qed.

(** X22.  Inserting and reading back.  After [upload_test_case] has
    succeeded, [get_documents] on the same collection returns the
    documents it returned before followed by the new one, which agrees with
    the uploaded document on every field but [_id]; every other collection
    of the server reads as before; and when the upload is refused the
    server is not changed. *)
Theorem upload_then_get_documents (test_case : dict) (srv : server)
    (db_name collection_name : string) :
  match upload_test_case same_id test_case srv db_name collection_name with
  | inr srv' =>
      (exists stored_doc,
         get_documents srv' db_name collection_name
           = get_documents srv db_name collection_name ++ [stored_doc] /\
         forall k, k <> "_id"%string ->
                   dict_get k stored_doc = dict_get k test_case) /\
      (forall db coll, db <> db_name \/ coll <> collection_name ->
         get_documents srv' db coll = get_documents srv db coll)
  | inl e =>
      e = DuplicateKeyError /\
      exists id, dict_get "_id" test_case = Some id
  end.
Proof.
  unfold upload_test_case.
  destruct (insert_one same_id test_case
              (get_collection srv db_name collection_name)) as [e|c] eqn:Hins.
  - unfold insert_one in Hins.
    destruct (dict_get "_id" test_case) as [id|]; [|discriminate].
    destruct (existsb _ _); [|discriminate].
    inversion Hins. split; [reflexivity|]. exists id. reflexivity.
  - apply insert_one_docs in Hins. destruct Hins as (sd & Hdocs & Hget).
    split.
    + exists sd. unfold get_documents. rewrite get_put_collection.
      split; assumption.
    + intros db coll Hne. unfold get_documents.
      rewrite get_put_other by exact Hne. reflexivity.
Qed.

End StoreIsolation.

Lemma stored_task_not_resubmitted_witness :
  exists d,
    Store.run_blueprint_analysis
      (snd (Store._process_response StoreInputs.parsed_answer
              StoreInputs.by_number "b" StoreInputs.answer 5 "narratives"
              "blueprints" Inputs.empty_state StoreInputs.created))
      "narratives" "blueprints" "s" (fun n => n) Inputs.three_rows None
    = inr d /\
    ~ In "b"%string (map (fun t => fst (snd t)) (Dispatcher.submitted d)).
Proof.
  apply (stored_task_not_resubmitted StoreInputs.parsed_answer
           StoreInputs.by_number "s" (fun n => n) "b" StoreInputs.answer 5
           "narratives" "blueprints" Inputs.empty_state StoreInputs.created
           Inputs.three_rows None).
  - intros d Hd. destruct Hd.
  - reflexivity.
Defined.

Lemma first_decision_of_fresh_model_witness :
  exists inst,
    Config.__init__ StoreInputs.openai_limits "openai" "gpt-4o-mini"
      = inr inst /\
    fst (Quota.wait_decision (Config.limits inst) 0 (Config.lists inst) 10)
      = 0%Q.
Proof.
  eexists. split; [reflexivity|].
  exact (first_decision_of_fresh_model StoreInputs.openai_limits "openai"
           "gpt-4o-mini" _ 0 10 eq_refl).
Defined.
